(** * SolanaLens analytics engine: a shallow embedding

    The development follows [src/analytics/engine.ts] (the class
    [AnalyticsEngine]), [src/solana/client.ts] (the record types the
    engine consumes) and [src/solana/programs.ts] (the label directory).

    Modelling choices.

    - Numbers.  A JavaScript [number] is a binary64 value.  Quantities that
      the program only ever builds as counts (array lengths, map counters,
      sums of those) are [nat], which is exact below 2^53; slot numbers and
      timestamps are [Z].  Every other number (throughput, ratios,
      percentages, the baseline) lives in a type [R] with the operations
      of the class [JsNumber].  The class has two instances: [float]
      (Rocq's primitive binary64, the arithmetic JavaScript performs) and
      [Q] (exact arithmetic, used where a statement is about the
      real-number value "up to rounding").  A theorem stated for every
      instance holds in particular for binary64.  Every division of the
      program is guarded against a zero divisor, so that [x / 0], which
      differs between the two instances, is never computed.
    - Maps.  A [Map<string, number>] iterates in insertion order, so it is
      an association list [JsMap]; its keys are distinct ([map_wf]).
    - Sets.  Only [has] and [add] are used on [Set<string>]: a [gset].
    - Effects.  The engine's fields are threaded explicitly ([Engine]).
      The data source is an input of each call ([SolanaClient]), with the
      order in which its three promises settle; [Date.now()] is an input
      as well ([Clock]).
    - Anomaly messages (template strings with [toFixed]) are renderings of
      the [data] payload and are not modelled.
    - Aliasing.  [getHistory] hands out references; the module [Store]
      models the object store it runs on. *)

From Stdlib Require Import QArith Lqa.
From Stdlib Require Import Floats.PrimFloat Floats.SpecFloat Floats.FloatOps Floats.FloatAxioms Uint63.
From stdpp Require Import base list strings gmap sorting.

(** ** JavaScript numbers *)

Class JsNumber (R : Type) := {
  lit : Q -> R;            (* a numeric literal, or a count read as a number *)
  nadd : R -> R -> R;      (* x + y *)
  nmul : R -> R -> R;      (* x * y *)
  ndiv : R -> R -> R;      (* x / y *)
  nlt : R -> R -> bool     (* x < y;  x > y is [nlt y x] *)
}.

Definition of_nat {R} `{JsNumber R} (n : nat) : R := lit (inject_Z (Z.of_nat n)).

(** Exact rationals. *)
#[export] Instance Q_number : JsNumber Q := {|
  lit q := q;
  nadd := Qplus;
  nmul := Qmult;
  ndiv := Qdiv;
  nlt x y := negb (Qle_bool y x)
|}.

(** Binary64.  An integer below 2^53 converts exactly; a decimal literal
    [a/b] with such [a] and [b] is the correctly rounded quotient, which is
    the double the literal denotes. *)
Definition f64_of_Z (z : Z) : float :=
  match z with
  | Z0 => PrimFloat.zero
  | Zpos _ => PrimFloat.of_uint63 (Uint63.of_Z z)
  | Zneg p => PrimFloat.opp (PrimFloat.of_uint63 (Uint63.of_Z (Zpos p)))
  end.

#[export] Instance f64_number : JsNumber float := {|
  lit q := PrimFloat.div (f64_of_Z (Qnum q)) (f64_of_Z (Zpos (Qden q)));
  nadd := PrimFloat.add;
  nmul := PrimFloat.mul;
  ndiv := PrimFloat.div;
  nlt := PrimFloat.ltb
|}.

(** A count read as an exact rational. *)
Definition Qnat (n : nat) : Q := inject_Z (Z.of_nat n).

(** ** Maps with insertion order: [Map<string, number>] *)

Definition JsMap := list (string * nat).

Definition map_keys (m : JsMap) : list string := m.*1.
Definition map_values (m : JsMap) : list nat := m.*2.

Fixpoint map_get (k : string) (m : JsMap) : option nat :=
  match m with
  | [] => None
  | (k', v) :: m' => if String.eqb k' k then Some v else map_get k m'
  end.

(** [m.set(k, v)]: an existing key keeps its position, a new one goes last. *)
Fixpoint map_set (k : string) (v : nat) (m : JsMap) : JsMap :=
  match m with
  | [] => [(k, v)]
  | (k', v') :: m' =>
      if String.eqb k' k then (k', v) :: m' else (k', v') :: map_set k v m'
  end.

Definition map_wf (m : JsMap) : Prop := NoDup (map_keys m).

(** What [getTopProgramsFromRecentBlocks] returns: starting from
    [new Map()], one [programCounts.set(id, (programCounts.get(id) ?? 0) + 1)]
    per instruction of the fetched blocks, [programIds] listing the
    instructions' program identifiers in order. *)
Definition countInvocations (programIds : list string) : JsMap :=
  foldl (fun programCounts programId =>
           map_set programId (default 0 (map_get programId programCounts) + 1)
             programCounts)
        [] programIds.

(** ** Records of the data source ([client.ts]) *)

Record BlockProduction := {
  slot : Z;
  leader : string;
  numTransactions : nat;
  numSuccessful : nat;
  numFailed : nat;
  blockTime : option Z
}.

Record EpochInfo := {
  epoch : Z;
  slotIndex : Z;
  slotsInEpoch : Z;
  absoluteSlot : Z;
  transactionCount : option Z
}.

Record NetworkStats (R : Type) := {
  currentSlot : Z;
  blockHeight : Z;
  epochInfo : EpochInfo;
  tps : R;
  validatorCount : nat
}.
Arguments currentSlot {R}.
Arguments blockHeight {R}.
Arguments epochInfo {R}.
Arguments tps {R}.
Arguments validatorCount {R}.

(** What [getRecentBlockProduction] pushes for one fetched block: [metas]
    holds, per transaction, [tx.meta?.err] ([None] when [meta] is missing,
    [Some None] when [err] is [null]). *)
Definition tx_failed (meta : option (option string)) : bool :=
  match meta with
  | Some None => false      (* tx.meta.err === null *)
  | _ => true               (* tx.meta?.err !== null *)
  end.

Definition blockProductionOf (targetSlot : Z) (metas : list (option (option string)))
    (time : option Z) : BlockProduction :=
  let numTx := length metas in
  let numFailed := length (filter (fun m => tx_failed m = true) metas) in
  {| slot := targetSlot;
     leader := ""%string;
     numTransactions := numTx;
     numSuccessful := numTx - numFailed;
     numFailed := numFailed;
     blockTime := time |}.

(** What [getRecentBlockProduction] returns: [fetched] holds, slot by slot
    from [currentSlot] downwards, the transactions and the block time of
    the block the node returned, [None] for a slot that is unavailable or
    whose request failed (such a slot is skipped). *)
Definition recentBlockProduction (currentSlot : Z)
    (fetched : list (option (list (option (option string)) * option Z)))
    : list BlockProduction :=
  omap id
    (imap (fun i block =>
             (fun '(metas, time) =>
                blockProductionOf (currentSlot - Z.of_nat i) metas time) <$> block)
          fetched).

(** A block record whose successful transactions are among its
    transactions. *)
Definition block_wf (b : BlockProduction) : Prop :=
  numSuccessful b <= numTransactions b.

(** ** The label directory ([programs.ts]) *)

Open Scope string_scope.

Definition KNOWN_PROGRAMS : list (string * string) := [
    ("11111111111111111111111111111111", "System Program");
    ("TokenkegQfeZyiNwAJbNbGKPFXCWuBvf9Ss623VQ5DA", "Token Program");
    ("TokenzQdBNbLqP5VEhdkAS6EPFLC1PHnBqCXEpPxuEb", "Token-2022");
    ("ATokenGPvbdGVxr1b2hvZbsiqW5xWH25efTNsLJA8knL", "Associated Token Account");
    ("ComputeBudget111111111111111111111111111111", "Compute Budget");
    ("Vote111111111111111111111111111111111111111", "Vote Program");
    ("Stake11111111111111111111111111111111111111", "Stake Program");
    ("Config1111111111111111111111111111111111111", "Config Program");
    ("BPFLoaderUpgradeab1e11111111111111111111111", "BPF Loader Upgradeable");
    ("BPFLoader2111111111111111111111111111111111", "BPF Loader");
    ("BPFLoader1111111111111111111111111111111111", "BPF Loader (Deprecated)");
    ("SysvarC1ock11111111111111111111111111111111", "Sysvar Clock");
    ("SysvarRent111111111111111111111111111111111", "Sysvar Rent");
    ("SysvarS1otHashes111111111111111111111111111", "Sysvar Slot Hashes");
    ("MemoSq4gqABAXKb96qnH8TysNcWxMyWCqXgDLGmfcHr", "Memo Program v2");
    ("Memo1UhkJBfCR6MNBAxoGRGWfLs68tk5sJHCFiy553J", "Memo Program v1");
    (* DEX Programs *)
    ("JUP6LkbZbjS1jKKwapdHNy74zcZ3tLUZoi5QNyVTaV4", "Jupiter v6");
    ("whirLbMiicVdio4qvUfM5KAg6Ct8VwpYzGff3uctyCc", "Orca Whirlpools");
    ("675kPX9MHTjS2zt1qfr1NYHuzeLXfQM9H24wFSUt1Mp8", "Raydium AMM");
    ("CAMMCzo5YL8w4VFF8KVHrK22GGUsp5VTaW7grrKgrWqK", "Raydium CLMM");
    ("9xQeWvG816bUx9EPjHmaT23yvVM2ZWbrrpZb9PusVFin", "Serum DEX v3");
    ("srmqPvymJeFKQ4zGQed1GFppgkRHL9kaELCbyksJtPX", "Serum DEX v4");
    (* NFT / Metaplex *)
    ("metaqbxxUerdq28cj1RbAWkYQm3ybzjb6a8bt518x1s", "Metaplex Token Metadata");
    ("cndy3Z4yapfJBmearMhi7hipHMbSy6vrQFsFYD4KZm", "Candy Machine v2");
    ("Guard1JwRhJkVH6XZhzoYxeBVQe872VH6QggF4BWmS9g", "Candy Guard");
    (* Lending / DeFi *)
    ("MFv2hWf31Z9kbCa1snEPYctwafyhdvnV7FZnsebVacA", "Marinade Finance");
    ("So1endDq2YkqhipRh3WViPa8hFb7w2oSTY1BoqEG4xB", "Solend (Deprecated)");
    ("jCebN34bUfdeUYJT13J1yG16XWQpt5PDx6Mse9GUqhR", "Jito Staking");
    ("DjVE6JNiYqPL2QXyCUUh8rNjHrbz9hXHNYt99MQ59qw1", "Orca Token Swap");
    (* Infrastructure *)
    ("namesLPneVptA9Z5rqUDD9tMTWEJwofgaYwp8cawRkX", "Name Service");
    ("noopb9bkMVfRPU8AsBRBV8cn9CG5qawRUMkdJVsB8TQ", "SPL Noop");
    ("auth9SigNpDKz4sJJ1DfCTuZrZNSAgh9sFD3rboVmgg", "SPL Auth Rules")
  ].

Fixpoint record_get (k : string) (tbl : list (string * string)) : option string :=
  match tbl with
  | [] => None
  | (k', v) :: tbl' => if String.eqb k' k then Some v else record_get k tbl'
  end.

Definition shortenAddress (address : string) : string :=
  if (String.length address <=? 11)%nat then address
  else String.substring 0 4 address ++ "..."
       ++ String.substring (String.length address - 4)%nat 4 address.

(** [KNOWN_PROGRAMS] is a plain object: indexing it with a name that it
    does not hold itself finds what it inherits from [Object.prototype].
    These are the names of the members of [Object.prototype] (in Node,
    the runtime of the program); each member is a function or, for
    "__proto__", an object, hence truthy. *)
Definition OBJECT_PROTOTYPE_NAMES : list string := [
    "constructor"; "__defineGetter__"; "__defineSetter__"; "hasOwnProperty";
    "__lookupGetter__"; "__lookupSetter__"; "isPrototypeOf";
    "propertyIsEnumerable"; "toString"; "valueOf"; "__proto__";
    "toLocaleString"
  ].

(** What [getProgramLabel] returns: a text or, although its signature says
    [string], the member that [KNOWN_PROGRAMS] inherits under the name. *)
Inductive Label :=
  | LabelText (text : string)
  | LabelInherited (name : string).

(** [KNOWN_PROGRAMS[programId] || shortenAddress(programId)]: every label
    of the table is a non-empty string, hence truthy, and so is every
    inherited member; for any other name the index is [undefined]. *)
Definition getProgramLabel (programId : string) : Label :=
  match record_get programId KNOWN_PROGRAMS with
  | Some label => LabelText label
  | None =>
      if existsb (String.eqb programId) OBJECT_PROTOTYPE_NAMES
      then LabelInherited programId
      else LabelText (shortenAddress programId)
  end.

Definition PROGRAM_CATEGORIES : list (string * list string) := [
    ("Core", [
       "11111111111111111111111111111111";
       "ComputeBudget111111111111111111111111111111";
       "Vote111111111111111111111111111111111111111";
       "Stake11111111111111111111111111111111111111" ]);
    ("Token", [
       "TokenkegQfeZyiNwAJbNbGKPFXCWuBvf9Ss623VQ5DA";
       "TokenzQdBNbLqP5VEhdkAS6EPFLC1PHnBqCXEpPxuEb";
       "ATokenGPvbdGVxr1b2hvZbsiqW5xWH25efTNsLJA8knL" ]);
    ("DEX", [
       "JUP6LkbZbjS1jKKwapdHNy74zcZ3tLUZoi5QNyVTaV4";
       "whirLbMiicVdio4qvUfM5KAg6Ct8VwpYzGff3uctyCc";
       "675kPX9MHTjS2zt1qfr1NYHuzeLXfQM9H24wFSUt1Mp8";
       "CAMMCzo5YL8w4VFF8KVHrK22GGUsp5VTaW7grrKgrWqK" ]);
    ("NFT", [
       "metaqbxxUerdq28cj1RbAWkYQm3ybzjb6a8bt518x1s";
       "cndy3Z4yapfJBmearMhi7hipHMbSy6vrQFsFYD4KZm" ]);
    ("DeFi", [
       "MFv2hWf31Z9kbCa1snEPYctwafyhdvnV7FZnsebVacA";
       "So1endDq2YkqhipRh3WViPa8hFb7w2oSTY1BoqEG4xB";
       "jCebN34bUfdeUYJT13J1yG16XWQpt5PDx6Mse9GUqhR" ])
  ].

Fixpoint categorize_in (programId : string) (cats : list (string * list string)) : string :=
  match cats with
  | [] => "Other"
  | (category, programs) :: cats' =>
      if existsb (String.eqb programId) programs then category
      else categorize_in programId cats'
  end.

Definition categorizeProgram (programId : string) : string :=
  categorize_in programId PROGRAM_CATEGORIES.

Close Scope string_scope.

(** ** The engine's data model ([engine.ts]) *)

Record ProgramRanking (R : Type) := {
  programId : string;
  label : Label;
  category : string;
  invocationCount : nat;
  share : R                  (* percentage of total *)
}.
Arguments programId {R}.
Arguments label {R}.
Arguments category {R}.
Arguments invocationCount {R}.
Arguments share {R}.

Record BlockSummary (R : Type) := {
  blocksAnalyzed : nat;
  totalTransactions : nat;
  successRate : R;
  avgTxPerBlock : R;
  avgFeePerTx : R
}.
Arguments blocksAnalyzed {R}.
Arguments totalTransactions {R}.
Arguments successRate {R}.
Arguments avgTxPerBlock {R}.
Arguments avgFeePerTx {R}.

Inductive AnomalyType :=
  | high_failure_rate
  | tps_spike
  | tps_drop
  | program_surge
  | large_block
  | empty_block
  | new_program_detected.

Inductive Severity := low | medium | high.

#[export] Instance AnomalyType_eq_dec : EqDecision AnomalyType.
Proof. solve_decision. Defined.
#[export] Instance Severity_eq_dec : EqDecision Severity.
Proof. solve_decision. Defined.

(** The [data] object of an anomaly, one shape per rule. *)
Inductive AnomalyData (R : Type) :=
  | FailureData (successRate : R) (totalTransactions : nat)
  | TpsData (currentTps baselineTps ratio : R)
  | BlockData (avgTxPerBlock : R)
  | NewProgramData (programId : string) (invocations : option nat)
  | SurgeData (programId : string) (previousCount currentCount : nat).
Arguments FailureData {R}.
Arguments TpsData {R}.
Arguments BlockData {R}.
Arguments NewProgramData {R}.
Arguments SurgeData {R}.

Record Anomaly (R : Type) := {
  a_type : AnomalyType;
  a_severity : Severity;
  a_data : AnomalyData R;
  a_timestamp : Z
}.
Arguments a_type {R}.
Arguments a_severity {R}.
Arguments a_data {R}.
Arguments a_timestamp {R}.

Record NetworkSnapshot (R : Type) := {
  s_timestamp : Z;
  s_stats : NetworkStats R;
  topPrograms : list (ProgramRanking R);
  blockSummary : BlockSummary R;
  anomalies : list (Anomaly R)
}.
Arguments s_timestamp {R}.
Arguments s_stats {R}.
Arguments topPrograms {R}.
Arguments blockSummary {R}.
Arguments anomalies {R}.

Record HistoricalDataPoint (R : Type) := {
  h_timestamp : Z;
  h_tps : R;
  h_txCount : nat;
  h_successRate : R;
  h_programCounts : JsMap
}.
Arguments h_timestamp {R}.
Arguments h_tps {R}.
Arguments h_txCount {R}.
Arguments h_successRate {R}.
Arguments h_programCounts {R}.

(** The private fields of [AnalyticsEngine]; [client] is an input of each
    call and [maxHistoryLength] is never assigned after its initialiser. *)
Record Engine (R : Type) := {
  history : list (HistoricalDataPoint R);
  knownPrograms : gset string;
  baselineTps : option R
}.
Arguments history {R}.
Arguments knownPrograms {R}.
Arguments baselineTps {R}.

Definition maxHistoryLength : nat := 100.

(** [new AnalyticsEngine(client)] *)
Definition newEngine {R : Type} : Engine R :=
  {| history := []; knownPrograms := ∅; baselineTps := None |}.

(** ** Promises *)

Inductive Outcome (A : Type) :=
  | Fulfilled (value : A)
  | Rejected (reason : string).
Arguments Fulfilled {A}.
Arguments Rejected {A}.

(** The behaviour of the data source during one call of [takeSnapshot]. *)
Record SolanaClient (R : Type) := {
  getNetworkStats : Outcome (NetworkStats R);
  getRecentBlockProduction : nat -> Outcome (list BlockProduction);
  getTopProgramsFromRecentBlocks : nat -> Outcome JsMap
}.
Arguments getNetworkStats {R}.
Arguments getRecentBlockProduction {R}.
Arguments getTopProgramsFromRecentBlocks {R}.

Inductive FetchId := FetchStats | FetchBlocks | FetchCounts.

Definition rejection {A} (o : Outcome A) : option string :=
  match o with
  | Fulfilled _ => None
  | Rejected reason => Some reason
  end.

(** The reason of the first promise to reject, [settled] listing the three
    promises in the order they settle. *)
Fixpoint first_rejection {A B C} (settled : list FetchId)
    (p1 : Outcome A) (p2 : Outcome B) (p3 : Outcome C) : option string :=
  match settled with
  | [] => None
  | id :: rest =>
      let r := match id with
               | FetchStats => rejection p1
               | FetchBlocks => rejection p2
               | FetchCounts => rejection p3
               end in
      match r with
      | Some reason => Some reason
      | None => first_rejection rest p1 p2 p3
      end
  end.

(** [Promise.all([p1, p2, p3])]: the triple of values when all three are
    fulfilled, otherwise the first rejection (a promise that [settled]
    omits counts as settling last, in position order). *)
Definition promise_all {A B C} (settled : list FetchId)
    (p1 : Outcome A) (p2 : Outcome B) (p3 : Outcome C) : Outcome (A * B * C) :=
  match p1, p2, p3 with
  | Fulfilled a, Fulfilled b, Fulfilled c => Fulfilled (a, b, c)
  | Rejected e, _, _
  | Fulfilled _, Rejected e, _
  | Fulfilled _, Fulfilled _, Rejected e =>
      Rejected (default e (first_rejection settled p1 p2 p3))
  end.

(** The three readings of [Date.now()] in one call. *)
Record Clock := {
  now_detect : Z;      (* detectAnomalies: const now *)
  now_history : Z;     (* the history entry's timestamp *)
  now_snapshot : Z     (* the returned snapshot's timestamp *)
}.

(** One call: what the caller passes and what the environment does. *)
Record Call (R : Type) := {
  c_client : SolanaClient R;
  c_numBlocks : nat;
  c_settled : list FetchId;
  c_clock : Clock
}.
Arguments c_client {R}.
Arguments c_numBlocks {R}.
Arguments c_settled {R}.
Arguments c_clock {R}.

(** ** The engine's operations *)

Section Engine.
Context {R : Type} `{JsNumber R}.

(** *** Snapshot aggregator *)

Definition sum_by {A} (f : A -> nat) (l : list A) : nat :=
  foldl (fun sum b => sum + f b) 0 l.

Definition summarizeBlocks (blocks : list BlockProduction) : BlockSummary R :=
  if length blocks =? 0 then
    {| blocksAnalyzed := 0;
       totalTransactions := 0;
       successRate := lit 0;
       avgTxPerBlock := lit 0;
       avgFeePerTx := lit 0 |}
  else
    let totalTx := sum_by numTransactions blocks in
    let totalSuccess := sum_by numSuccessful blocks in
    {| blocksAnalyzed := length blocks;
       totalTransactions := totalTx;
       successRate :=
         if 0 <? totalTx
         then nmul (ndiv (of_nat totalSuccess) (of_nat totalTx)) (lit 100)
         else lit 0;
       avgTxPerBlock := ndiv (of_nat totalTx) (of_nat (length blocks));
       avgFeePerTx := lit 0 |}.

(** *** Ranking function *)

(** [Array.prototype.sort] is stable and the comparator
    [(a, b) => b.invocationCount - a.invocationCount] is a total preorder
    on counts, so the result is the one stable arrangement by descending
    count: an entry goes before the first one whose count is not larger. *)
Fixpoint insert_ranked (x : ProgramRanking R) (l : list (ProgramRanking R))
    : list (ProgramRanking R) :=
  match l with
  | [] => [x]
  | y :: l' =>
      if invocationCount x <? invocationCount y
      then y :: insert_ranked x l'
      else x :: y :: l'
  end.

Definition sort_ranked (l : list (ProgramRanking R)) : list (ProgramRanking R) :=
  foldr insert_ranked [] l.

Definition ranking_of (total : nat) (entry : string * nat) : ProgramRanking R :=
  let '(programId, count) := entry in
  {| programId := programId;
     label := getProgramLabel programId;
     category := categorizeProgram programId;
     invocationCount := count;
     share := if 0 <? total
              then nmul (ndiv (of_nat count) (of_nat total)) (lit 100)
              else lit 0 |}.

Definition rankPrograms (programCounts : JsMap) : list (ProgramRanking R) :=
  let total := foldl (fun a b => a + b) 0 (map_values programCounts) in
  take 20 (sort_ranked (ranking_of total <$> programCounts)).

(** *** Anomaly rule set

    [detectAnomalies] pushes onto one array in a fixed order; each block
    of the function is a list here and the result is their
    concatenation. *)

(* High failure rate *)
Definition highFailureRate (blockSummary : BlockSummary R) (now : Z) : list (Anomaly R) :=
  if nlt (successRate blockSummary) (lit 80) && (10 <? totalTransactions blockSummary)
  then [ {| a_type := high_failure_rate;
            a_severity := if nlt (successRate blockSummary) (lit 50) then high else medium;
            a_data := FailureData (successRate blockSummary) (totalTransactions blockSummary);
            a_timestamp := now |} ]
  else [].

(* TPS anomalies (only after we have a baseline) *)
Definition tpsAnomalies (baseline : option R) (stats : NetworkStats R) (now : Z)
    : list (Anomaly R) :=
  match baseline with
  | None => []
  | Some baselineTps =>
      if nlt (lit 0) baselineTps then
        let tpsRatio := ndiv (tps stats) baselineTps in
        if nlt (lit 2) tpsRatio then
          [ {| a_type := tps_spike;
               a_severity := if nlt (lit 3) tpsRatio then high else medium;
               a_data := TpsData (tps stats) baselineTps tpsRatio;
               a_timestamp := now |} ]
        else if nlt tpsRatio (lit 0.3) && nlt (lit 0) (tps stats) then
          [ {| a_type := tps_drop;
               a_severity := if nlt tpsRatio (lit 0.1) then high else medium;
               a_data := TpsData (tps stats) baselineTps tpsRatio;
               a_timestamp := now |} ]
        else []
      else []
  end.

(* Large block detection *)
Definition largeBlock (blockSummary : BlockSummary R) (now : Z) : list (Anomaly R) :=
  if nlt (lit 2000) (avgTxPerBlock blockSummary)
  then [ {| a_type := large_block;
            a_severity := if nlt (lit 5000) (avgTxPerBlock blockSummary) then high else low;
            a_data := BlockData (avgTxPerBlock blockSummary);
            a_timestamp := now |} ]
  else [].

(* Empty block detection *)
Definition emptyBlock (blockSummary : BlockSummary R) (now : Z) : list (Anomaly R) :=
  if nlt (avgTxPerBlock blockSummary) (lit 5) && (0 <? blocksAnalyzed blockSummary)
  then [ {| a_type := empty_block;
            a_severity := medium;
            a_data := BlockData (avgTxPerBlock blockSummary);
            a_timestamp := now |} ]
  else [].

(** [history.slice(-n)] *)
Definition slice_last {A} (n : nat) (l : list A) : list A :=
  drop (length l - n) l.

(** The set [previousPrograms] built from [this.history.slice(-5)]. *)
Definition previousPrograms (hist : list (HistoricalDataPoint R)) : gset string :=
  foldl (fun s h => foldl (fun s p => s ∪ {[p]}) s (map_keys (h_programCounts h)))
        ∅ (slice_last 5 hist).

Definition newProgramAnomaly (programCounts : JsMap) (now : Z) (programId : string)
    : Anomaly R :=
  {| a_type := new_program_detected;
     a_severity := low;
     a_data := NewProgramData programId (map_get programId programCounts);
     a_timestamp := now |}.

(* New program detection (programs not seen in previous snapshots) *)
Definition newPrograms (st : Engine R) (programCounts : JsMap) (now : Z)
    : list (Anomaly R) :=
  if 3 <? length (history st) then
    let previous := previousPrograms (history st) in
    newProgramAnomaly programCounts now <$>
      (filter (fun programId => (programId ∉ previous) ∧ (programId ∉ knownPrograms st))
              (map_keys programCounts))
  else [].

Definition surgeAnomaly (lastSnapshot : HistoricalDataPoint R) (now : Z)
    (entry : string * nat) : option (Anomaly R) :=
  let '(programId, count) := entry in
  let prevCount := default 0 (map_get programId (h_programCounts lastSnapshot)) in
  if (5 <? prevCount) && (prevCount * 3 <? count)
  then Some {| a_type := program_surge;
               a_severity := if prevCount * 10 <? count then high else medium;
               a_data := SurgeData programId prevCount count;
               a_timestamp := now |}
  else None.

(* Program surge detection.  [this.history[this.history.length - 1]] is
   defined whenever the guard holds. *)
Definition programSurges (st : Engine R) (programCounts : JsMap) (now : Z)
    : list (Anomaly R) :=
  if 2 <? length (history st) then
    match last (history st) with
    | Some lastSnapshot => omap (surgeAnomaly lastSnapshot now) programCounts
    | None => []
    end
  else [].

Definition detectAnomalies (st : Engine R) (stats : NetworkStats R)
    (blockSummary : BlockSummary R) (_topPrograms : list (ProgramRanking R))
    (programCounts : JsMap) (now : Z) : list (Anomaly R) :=
  highFailureRate blockSummary now
  ++ tpsAnomalies (baselineTps st) stats now
  ++ largeBlock blockSummary now
  ++ emptyBlock blockSummary now
  ++ newPrograms st programCounts now
  ++ programSurges st programCounts now.

(** *** State update *)

Definition dataPoint (stats : NetworkStats R) (blockSummary : BlockSummary R)
    (programCounts : JsMap) (now : Z) : HistoricalDataPoint R :=
  {| h_timestamp := now;
     h_tps := tps stats;
     h_txCount := totalTransactions blockSummary;
     h_successRate := successRate blockSummary;
     h_programCounts := programCounts |}.

(** [history.push(p); if (history.length > maxHistoryLength) history.shift()] *)
Definition pushHistory (hist : list (HistoricalDataPoint R)) (p : HistoricalDataPoint R)
    : list (HistoricalDataPoint R) :=
  let pushed := hist ++ [p] in
  if maxHistoryLength <? length pushed then tail pushed else pushed.

(* Update baseline TPS (moving average) *)
Definition updateBaseline (baseline : option R) (observed : R) : option R :=
  match baseline with
  | None => Some observed
  | Some b => Some (nadd (nmul b (lit 0.9)) (nmul observed (lit 0.1)))
  end.

(* Track known programs *)
Definition trackPrograms (known : gset string) (programCounts : JsMap) : gset string :=
  foldl (fun s programId => s ∪ {[programId]}) known (map_keys programCounts).

(** The body of [takeSnapshot] after the [await]. *)
Definition snapshotOf (st : Engine R) (clock : Clock) (stats : NetworkStats R)
    (blocks : list BlockProduction) (programCounts : JsMap)
    : NetworkSnapshot R * Engine R :=
  let blockSummary := summarizeBlocks blocks in
  let topPrograms := rankPrograms programCounts in
  let anomalies :=
    detectAnomalies st stats blockSummary topPrograms programCounts (now_detect clock) in
  let st' :=
    {| history := pushHistory (history st)
                    (dataPoint stats blockSummary programCounts (now_history clock));
       baselineTps := updateBaseline (baselineTps st) (tps stats);
       knownPrograms := trackPrograms (knownPrograms st) programCounts |} in
  ({| s_timestamp := now_snapshot clock;
      s_stats := stats;
      topPrograms := topPrograms;
      blockSummary := blockSummary;
      anomalies := anomalies |}, st').

(** [engine.takeSnapshot(numBlocks)]: the settled promise and the engine
    afterwards. *)
Definition takeSnapshot (st : Engine R) (call : Call R)
    : Outcome (NetworkSnapshot R) * Engine R :=
  let client := c_client call in
  match promise_all (c_settled call)
          (getNetworkStats client)
          (getRecentBlockProduction client (c_numBlocks call))
          (getTopProgramsFromRecentBlocks client (c_numBlocks call)) with
  | Rejected reason => (Rejected reason, st)
  | Fulfilled (stats, blocks, programCounts) =>
      let '(snapshot, st') := snapshotOf st (c_clock call) stats blocks programCounts in
      (Fulfilled snapshot, st')
  end.

Definition getBaselineTps (st : Engine R) : option R := baselineTps st.

(** The engine after a sequence of calls. *)
Fixpoint run (st : Engine R) (calls : list (Call R)) : Engine R :=
  match calls with
  | [] => st
  | call :: calls' => run (takeSnapshot st call).2 calls'
  end.

(** A call completes when none of its three fetches fails. *)
Definition completes (call : Call R) : Prop :=
  rejection (getNetworkStats (c_client call)) = None
  ∧ rejection (getRecentBlockProduction (c_client call) (c_numBlocks call)) = None
  ∧ rejection (getTopProgramsFromRecentBlocks (c_client call) (c_numBlocks call)) = None.

(** The history entry a call appends: none when it fails. *)
Definition callPoint (call : Call R) : option (HistoricalDataPoint R) :=
  match getNetworkStats (c_client call),
        getRecentBlockProduction (c_client call) (c_numBlocks call),
        getTopProgramsFromRecentBlocks (c_client call) (c_numBlocks call) with
  | Fulfilled stats, Fulfilled blocks, Fulfilled programCounts =>
      Some (dataPoint stats (summarizeBlocks blocks) programCounts
              (now_history (c_clock call)))
  | _, _, _ => None
  end.

(** A call fails when at least one of them does. *)
Definition fails (call : Call R) : Prop :=
  is_Some (rejection (getNetworkStats (c_client call)))
  ∨ is_Some (rejection (getRecentBlockProduction (c_client call) (c_numBlocks call)))
  ∨ is_Some (rejection (getTopProgramsFromRecentBlocks (c_client call)
                          (c_numBlocks call))).

End Engine.

(** Every identifier counted in a history entry is known. *)
Definition history_known {R} (st : Engine R) : Prop :=
  ∀ h programId, h ∈ history st → programId ∈ map_keys (h_programCounts h) →
    programId ∈ knownPrograms st.

(** A call whose three fetches are fulfilled with the given values. *)
Definition callOf {R} (stats : NetworkStats R) (blocks : list BlockProduction)
    (programCounts : JsMap) (clock : Clock) : Call R :=
  {| c_client := {| getNetworkStats := Fulfilled stats;
                    getRecentBlockProduction := fun _ => Fulfilled blocks;
                    getTopProgramsFromRecentBlocks := fun _ => Fulfilled programCounts |};
     c_numBlocks := 5;
     c_settled := [FetchStats; FetchBlocks; FetchCounts];
     c_clock := clock |}.

(** Network statistics with a given throughput. *)
Definition statsOf {R} (observed : R) : NetworkStats R :=
  {| currentSlot := 0; blockHeight := 0;
     epochInfo := {| epoch := 0; slotIndex := 0; slotsInEpoch := 1; absoluteSlot := 0;
                     transactionCount := None |};
     tps := observed; validatorCount := 0 |}.

Definition clockAt (t : Z) : Clock :=
  {| now_detect := t; now_history := t; now_snapshot := t |}.

(** A block record with [numTx] transactions of which [numOk] succeeded. *)
Definition blockOf (numTx numOk : nat) : BlockProduction :=
  {| slot := 0; leader := ""%string; numTransactions := numTx;
     numSuccessful := numOk; numFailed := numTx - numOk; blockTime := None |}.

(** A completed round at time [t]: throughput [observed], one block of 100
    transactions (95 successful), the given invocation counts. *)
Definition roundOf {R} `{JsNumber R} (observed : Q) (programCounts : JsMap) (t : Z)
    : Call R :=
  callOf (statsOf (lit observed)) [blockOf 100 95] programCounts (clockAt t).

(** [n] completed rounds at times 0, 1, ..., n-1. *)
Definition roundsOf {R} `{JsNumber R} (n : nat) : list (Call R) :=
  (fun i => roundOf 100 [("a"%string, 10)] (Z.of_nat i)) <$> seq 0 n.

(** Three identifiers, two of them with the same count. *)
Definition sampleCounts : JsMap := [("a"%string, 3); ("b"%string, 7); ("c"%string, 3)].

(** An engine whose baseline is 100 and that has seen nothing else. *)
Definition baselineOnly {R} `{JsNumber R} : Engine R :=
  {| history := []; knownPrograms := ∅; baselineTps := Some (lit 100) |}.

(** Identifier X is counted in the first round, in none of the next six,
    and again, beside a new identifier Y, in the eighth. *)
Definition roundsWithX {R} `{JsNumber R} : list (Call R) :=
  roundOf 100 [("X"%string, 10)] 0
  :: ((fun i => roundOf 100 [("a"%string, 10)] (Z.of_nat i)) <$> seq 1 6).

Definition roundXY {R} `{JsNumber R} : Call R :=
  roundOf 100 [("X"%string, 1); ("Y"%string, 2)] 7.

(** Three rounds that count identifier X 10 times. *)
Definition roundsBeforeSurge {R} `{JsNumber R} : list (Call R) :=
  (fun i => roundOf 100 [("X"%string, 10)] (Z.of_nat i)) <$> seq 0 3.

(** A call whose block fetch is rejected. *)
Definition failingCall {R} `{JsNumber R} : Call R :=
  {| c_client := {| getNetworkStats := Fulfilled (statsOf (lit 100));
                    getRecentBlockProduction := fun _ => Rejected "rpc down"%string;
                    getTopProgramsFromRecentBlocks := fun _ => Fulfilled [] |};
     c_numBlocks := 5;
     c_settled := [FetchBlocks; FetchStats; FetchCounts];
     c_clock := clockAt 0 |}.

(** The identifier an anomaly is about, for the two per-identifier rules. *)
Definition anomaly_program {R} (a : Anomaly R) : option string :=
  match a_data a with
  | NewProgramData programId _ => Some programId
  | SurgeData programId _ _ => Some programId
  | _ => None
  end.

(** The anomalies of one kind in a list, and those about one identifier. *)
Definition of_type {R} (t : AnomalyType) (l : list (Anomaly R)) : list (Anomaly R) :=
  filter (fun a => a_type a = t) l.

Definition anomalies_for {R} (t : AnomalyType) (programId : string)
    (l : list (Anomaly R)) : list (Anomaly R) :=
  filter (fun a => a_type a = t ∧ anomaly_program a = Some programId) l.

(** The sum of the shares of a ranking, in exact arithmetic. *)
Definition sum_shares (l : list (ProgramRanking Q)) : Q :=
  foldr Qplus 0%Q (share <$> l).

(** The same sum as binary64 computes it, from left to right. *)
Definition sum_shares_binary64 (l : list (ProgramRanking float)) : float :=
  foldl (fun sum r => PrimFloat.add sum (share r)) 0%float l.

Definition count_ge {R} (x y : ProgramRanking R) : Prop :=
  invocationCount y <= invocationCount x.

(** A ranking in descending order of invocation count. *)
Definition descending {R} (l : list (ProgramRanking R)) : Prop :=
  ∀ i j x y, i < j → l !! i = Some x → l !! j = Some y →
    invocationCount y <= invocationCount x.

(** ** The object store behind [getHistory]

    [this.history] is a reference to an array object; its elements are
    references to the entry objects pushed by [takeSnapshot], and each
    entry holds a reference to the [Map] the data source returned.  A
    caller that receives a reference can write through it. *)

Module Store.

Abbreviation ref := nat.

Inductive object (R : Type) :=
  | ArrayObj (elements : list ref)
  | PointObj (timestamp : Z) (tps : R) (txCount : nat) (successRate : R)
      (programCounts : ref)
  | MapObj (entries : JsMap).
Arguments ArrayObj {R}.
Arguments PointObj {R}.
Arguments MapObj {R}.

(** A reference is an index; allocation appends. *)
Abbreviation store R := (list (object R)).

Definition alloc {R} (σ : store R) (o : object R) : store R * ref :=
  (σ ++ [o], length σ).

(** The values a reference stands for. *)
Definition read_map {R} (σ : store R) (r : ref) : option JsMap :=
  match σ !! r with
  | Some (MapObj entries) => Some entries
  | _ => None
  end.

Definition read_point {R} (σ : store R) (r : ref) : option (HistoricalDataPoint R) :=
  match σ !! r with
  | Some (PointObj timestamp tps txCount successRate programCounts) =>
      match read_map σ programCounts with
      | Some entries =>
          Some {| h_timestamp := timestamp; h_tps := tps; h_txCount := txCount;
                  h_successRate := successRate; h_programCounts := entries |}
      | None => None
      end
  | _ => None
  end.

Definition read_array {R} (σ : store R) (r : ref)
    : option (list (HistoricalDataPoint R)) :=
  match σ !! r with
  | Some (ArrayObj elements) => mapM (read_point σ) elements
  | _ => None
  end.

(** [getHistory() { return [...this.history]; }]: a new array object with
    the elements of the engine's array.  [None] when [history] is not a
    reference to an array. *)
Definition getHistory {R} (σ : store R) (this_history : ref) : option (store R * ref) :=
  match σ !! this_history with
  | Some (ArrayObj elements) => Some (alloc σ (ArrayObj elements))
  | _ => None
  end.

(** What a caller can do with the returned reference [returned].  Every
    operation on the array itself ([push], [pop], [shift], [splice],
    [sort], [reverse], assignment to an index or to [length]) leaves it
    with some list of elements.  Through an element the caller reaches the
    entry object and its map. *)
Inductive mutation (R : Type) :=
  | ArraySet (elements : list ref)              (* returned := elements *)
  | PointSetTps (i : nat) (v : R)               (* returned[i].tps = v *)
  | PointSetTxCount (i : nat) (v : nat)         (* returned[i].txCount = v *)
  | CountsSet (i : nat) (k : string) (v : nat)  (* returned[i].programCounts.set(k, v) *)
  | CountsClear (i : nat).                      (* returned[i].programCounts.clear() *)
Arguments ArraySet {R}.
Arguments PointSetTps {R}.
Arguments PointSetTxCount {R}.
Arguments CountsSet {R}.
Arguments CountsClear {R}.

(** The reference [returned[i]]. *)
Definition element {R} (σ : store R) (returned : ref) (i : nat) : option ref :=
  match σ !! returned with
  | Some (ArrayObj elements) => elements !! i
  | _ => None
  end.

(** The reference [returned[i].programCounts]. *)
Definition element_counts {R} (σ : store R) (returned : ref) (i : nat) : option ref :=
  match element σ returned i with
  | Some p =>
      match σ !! p with
      | Some (PointObj _ _ _ _ programCounts) => Some programCounts
      | _ => None
      end
  | None => None
  end.

(** The store after a mutation; a mutation that would throw (an index out
    of range, so that [returned[i]] is [undefined]) changes nothing. *)
Definition mutate {R} (σ : store R) (returned : ref) (m : mutation R) : store R :=
  match m with
  | ArraySet elements => <[returned := ArrayObj elements]> σ
  | PointSetTps i v =>
      match element σ returned i with
      | Some p =>
          match σ !! p with
          | Some (PointObj timestamp _ txCount successRate programCounts) =>
              <[p := PointObj timestamp v txCount successRate programCounts]> σ
          | _ => σ
          end
      | None => σ
      end
  | PointSetTxCount i v =>
      match element σ returned i with
      | Some p =>
          match σ !! p with
          | Some (PointObj timestamp tps _ successRate programCounts) =>
              <[p := PointObj timestamp tps v successRate programCounts]> σ
          | _ => σ
          end
      | None => σ
      end
  | CountsSet i k v =>
      match element_counts σ returned i with
      | Some c =>
          match σ !! c with
          | Some (MapObj entries) => <[c := MapObj (map_set k v entries)]> σ
          | _ => σ
          end
      | None => σ
      end
  | CountsClear i =>
      match element_counts σ returned i with
      | Some c =>
          match σ !! c with
          | Some (MapObj _) => <[c := MapObj []]> σ
          | _ => σ
          end
      | None => σ
      end
  end.

(** A mutation of the returned array object itself. *)
Definition on_array {R} (m : mutation R) : Prop :=
  match m with
  | ArraySet _ => True
  | _ => False
  end.

(** [σ'] keeps every object of [σ]. *)
Definition extends {R} (σ σ' : store R) : Prop :=
  ∀ r o, σ !! r = Some o → σ' !! r = Some o.

(** A store with the engine's array (object 0), its one entry (object 1)
    and that entry's map (object 2), and the engine it stands for. *)
Definition sample : store Q :=
  [ ArrayObj [1]; PointObj 0 100%Q 10 100%Q 2; MapObj [("a"%string, 1)] ].

Definition sampleEngine : Engine Q :=
  {| history := [ {| h_timestamp := 0; h_tps := 100%Q; h_txCount := 10;
                     h_successRate := 100%Q; h_programCounts := [("a"%string, 1)] |} ];
     knownPrograms := {[ "a"%string ]};
     baselineTps := Some 100%Q |}.

End Store.

(** * Further parts of the program

    The rest of [src/solana/client.ts] that computes something
    ([getTopProgramsFromRecentBlocks], [getProgramActivity]), the text
    helpers of the dashboard and of the command line, and two handlers of
    the REST API.

    - Identifiers, the texts of labels and the cells of the command-line
      table are [string]s: program identifiers are base 58 and the labels
      of the directory are ASCII, for which a character is a UTF-16 code
      unit.  A label is a [Label]: the directory is a plain object, and
      the name of a member it inherits finds that member, not a text.
    - The dashboard writes box-drawing characters and escape sequences, and
      measures a text after removing the sequences with a regular
      expression: its texts are lists of code units ([Dashboard.text]).
    - [String.prototype.repeat] throws a RangeError for a negative count;
      the functions that call it return an [option].
    - Number formats ([formatNumber], [toFixed]) are not modelled; a
      function that prints a number takes its text as given.
    - A request to the node is an input: its outcome for
      [getParsedTransaction], what it returned slot by slot for the block
      loops.  So is what the web3 library decides: whether its
      [PublicKey] constructor throws for a string, and with what error. *)

(** ** Text columns *)

(** The space character, code 32. *)
Definition space : Ascii.ascii := Ascii.ascii_of_nat 32.

(** [" ".repeat(n)] *)
Fixpoint spaces (n : nat) : string :=
  match n with
  | 0 => EmptyString
  | S n' => String space (spaces n')
  end.

(** The label column of the ranking table ([renderTopPrograms]):
    [prog.label.length > 28 ? prog.label.slice(0, 25) + "..." : prog.label].
    The [length] of an inherited member is the number of parameters of a
    function, at most 2, or [undefined]: never above 28. *)
Definition displayLabel (label : Label) : Label :=
  match label with
  | LabelText text =>
      LabelText (if 28 <? String.length text
                 then String.substring 0 25 text +:+ "..."%string
                 else text)
  | LabelInherited _ => label
  end.

(** The command-line table column ([padStr] of the CLI):
    [s.length >= width ? s.slice(0, width) : s + " ".repeat(width - s.length)]. *)
Definition padStr (s : string) (width : nat) : string :=
  if String.length s <? width
  then s +:+ spaces (width - String.length s)
  else String.substring 0 width s.

(** ** The data source, continued ([client.ts]) *)

(** One [programCounts.set(programId, (programCounts.get(programId) ?? 0) + 1)]. *)
Definition countInstruction (programCounts : JsMap) (programId : string) : JsMap :=
  map_set programId (default 0 (map_get programId programCounts) + 1) programCounts.

(** The loops of [getTopProgramsFromRecentBlocks]: [fetched] holds, slot by
    slot from the current one downwards, the parsed block the node
    returned as the list of its transactions, each the list of the program
    identifiers of its instructions; [None] for a slot that is unavailable
    or whose request failed (such a slot is skipped). *)
Definition topProgramsFromRecentBlocks (fetched : list (option (list (list string))))
    : JsMap :=
  foldl (fun programCounts block =>
           match block with
           | Some transactions =>
               foldl (fun programCounts instructions =>
                        foldl countInstruction programCounts instructions)
                     programCounts transactions
           | None => programCounts
           end)
        [] fetched.

(** The identifiers of all instructions of the fetched blocks, in order. *)
Definition instructionsOf (fetched : list (option (list (list string)))) : list string :=
  mjoin (mjoin <$> omap id fetched).

(** The number of instructions that invoke [programId]. *)
Definition occurrences (programId : string) (programIds : list string) : nat :=
  length (filter (fun x => x = programId) programIds).

(** [Promise.all(ps)] over an array: the array of values when every promise is
    fulfilled, otherwise the rejection of the first one to reject,
    [settled] listing the positions in the order they settle (a position
    that [settled] omits counts as settling last, in position order). *)
Fixpoint values_of {A} (ps : list (Outcome A)) : option (list A) :=
  match ps with
  | [] => Some []
  | Fulfilled v :: ps' => (fun vs => v :: vs) <$> values_of ps'
  | Rejected _ :: _ => None
  end.

(** The rejection at the lowest position. *)
Fixpoint first_rejected {A} (ps : list (Outcome A)) : option string :=
  match ps with
  | [] => None
  | Fulfilled _ :: ps' => first_rejected ps'
  | Rejected reason :: _ => Some reason
  end.

(** The rejection that settles first. *)
Fixpoint first_settled_rejection {A} (settled : list nat) (ps : list (Outcome A))
    : option string :=
  match settled with
  | [] => first_rejected ps
  | j :: rest =>
      match ps !! j with
      | Some (Rejected reason) => Some reason
      | _ => first_settled_rejection rest ps
      end
  end.

(** When some promise is rejected there is a first rejection, so that the
    default reason is never the answer. *)
Definition promise_all_list {A} (settled : list nat) (ps : list (Outcome A))
    : Outcome (list A) :=
  match values_of ps with
  | Some vs => Fulfilled vs
  | None => Rejected (default EmptyString (first_settled_rejection settled ps))
  end.

(** What [getSignaturesForAddress] lists for one transaction. *)
Record SignatureInfo := {
  sig_signature : string;
  sig_slot : Z;
  sig_blockTime : option Z;       (* number | null | undefined *)
  sig_err : option string         (* TransactionError | null *)
}.

(** The parts of a parsed transaction that [getProgramActivity] reads:
    the account keys in base 58, and of [meta] (which may be [null]) the
    fee in lamports and the inner instruction sets (which may be absent),
    each given by the instructions it holds. *)
Record TransactionMeta := {
  m_fee : nat;
  m_innerInstructions : option (list (list string))
}.

Record ParsedTransaction := {
  tx_accountKeys : list string;
  tx_meta : option TransactionMeta
}.

Record ProgramInvocation (R : Type) := {
  i_signature : string;
  i_programId : string;
  i_slot : Z;
  i_blockTime : option Z;
  i_fee : R;
  i_success : bool;
  i_accounts : list string;
  i_innerInstructions : nat
}.
Arguments i_signature {R}.
Arguments i_programId {R}.
Arguments i_slot {R}.
Arguments i_blockTime {R}.
Arguments i_fee {R}.
Arguments i_success {R}.
Arguments i_accounts {R}.
Arguments i_innerInstructions {R}.

(** [LAMPORTS_PER_SOL] of the web3 library. *)
Definition LAMPORTS_PER_SOL : Q := 1000000000.

Definition batchSize : nat := 10.

Section Activity.
Context {R : Type} `{JsNumber R}.

(** The record pushed for a signature whose transaction was found. *)
Definition invocationOf (programId : string) (sig : SignatureInfo)
    (tx : ParsedTransaction) : ProgramInvocation R :=
  {| i_signature := sig_signature sig;
     i_programId := programId;
     i_slot := sig_slot sig;
     i_blockTime := sig_blockTime sig;
     i_fee := ndiv (of_nat (match tx_meta tx with
                            | Some meta => m_fee meta
                            | None => 0
                            end))
                   (lit LAMPORTS_PER_SOL);
     i_success := match sig_err sig with None => true | Some _ => false end;
     i_accounts := tx_accountKeys tx;
     i_innerInstructions :=
       match tx_meta tx with
       | Some meta =>
           match m_innerInstructions meta with
           | Some inner => foldl (fun sum instructions => sum + length instructions) 0 inner
           | None => 0
           end
       | None => 0
       end |}.

(** The inner loop: [batch[j]] with [transactions[j]], a transaction the
    node does not know ([null]) being skipped. *)
Definition batchInvocations (programId : string) (batch : list SignatureInfo)
    (transactions : list (option ParsedTransaction)) : list (ProgramInvocation R) :=
  omap (fun '(sig, tx) => invocationOf programId sig <$> tx) (zip batch transactions).

(** The outer loop of [getProgramActivity] from index [i] on:
    [getParsedTransaction] gives the outcome of the request for a
    signature, [settled i] the order in which the requests of the batch
    that starts at [i] settle.  [None]: the fuel does not reach the end of
    the loop. *)
Fixpoint activityLoop (programId : string) (signatures : list SignatureInfo)
    (getParsedTransaction : string -> Outcome (option ParsedTransaction))
    (settled : nat -> list nat)
    (fuel : nat) (i : nat) (invocations : list (ProgramInvocation R))
    : option (Outcome (list (ProgramInvocation R))) :=
  if i <? length signatures then
    match fuel with
    | 0 => None
    | S fuel' =>
        let batch := take batchSize (drop i signatures) in
        let txPromises :=
          (fun sig => getParsedTransaction (sig_signature sig)) <$> batch in
        match promise_all_list (settled i) txPromises with
        | Rejected reason => Some (Rejected reason)
        | Fulfilled transactions =>
            activityLoop programId signatures getParsedTransaction settled fuel'
              (i + batchSize)
              (invocations ++ batchInvocations programId batch transactions)
        end
    end
  else Some (Fulfilled invocations).

(** [client.getProgramActivity(programId, limit)].  Its first statement is
    [new PublicKey(programId)]; the constructor belongs to the web3
    library and throws for a string that is no public key:
    [publicKeyError] gives the message of that error, [None] for a string
    the constructor accepts.  Thrown in an [async] function, the error
    rejects the call before any request is made.  [signatures] is the
    outcome of [getSignaturesForAddress]. *)
Definition getProgramActivity (publicKeyError : string -> option string)
    (programId : string)
    (signatures : Outcome (list SignatureInfo))
    (getParsedTransaction : string -> Outcome (option ParsedTransaction))
    (settled : nat -> list nat)
    : option (Outcome (list (ProgramInvocation R))) :=
  match publicKeyError programId with
  | Some message => Some (Rejected message)
  | None =>
      match signatures with
      | Rejected reason => Some (Rejected reason)
      | Fulfilled signatures =>
          activityLoop programId signatures getParsedTransaction settled
            (length signatures) 0 []
      end
  end.

End Activity.

(** A row of the table that the [analyze] command prints: five padded
    columns and the time. *)
Definition activityRow (sig slot fee status inner time : string) : string :=
  padStr sig 20 +:+ padStr slot 12 +:+ padStr fee 12 +:+ padStr status 10
  +:+ padStr inner 10 +:+ time.

(** ** The terminal dashboard *)

Module Dashboard.

(** A JavaScript string as the sequence of its UTF-16 code units; this is
    what [length], [repeat] and a regular expression without the [u] flag
    work on. *)
Abbreviation text := (list N).

(** The code units of a text of ASCII characters. *)
Definition units (s : string) : text :=
  Ascii.N_of_ascii <$> String.list_ascii_of_string s.

Definition ESC : N := 27.           (* "\x1b" *)
Definition blank : N := 32.         (* " " *)
Definition newline : N := 10.       (* "\n" *)
Definition light_horizontal : N := 9472.          (* U+2500 *)
Definition light_vertical : N := 9474.            (* U+2502 *)
Definition light_down_and_right : N := 9484.      (* U+250C *)
Definition light_down_and_left : N := 9488.       (* U+2510 *)
Definition light_up_and_right : N := 9492.        (* U+2514 *)
Definition light_up_and_left : N := 9496.         (* U+2518 *)

Inductive Color :=
  | reset | bold | dim | red | green | yellow | blue | magenta | cyan | white
  | bgBlue | bgRed | bgGreen | bgYellow.

Definition colors (color : Color) : text :=
  ESC :: units match color with
               | reset => "[0m"
               | bold => "[1m"
               | dim => "[2m"
               | red => "[31m"
               | green => "[32m"
               | yellow => "[33m"
               | blue => "[34m"
               | magenta => "[35m"
               | cyan => "[36m"
               | white => "[37m"
               | bgBlue => "[44m"
               | bgRed => "[41m"
               | bgGreen => "[42m"
               | bgYellow => "[43m"
               end%string.

Definition c (color : Color) (t : text) : text :=
  colors color ++ t ++ colors reset.

(** [[0-9;]] *)
Definition is_param (u : N) : bool :=
  ((48 <=? u) && (u <=? 57) || (u =? 59))%N.

(** [[0-9;]*], which is greedy: what is left after the longest run. *)
Fixpoint skip_params (s : text) : text :=
  match s with
  | u :: s' => if is_param u then skip_params s' else s
  | [] => []
  end.

(** A match of [/\x1b\[[0-9;]*m/] at the start of [s]: what follows it.
    The unit after the longest run of parameters has to be "m"; a shorter
    run cannot help, "m" being no parameter. *)
Definition match_escape (s : text) : option text :=
  match s with
  | e :: b :: s' =>
      if ((e =? 27) && (b =? 91))%N then
        match skip_params s' with
        | m :: rest => if (m =? 109)%N then Some rest else None
        | [] => None
        end
      else None
  | _ => None
  end.

(** [s.replace(pattern, empty)] for the pattern [/\x1b\[[0-9;]*m/g] and
    the empty replacement: from left to right, a match is
    dropped and the search goes on after it, a unit where none starts is
    kept.  The fuel bounds the number of steps. *)
Fixpoint strip (fuel : nat) (s : text) : text :=
  match fuel with
  | 0 => s
  | S fuel' =>
      match s with
      | [] => []
      | u :: s' =>
          match match_escape s with
          | Some rest => strip fuel' rest
          | None => u :: strip fuel' s'
          end
      end
  end.

Definition stripAnsi (s : text) : text := strip (length s) s.

(** The width of a text on the terminal, as [pad] and [boxLine] measure it. *)
Definition visibleWidth (s : text) : Z := Z.of_nat (length (stripAnsi s)).

(** [unit.repeat(count)]: a RangeError ([None]) for a negative count. *)
Definition repeat_unit (u : N) (count : Z) : option text :=
  if (count <? 0)%Z then None else Some (replicate (Z.to_nat count) u).

Inductive Align := AlignLeft | AlignRight.

Definition pad (t : text) (width : Z) (align : Align) : option text :=
  let stripped := stripAnsi t in
  let padding := Z.max 0 (width - Z.of_nat (length stripped)) in
  blanks ← repeat_unit blank padding;
  Some match align with
       | AlignRight => blanks ++ t
       | AlignLeft => t ++ blanks
       end.

Definition horizontalLine (width : Z) : option text :=
  line ← repeat_unit light_horizontal width;
  Some (c dim line).

Definition boxTop (title : text) (width : Z) : option text :=
  let titleLen := (Z.of_nat (length title) + 2)%Z in
  let remaining := (width - titleLen - 2)%Z in
  let left := (remaining / 2)%Z in          (* Math.floor(remaining / 2) *)
  let right := (remaining - left)%Z in
  before ← repeat_unit light_horizontal left;
  after ← repeat_unit light_horizontal right;
  Some (c dim (light_down_and_right :: before)
        ++ [blank] ++ c bold title ++ [blank]
        ++ c dim (after ++ [light_down_and_left])).

Definition boxBottom (width : Z) : option text :=
  line ← repeat_unit light_horizontal (width - 2);
  Some (c dim (light_up_and_right :: line ++ [light_up_and_left])).

Definition boxLine (content : text) (width : Z) : option text :=
  let stripped := stripAnsi content in
  let padding := Z.max 0 (width - 4 - Z.of_nat (length stripped)) in
  blanks ← repeat_unit blank padding;
  Some (c dim [light_vertical; blank] ++ content ++ blanks
        ++ c dim [blank; light_vertical]).

(** The colour of a category in the ranking table. *)
Definition categoryColor (category : string) : Color :=
  if String.eqb category "Core" then blue
  else if String.eqb category "Token" then green
  else if String.eqb category "DEX" then magenta
  else if String.eqb category "NFT" then yellow
  else if String.eqb category "DeFi" then cyan
  else white.

Section Render.
Context {R : Type}.
(** The two number formats of the ranking table, [formatNumber(count)] and
    [share.toFixed(1) + "%"], are taken as given, and so is the text that a
    template literal makes of an inherited member (for a function, its
    source text). *)
Context (formatNumber : nat → text) (shareText : R → text).
Context (memberText : string → text).

(** A label inside a template literal. *)
Definition labelText (label : Label) : text :=
  match label with
  | LabelText text => units text
  | LabelInherited name => memberText name
  end.

(** The text of one program's line. *)
Definition programRow (prog : ProgramRanking R) : option text :=
  let name := labelText (displayLabel (label prog)) in
  let countStr := formatNumber (invocationCount prog) in
  let shareStr := shareText (share prog) in
  let colorKey := categoryColor (category prog) in
  nameCell ← pad (c colorKey name) (30 + 9) AlignLeft;
  countCell ← pad countStr 14 AlignRight;
  shareCell ← pad shareStr 10 AlignRight;
  Some (nameCell ++ [blank] ++ countCell ++ [blank] ++ shareCell).

(** The lines of [renderTopPrograms], which it joins with newlines. *)
Definition topProgramsLines (programs : list (ProgramRanking R)) : option (list text) :=
  let w := 62%Z in
  top ← boxTop (units "Top Programs (Recent Blocks)") w;
  programCell ← pad (units "Program") 30 AlignLeft;
  invocationsCell ← pad (units "Invocations") 14 AlignRight;
  shareCell ← pad (units "Share") 10 AlignRight;
  header ← boxLine (programCell ++ [blank] ++ invocationsCell ++ [blank] ++ shareCell) w;
  rule ← horizontalLine (w - 4);
  ruleLine ← boxLine rule w;
  let top10 := take 10 programs in
  rows ← mapM (fun prog => row ← programRow prog; boxLine row w) top10;
  bottom ← boxBottom w;
  Some ([top; header; ruleLine] ++ rows ++ [bottom]).

(** [lines.join("\n")] *)
Fixpoint join_lines (lines : list text) : text :=
  match lines with
  | [] => []
  | [line] => line
  | line :: rest => line ++ [newline] ++ join_lines rest
  end.

Definition renderTopPrograms (programs : list (ProgramRanking R)) : option text :=
  join_lines <$> topProgramsLines programs.

End Render.

(** The colour and the icon of a severity in the anomaly box. *)
Definition severityColor (severity : Severity) : Color :=
  match severity with
  | high => red
  | medium => yellow
  | low => cyan
  end.

Definition severityIcon (severity : Severity) : text :=
  units match severity with
        | high => "!!!"
        | medium => " ! "
        | low => " i "
        end%string.

Definition em_dash : N := 8212.                   (* U+2014 *)

Section RenderAnomalies.
Context {R : Type}.
(** The message of an anomaly is taken as given. *)
Context (message : Anomaly R → text).

(** The line of one anomaly: its icon and the first 50 units of its
    message. *)
Definition anomalyLine (anomaly : Anomaly R) : option text :=
  let icon := severityIcon (a_severity anomaly) in
  let sColor := severityColor (a_severity anomaly) in
  boxLine (c sColor (units "[" ++ icon ++ units "]")
           ++ [blank] ++ take 50 (message anomaly)) 62.

(** The lines of [renderAnomalies], which it joins with newlines. *)
Definition anomaliesLines (anomalies : list (Anomaly R)) : option (list text) :=
  let w := 62%Z in
  top ← boxTop (units "Anomaly Detection") w;
  body ← (if length anomalies =? 0 then
            line ← boxLine (c green (units "No anomalies detected " ++ [em_dash]
                                     ++ units " network operating normally")) w;
            Some [line]
          else mapM anomalyLine (take 5 anomalies));
  bottom ← boxBottom w;
  Some ([top] ++ body ++ [bottom]).

Definition renderAnomalies (anomalies : list (Anomaly R)) : option text :=
  join_lines <$> anomaliesLines anomalies.

End RenderAnomalies.

End Dashboard.

(** A text that may follow another without completing an escape sequence
    that the other leaves open: it is empty, or starts with a unit that is
    neither "[", nor "m", nor a parameter. *)
Definition closed_start (t : Dashboard.text) : Prop :=
  match t with
  | [] => True
  | u :: _ => Dashboard.is_param u = false ∧ u ≠ 109%N ∧ u ≠ 91%N
  end.

(** A text without the escape character. *)
Definition plain (t : Dashboard.text) : Prop := Forall (fun u => u ≠ Dashboard.ESC) t.

(** The width of a program's line in the ranking table: 4 columns of
    frame, the name cell of 39 columns or more, the count and share cells
    and two blanks. *)
Definition programLineWidth {R} (formatNumber : nat → Dashboard.text)
    (shareText : R → Dashboard.text) (memberText : string → Dashboard.text)
    (prog : ProgramRanking R) : Z :=
  6 + Z.max 39 (Dashboard.visibleWidth
                  (Dashboard.labelText memberText (displayLabel (label prog))))
  + Z.max 14 (Dashboard.visibleWidth (formatNumber (invocationCount prog)))
  + Z.max 10 (Dashboard.visibleWidth (shareText (share prog))).

(** ** The REST API ([server.ts]) *)

(** What a handler sends: [res.json(body)], or
    [res.status(500).json({ error: err.message })]. *)
Inductive Response (A : Type) :=
  | Ok200 (body : A)
  | Error500 (error : string).
Arguments Ok200 {A}.
Arguments Error500 {A}.

Record AnomaliesBody (R : Type) := {
  b_anomalies : list (Anomaly R);
  b_baselineTps : option R
}.
Arguments b_anomalies {R}.
Arguments b_baselineTps {R}.

(** The body of [/api/programs/top]; a share is a text there. *)
Record TopProgramsBody := {
  t_blocksAnalyzed : option Z;            (* the parsed query value, NaN as None *)
  t_totalInvocations : nat;
  t_programs : list (ProgramRanking string)
}.

(** How many slots a loop [for (let i = 0; i < n; i++)] of the data source
    visits for [n = Math.min(numBlocks, 20)], [numBlocks] being what
    [parseInt] returned: an integer, or NaN ([None]). *)
Definition cappedBlocks (numBlocks : option Z) : nat :=
  match numBlocks with
  | Some n => Z.to_nat (Z.min n 20)
  | None => 0
  end.

Section Api.
Context {R : Type} `{JsNumber R}.
(** [x.toFixed(2)] is taken as given. *)
Context (toFixed2 : R → string).

(** GET /api/anomalies: [engine.takeSnapshot()], with its default of 5
    blocks, then [engine.getBaselineTps()]. *)
Definition apiAnomalies (st : Engine R) (client : SolanaClient R)
    (settled : list FetchId) (clock : Clock)
    : Response (AnomaliesBody R) * Engine R :=
  let call := {| c_client := client; c_numBlocks := 5;
                 c_settled := settled; c_clock := clock |} in
  match takeSnapshot st call with
  | (Fulfilled snapshot, st') =>
      (Ok200 {| b_anomalies := anomalies snapshot;
                b_baselineTps := getBaselineTps st' |}, st')
  | (Rejected reason, st') => (Error500 reason, st')
  end.

(** An entry of the ranking of [/api/programs/top]. *)
Definition apiRanking (total : nat) (entry : string * nat) : ProgramRanking string :=
  let '(programId, count) := entry in
  {| programId := programId;
     label := getProgramLabel programId;
     category := categorizeProgram programId;
     invocationCount := count;
     share := if 0 <? total
              then toFixed2 (nmul (ndiv (of_nat count) (of_nat total)) (lit 100))
                   +:+ "%"%string
              else "0%"%string |}.

(** GET /api/programs/top *)
Definition apiTopPrograms (numBlocks : option Z) (client : SolanaClient R)
    : Response TopProgramsBody :=
  match getTopProgramsFromRecentBlocks client (cappedBlocks numBlocks) with
  | Fulfilled programCounts =>
      let total := foldl (fun a b => a + b) 0 (map_values programCounts) in
      let ranked := take 20 (sort_ranked (apiRanking total <$> programCounts)) in
      Ok200 {| t_blocksAnalyzed := numBlocks;
               t_totalInvocations := total;
               t_programs := ranked |}
  | Rejected reason => Error500 reason
  end.

End Api.

(** A ranking entry without its share. *)
Definition entryOf {A} (r : ProgramRanking A) : string * Label * string * nat :=
  (programId r, label r, category r, invocationCount r).

(** ** The summary of the [analyze] command *)

Record ActivitySummary (R : Type) := {
  totalFees : R;
  activitySuccessRate : R;
  avgInner : R;
  uniqueAccounts : nat
}.
Arguments totalFees {R}.
Arguments activitySuccessRate {R}.
Arguments avgInner {R}.
Arguments uniqueAccounts {R}.

Section Analyze.
Context {R : Type} `{JsNumber R}.

(** The four figures printed after the table; [None] when the command
    returns before, the activity being empty. *)
Definition analyzeSummary (activity : list (ProgramInvocation R))
    : option (ActivitySummary R) :=
  if length activity =? 0 then None
  else
    Some {| totalFees := foldl (fun sum a => nadd sum (i_fee a)) (lit 0) activity;
            activitySuccessRate :=
              nmul (ndiv (of_nat (length (filter (fun a => i_success a = true) activity)))
                         (of_nat (length activity)))
                   (lit 100);
            avgInner :=
              ndiv (of_nat (foldl (fun sum a => sum + i_innerInstructions a) 0 activity))
                   (of_nat (length activity));
            uniqueAccounts :=
              size (list_to_set (C:=gset string) (activity ≫= i_accounts)) |}.

End Analyze.

(** * Facts *)

(** ** Promises and failure *)

Lemma first_rejection_sound {A B C} settled (p1 : Outcome A) (p2 : Outcome B)
    (p3 : Outcome C) reason :
  first_rejection settled p1 p2 p3 = Some reason →
  rejection p1 = Some reason ∨ rejection p2 = Some reason ∨ rejection p3 = Some reason.
Proof.
  induction settled as [|id rest IH]; simpl; [discriminate|].
  destruct id.
  - destruct (rejection p1) eqn:E; [intros [= ->]; auto | exact IH].
  - destruct (rejection p2) eqn:E; [intros [= ->]; auto | exact IH].
  - destruct (rejection p3) eqn:E; [intros [= ->]; auto | exact IH].
Qed.

Lemma promise_all_rejected {A B C} settled (p1 : Outcome A) (p2 : Outcome B)
    (p3 : Outcome C) :
  is_Some (rejection p1) ∨ is_Some (rejection p2) ∨ is_Some (rejection p3) →
  ∃ reason, promise_all settled p1 p2 p3 = Rejected reason
    ∧ (rejection p1 = Some reason ∨ rejection p2 = Some reason
       ∨ rejection p3 = Some reason).
Proof.
  intros Hfail. unfold promise_all.
  destruct (first_rejection settled p1 p2 p3) as [r|] eqn:E.
  - apply first_rejection_sound in E.
    exists r. destruct p1, p2, p3; simpl in *; try done;
      destruct Hfail as [[? [=]]|[[? [=]]|[? [=]]]].
  - destruct p1 as [a|e1]; [destruct p2 as [b|e2]; [destruct p3 as [c|e3]|]|]; simpl.
    + destruct Hfail as [[? [=]]|[[? [=]]|[? [=]]]].
    + exists e3; auto.
    + exists e2; auto.
    + exists e1; auto.
Qed.

Lemma promise_all_timing {A B C} id rest (p1 : Outcome A) (p2 : Outcome B)
    (p3 : Outcome C) reason :
  match id with
  | FetchStats => rejection p1
  | FetchBlocks => rejection p2
  | FetchCounts => rejection p3
  end = Some reason →
  promise_all (id :: rest) p1 p2 p3 = Rejected reason.
Proof.
  intros E. unfold promise_all. simpl. rewrite E. simpl.
  destruct id, p1, p2, p3; simpl in *; congruence.
Qed.

Lemma promise_all_fulfilled {A B C} settled (a : A) (b : B) (c : C) :
  promise_all settled (Fulfilled a) (Fulfilled b) (Fulfilled c) = Fulfilled (a, b, c).
Proof. done. Qed.

Lemma fails_or_completes {R} (call : Call R) : fails call ∨ completes call.
Proof.
  unfold fails, completes.
  destruct (getNetworkStats _), (getRecentBlockProduction _ _),
    (getTopProgramsFromRecentBlocks _ _); simpl; eauto 6.
Qed.

Lemma fails_not_completes {R} (call : Call R) : fails call → ¬ completes call.
Proof.
  unfold fails, completes. intros [[? E]|[[? E]|[? E]]] (E1 & E2 & E3); congruence.
Qed.

(** A call that completes returns the snapshot built from the three
    fetched values and installs the updated engine. *)
Lemma takeSnapshot_completes {R} `{JsNumber R} (st : Engine R) (call : Call R) :
  completes call →
  ∃ stats blocks programCounts,
    getNetworkStats (c_client call) = Fulfilled stats
    ∧ getRecentBlockProduction (c_client call) (c_numBlocks call) = Fulfilled blocks
    ∧ getTopProgramsFromRecentBlocks (c_client call) (c_numBlocks call)
      = Fulfilled programCounts
    ∧ takeSnapshot st call =
        (Fulfilled (snapshotOf st (c_clock call) stats blocks programCounts).1,
         (snapshotOf st (c_clock call) stats blocks programCounts).2).
Proof.
  unfold completes, takeSnapshot. intros (E1 & E2 & E3).
  destruct (getNetworkStats _) as [stats|]; [|done].
  destruct (getRecentBlockProduction _ _) as [blocks|]; [|done].
  destruct (getTopProgramsFromRecentBlocks _ _) as [programCounts|]; [|done].
  exists stats, blocks, programCounts. by rewrite promise_all_fulfilled.
Qed.

(** A fulfilled call returns the snapshot built from the three fetched
    values on the engine before the call. *)
Lemma takeSnapshot_fulfilled {R} `{JsNumber R} (st : Engine R) (call : Call R) snapshot :
  (takeSnapshot st call).1 = Fulfilled snapshot →
  ∃ stats blocks programCounts,
    getNetworkStats (c_client call) = Fulfilled stats
    ∧ getRecentBlockProduction (c_client call) (c_numBlocks call) = Fulfilled blocks
    ∧ getTopProgramsFromRecentBlocks (c_client call) (c_numBlocks call)
      = Fulfilled programCounts
    ∧ snapshot = (snapshotOf st (c_clock call) stats blocks programCounts).1.
Proof.
  unfold takeSnapshot.
  destruct (getNetworkStats _) as [stats|e1];
    destruct (getRecentBlockProduction _ _) as [blocks|e2];
    destruct (getTopProgramsFromRecentBlocks _ _) as [programCounts|e3];
    try (by intros [=]).
  rewrite promise_all_fulfilled. intros [= <-].
  by exists stats, blocks, programCounts.
Qed.

(** C1.  When at least one of the three fetches of a call is rejected,
    [takeSnapshot] is rejected as a whole: its outcome is a rejection
    whose reason is the reason of one of the rejected fetches, no snapshot
    is returned, and the engine (history, baseline, known identifiers) is
    the engine before the call. *)
Theorem takeSnapshot_fetch_failure {R} `{JsNumber R} (st : Engine R) (call : Call R) :
  fails call →
  ∃ reason,
    takeSnapshot st call = (Rejected reason, st)
    ∧ (rejection (getNetworkStats (c_client call)) = Some reason
       ∨ rejection (getRecentBlockProduction (c_client call) (c_numBlocks call)) = Some reason
       ∨ rejection (getTopProgramsFromRecentBlocks (c_client call) (c_numBlocks call))
         = Some reason).
Proof.
  intros Hfail.
  destruct (promise_all_rejected (c_settled call) _ _ _ Hfail) as (reason & Hall & Hwho).
  exists reason. split; [|exact Hwho].
  unfold takeSnapshot. by rewrite Hall.
Qed.

(** The failing fetch that settles first gives the reason. *)
Lemma takeSnapshot_first_failure {R} `{JsNumber R} (st : Engine R) (call : Call R)
    id rest reason :
  c_settled call = id :: rest →
  match id with
  | FetchStats => rejection (getNetworkStats (c_client call))
  | FetchBlocks =>
      rejection (getRecentBlockProduction (c_client call) (c_numBlocks call))
  | FetchCounts =>
      rejection (getTopProgramsFromRecentBlocks (c_client call) (c_numBlocks call))
  end = Some reason →
  takeSnapshot st call = (Rejected reason, st).
Proof.
  intros Hs Hr. unfold takeSnapshot. rewrite Hs.
  by rewrite (promise_all_timing id rest _ _ _ reason Hr).
Qed.

(** ** Snapshot aggregator *)

Lemma foldl_add_sum_list {A} (f : A → nat) (l : list A) (a : nat) :
  foldl (fun sum b => sum + f b) a l = a + sum_list (f <$> l).
Proof.
  revert a. induction l as [|x l IH]; intros a; csimpl; [lia|].
  rewrite IH. lia.
Qed.

Lemma sum_by_sum_list {A} (f : A → nat) (l : list A) :
  sum_by f l = sum_list (f <$> l).
Proof. unfold sum_by. by rewrite foldl_add_sum_list. Qed.

Lemma sum_successful_le (blocks : list BlockProduction) :
  Forall block_wf blocks →
  sum_list (numSuccessful <$> blocks) <= sum_list (numTransactions <$> blocks).
Proof.
  induction 1 as [|b l Hb _ IH]; csimpl; [lia|].
  unfold block_wf in Hb. lia.
Qed.

Lemma blockProductionOf_wf targetSlot metas time :
  block_wf (blockProductionOf targetSlot metas time).
Proof. unfold block_wf. simpl. lia. Qed.

Lemma Qnat_le (a b : nat) : a <= b → (Qnat a <= Qnat b)%Q.
Proof. intros. unfold Qnat. rewrite <- Zle_Qle. lia. Qed.

Lemma Qnat_pos (a : nat) : 0 < a → (0 < Qnat a)%Q.
Proof. intros. unfold Qnat. change 0%Q with (inject_Z 0). rewrite <- Zlt_Qlt. lia. Qed.

Lemma Qnat_nonneg (a : nat) : (0 <= Qnat a)%Q.
Proof. unfold Qnat. change 0%Q with (inject_Z 0). rewrite <- Zle_Qle. lia. Qed.

Lemma recentBlockProduction_wf currentSlot fetched :
  Forall block_wf (recentBlockProduction currentSlot fetched).
Proof.
  unfold recentBlockProduction. apply Forall_forall. intros b Hb.
  apply list_elem_of_omap in Hb as (o & Ho & Hb). simpl in Hb. subst o.
  apply list_elem_of_lookup in Ho as (i & Hi).
  rewrite list_lookup_imap in Hi.
  destruct (fetched !! i) as [[[metas time]|]|]; simpl in Hi; try done.
  injection Hi as <-. apply blockProductionOf_wf.
Qed.

(** A part of a positive whole, as a percentage. *)
Lemma percentage_range (part whole : nat) :
  part <= whole → 0 < whole →
  (0 <= Qnat part / Qnat whole * 100 ∧ Qnat part / Qnat whole * 100 <= 100)%Q.
Proof.
  intros Hle Hpos.
  pose proof (Qnat_le _ _ Hle) as Hq.
  pose proof (Qnat_pos _ Hpos) as Hw.
  pose proof (Qnat_nonneg part) as Hp.
  assert (0 <= Qnat part / Qnat whole)%Q as H0.
  { apply Qle_shift_div_l; [done|]. lra. }
  assert (Qnat part / Qnat whole <= 1)%Q as H1.
  { apply Qle_shift_div_r; [done|]. lra. }
  split; lra.
Qed.

(** C2.  On the empty sequence the aggregator returns the all-zero
    summary.  On a non-empty sequence [blocksAnalyzed] is the length,
    [totalTransactions] the sum of the per-block transaction counts,
    [successRate] the quotient of the two sums times 100 (0 when the total
    is 0), [avgTxPerBlock] the total divided by the number of blocks and
    [avgFeePerTx] is 0; this holds in every arithmetic, binary64 included.
    In exact arithmetic, for block records whose successful transactions
    are among their transactions, the success rate lies in [0,100]; the
    records that [getRecentBlockProduction] builds are such records, so
    the rate computed from any answer of the data source lies in
    [0,100]. *)
Theorem summarizeBlocks_spec :
  (∀ (R : Type) (N : JsNumber R),
     summarizeBlocks (R:=R) [] =
       {| blocksAnalyzed := 0; totalTransactions := 0; successRate := lit 0;
          avgTxPerBlock := lit 0; avgFeePerTx := lit 0 |})
  ∧ (∀ (R : Type) (N : JsNumber R) (blocks : list BlockProduction),
       blocks ≠ [] →
       let s := summarizeBlocks (R:=R) blocks in
       let total := sum_list (numTransactions <$> blocks) in
       let successful := sum_list (numSuccessful <$> blocks) in
       blocksAnalyzed s = length blocks
       ∧ totalTransactions s = total
       ∧ successRate s =
           (if 0 <? total then nmul (ndiv (of_nat successful) (of_nat total)) (lit 100)
            else lit 0)
       ∧ avgTxPerBlock s = ndiv (of_nat total) (of_nat (length blocks))
       ∧ avgFeePerTx s = lit 0)
  ∧ (∀ blocks : list BlockProduction,
       blocks ≠ [] → Forall block_wf blocks →
       let s := summarizeBlocks (R:=Q) blocks in
       let total := sum_list (numTransactions <$> blocks) in
       let successful := sum_list (numSuccessful <$> blocks) in
       (0 < total → (successRate s == Qnat successful / Qnat total * 100)%Q)
       ∧ (total = 0 → (successRate s == 0)%Q)
       ∧ (0 <= successRate s)%Q ∧ (successRate s <= 100)%Q
       ∧ (avgTxPerBlock s == Qnat total / Qnat (length blocks))%Q
       ∧ (avgFeePerTx s == 0)%Q)
  ∧ (∀ currentSlot fetched,
       let s := summarizeBlocks (R:=Q) (recentBlockProduction currentSlot fetched) in
       (0 <= successRate s)%Q ∧ (successRate s <= 100)%Q).
Proof.
  assert (∀ blocks : list BlockProduction,
    Forall block_wf blocks →
    (0 <= successRate (summarizeBlocks (R:=Q) blocks))%Q
    ∧ (successRate (summarizeBlocks (R:=Q) blocks) <= 100)%Q) as Hrange.
  { intros blocks Hwf. unfold summarizeBlocks.
    destruct blocks as [|b l]; [by vm_compute|].
    cbn [length Nat.eqb successRate]. rewrite !sum_by_sum_list.
    pose proof (sum_successful_le _ Hwf) as Hle.
    destruct (Nat.ltb_spec 0 (sum_list (numTransactions <$> b :: l))) as [Hpos|Hz];
      [|by vm_compute].
    apply (percentage_range _ _ Hle Hpos). }
  split; [done|]. split; [|split;
    [|intros currentSlot fetched; apply Hrange, recentBlockProduction_wf]].
  - intros R N blocks Hne. unfold summarizeBlocks.
    destruct blocks as [|b l]; [done|].
    cbn [length Nat.eqb].
    rewrite !sum_by_sum_list. done.
  - intros blocks Hne Hwf. unfold summarizeBlocks.
    destruct blocks as [|b l]; [done|].
    cbn [length Nat.eqb]. rewrite !sum_by_sum_list.
    cbn [successRate avgTxPerBlock avgFeePerTx]. cbv zeta.
    pose proof (sum_successful_le _ Hwf) as Hle.
    set (total := sum_list (numTransactions <$> b :: l)) in *.
    set (successful := sum_list (numSuccessful <$> b :: l)) in *.
    destruct (Nat.ltb_spec 0 total) as [Hpos|Hz].
    + destruct (percentage_range successful total Hle Hpos) as [Hlo Hhi].
      repeat split; try done; try lia.
    + repeat split; try done; try lia.
Qed.

(** ** Ranking function *)

Section Ranking.
Context {R : Type} `{JsNumber R}.
Implicit Types (x y : ProgramRanking R) (l : list (ProgramRanking R)).

Lemma insert_ranked_perm x l : insert_ranked x l ≡ₚ x :: l.
Proof.
  induction l as [|y l IH]; simpl; [done|].
  destruct (invocationCount x <? invocationCount y); [|done].
  rewrite IH. apply Permutation_swap.
Qed.

Lemma sort_ranked_perm l : sort_ranked l ≡ₚ l.
Proof.
  induction l as [|x l IH]; simpl; [done|].
  rewrite insert_ranked_perm. by f_equiv.
Qed.

Lemma insert_ranked_sorted x l :
  StronglySorted count_ge l → StronglySorted count_ge (insert_ranked x l).
Proof.
  induction 1 as [|y l Hl IH Hy]; simpl.
  - repeat constructor.
  - destruct (Nat.ltb_spec (invocationCount x) (invocationCount y)) as [Hlt|Hge].
    + constructor; [done|].
      apply Forall_forall. intros z Hz.
      rewrite insert_ranked_perm in Hz.
      apply elem_of_cons in Hz as [->|Hz]; [unfold count_ge; lia|].
      by eapply Forall_forall in Hy.
    + constructor; [by constructor|].
      constructor; [done|].
      eapply Forall_impl; [exact Hy|].
      unfold count_ge. intros; simpl in *; lia.
Qed.

Lemma sort_ranked_sorted l : StronglySorted count_ge (sort_ranked l).
Proof.
  induction l as [|x l IH]; simpl; [constructor|].
  by apply insert_ranked_sorted.
Qed.

(** Entries with equal counts keep the order of the map: together with
    [sort_ranked_sorted] and [sort_ranked_perm] this determines the
    result of a stable sort. *)
Lemma insert_ranked_stable c x l :
  filter (fun y => invocationCount y = c) (insert_ranked x l)
  = filter (fun y => invocationCount y = c) (x :: l).
Proof.
  induction l as [|y l IH]; simpl; [done|].
  destruct (Nat.ltb_spec (invocationCount x) (invocationCount y)) as [Hlt|Hge];
    [|done].
  rewrite (filter_cons _ y), IH, !(filter_cons _ x), (filter_cons _ y).
  destruct (decide (invocationCount x = c)), (decide (invocationCount y = c));
    try done; lia.
Qed.

Lemma sort_ranked_stable c l :
  filter (fun y => invocationCount y = c) (sort_ranked l)
  = filter (fun y => invocationCount y = c) l.
Proof.
  induction l as [|x l IH]; simpl; [done|].
  by rewrite insert_ranked_stable, !filter_cons, IH.
Qed.

Lemma StronglySorted_descending l : StronglySorted count_ge l → descending l.
Proof.
  induction 1 as [|a l Hl IH Ha]; intros i j x y Hij Hi Hj.
  - by rewrite lookup_nil in Hi.
  - destruct j as [|j]; [lia|]. simpl in Hj.
    destruct i as [|i]; simpl in Hi.
    + injection Hi as <-.
      eapply Forall_forall in Ha; [exact Ha|]. by eapply list_elem_of_lookup_2.
    + eapply (IH i j); [lia|done..].
Qed.

Lemma descending_take n l : descending l → descending (take n l).
Proof.
  intros Hl i j x y Hij Hi Hj.
  apply lookup_take_Some in Hi as [Hi _].
  apply lookup_take_Some in Hj as [Hj _].
  by eapply Hl.
Qed.

Lemma rankPrograms_descending (programCounts : JsMap) :
  descending (rankPrograms (R:=R) programCounts).
Proof.
  unfold rankPrograms. apply descending_take, StronglySorted_descending,
    sort_ranked_sorted.
Qed.

Lemma rankPrograms_elem (programCounts : JsMap) r :
  r ∈ rankPrograms (R:=R) programCounts →
  ∃ entry, entry ∈ programCounts
    ∧ r = ranking_of (sum_list (map_values programCounts)) entry.
Proof.
  unfold rankPrograms. intros Hr.
  apply elem_of_take in Hr as (i & Hr & _).
  apply list_elem_of_lookup_2 in Hr.
  rewrite sort_ranked_perm in Hr.
  apply list_elem_of_fmap in Hr as (entry & -> & Hentry).
  exists entry. split; [done|].
  by rewrite (foldl_add_sum_list id), list_fmap_id.
Qed.
End Ranking.

(** *** Shares in exact arithmetic *)

Lemma Qnat_add (a b : nat) : (Qnat (a + b) == Qnat a + Qnat b)%Q.
Proof. unfold Qnat. by rewrite Nat2Z.inj_add, inject_Z_plus. Qed.

Lemma sum_shares_cons x l : sum_shares (x :: l) = (share x + sum_shares l)%Q.
Proof. done. Qed.

Lemma sum_shares_perm l l' : l ≡ₚ l' → (sum_shares l == sum_shares l')%Q.
Proof.
  induction 1 as [|x l l' _ IH|x y l|l l' l'' _ IH1 _ IH2];
    rewrite ?sum_shares_cons.
  - reflexivity.
  - by rewrite IH.
  - ring.
  - by rewrite IH1.
Qed.

Lemma share_ranking_of total entry :
  share (ranking_of (R:=Q) total entry) =
    if 0 <? total then (Qnat entry.2 / Qnat total * 100)%Q else 0%Q.
Proof. by destruct entry. Qed.

Lemma sum_shares_ranking total (programCounts : JsMap) :
  0 < total →
  (sum_shares (ranking_of total <$> programCounts)
   == Qnat (sum_list (map_values programCounts)) / Qnat total * 100)%Q.
Proof.
  intros Hpos. pose proof (Qnat_pos _ Hpos) as HT.
  assert (¬ (Qnat total == 0)%Q) as Hnz by lra.
  induction programCounts as [|entry m IH]; csimpl.
  - unfold sum_shares, Qnat. simpl. field. exact Hnz.
  - rewrite sum_shares_cons, IH, share_ranking_of.
    destruct (Nat.ltb_spec 0 total); [|lia].
    rewrite Qnat_add. field. exact Hnz.
Qed.

Lemma sum_shares_zero_total (programCounts : JsMap) :
  (sum_shares (ranking_of 0 <$> programCounts) == 0)%Q.
Proof.
  induction programCounts as [|entry m IH]; csimpl; [reflexivity|].
  rewrite sum_shares_cons, IH, share_ranking_of. simpl. lra.
Qed.

Lemma share_nonneg total entry : (0 <= share (ranking_of (R:=Q) total entry))%Q.
Proof.
  rewrite share_ranking_of. destruct (Nat.ltb_spec 0 total) as [Hpos|]; [|lra].
  pose proof (Qnat_pos _ Hpos). pose proof (Qnat_nonneg entry.2).
  assert (0 <= Qnat entry.2 / Qnat total)%Q.
  { apply Qle_shift_div_l; [done|]. lra. }
  lra.
Qed.

Lemma sum_shares_nonneg l :
  Forall (fun r => (0 <= share r)%Q) l → (0 <= sum_shares l)%Q.
Proof.
  induction 1 as [|x l Hx _ IH]; [unfold sum_shares; simpl; lra|].
  rewrite sum_shares_cons. lra.
Qed.

Lemma sum_shares_take n l :
  Forall (fun r => (0 <= share r)%Q) l → (sum_shares (take n l) <= sum_shares l)%Q.
Proof.
  intros Hl. revert n. induction Hl as [|x l Hx Hl IH]; intros [|n]; simpl;
    try lra.
  - rewrite sum_shares_cons. pose proof (sum_shares_nonneg l Hl).
    change (sum_shares []) with 0%Q. lra.
  - rewrite !sum_shares_cons. specialize (IH n). lra.
Qed.

Lemma sorted_shares_nonneg total (programCounts : JsMap) :
  Forall (fun r => (0 <= share r)%Q) (sort_ranked (ranking_of (R:=Q) total <$> programCounts)).
Proof.
  rewrite sort_ranked_perm. apply Forall_fmap, Forall_forall.
  intros entry _. apply share_nonneg.
Qed.

Lemma sum_shares_rankPrograms_le (programCounts : JsMap) :
  (sum_shares (rankPrograms programCounts)
   <= sum_shares (ranking_of (sum_list (map_values programCounts)) <$> programCounts))%Q.
Proof.
  unfold rankPrograms. rewrite (foldl_add_sum_list id), list_fmap_id. simpl.
  eapply Qle_trans; [apply sum_shares_take, sorted_shares_nonneg|].
  rewrite (sum_shares_perm _ _ (sort_ranked_perm _)). apply Qle_refl.
Qed.

Lemma sum_shares_rankPrograms_all (programCounts : JsMap) :
  length programCounts <= 20 →
  (sum_shares (rankPrograms programCounts)
   == sum_shares (ranking_of (sum_list (map_values programCounts)) <$> programCounts))%Q.
Proof.
  intros Hlen. unfold rankPrograms. rewrite (foldl_add_sum_list id), list_fmap_id. simpl.
  rewrite take_ge.
  - apply sum_shares_perm, sort_ranked_perm.
  - by rewrite sort_ranked_perm, length_fmap.
Qed.

Lemma sum_shares_total (programCounts : JsMap) :
  let total := sum_list (map_values programCounts) in
  (sum_shares (ranking_of total <$> programCounts) == if 0 <? total then 100 else 0)%Q.
Proof.
  intros total. destruct (Nat.ltb_spec 0 total) as [Hpos|Hz].
  - rewrite sum_shares_ranking by done. fold total.
    pose proof (Qnat_pos _ Hpos). field. lra.
  - replace total with 0 by lia. apply sum_shares_zero_total.
Qed.

(** C3, as the code has it.  For every invocation-count map and every
    arithmetic (binary64 included) the ranking is the top 20 of the map's
    entries in descending order of invocation count: it has
    [min 20 n] entries for a map of [n], it is the front of a descending,
    order-preserving arrangement of all entries, and each entry carries
    the count of one entry of the map with the share
    [count / total * 100], or 0 when the total is 0.  In exact arithmetic,
    which is what "up to rounding" refers to, the returned shares sum to
    100 when the map has at most 20 entries and a positive total, to 0
    when the total is 0, and to at most 100 when the map has more than 20
    entries. *)
Theorem rankPrograms_spec :
  (∀ (R : Type) (N : JsNumber R) (programCounts : JsMap),
     let total := sum_list (map_values programCounts) in
     let entries := ranking_of (R:=R) total <$> programCounts in
     descending (rankPrograms (R:=R) programCounts)
     ∧ length (rankPrograms (R:=R) programCounts) = Nat.min 20 (length programCounts)
     ∧ (∃ rest,
          rankPrograms programCounts ++ rest ≡ₚ entries
          ∧ descending (rankPrograms programCounts ++ rest)
          ∧ ∀ c, filter (fun r => invocationCount r = c)
                   (rankPrograms programCounts ++ rest)
                 = filter (fun r => invocationCount r = c) entries)
     ∧ ∀ r, r ∈ rankPrograms (R:=R) programCounts →
         (programId r, invocationCount r) ∈ programCounts
         ∧ share r =
             if 0 <? total
             then nmul (ndiv (of_nat (invocationCount r)) (of_nat total)) (lit 100)
             else lit 0)
  ∧ (∀ programCounts : JsMap,
       let total := sum_list (map_values programCounts) in
       (length programCounts <= 20 → 0 < total →
          (sum_shares (rankPrograms programCounts) == 100)%Q)
       ∧ (total = 0 → (sum_shares (rankPrograms programCounts) == 0)%Q)
       ∧ (20 < length programCounts →
            (sum_shares (rankPrograms programCounts) <= 100)%Q)).
Proof.
  split.
  - intros R N programCounts total entries.
    split; [apply rankPrograms_descending|]. split; [|split].
    + unfold rankPrograms.
      by rewrite length_take, (Permutation_length (sort_ranked_perm _)), length_fmap.
    + exists (drop 20 (sort_ranked entries)).
      assert (rankPrograms programCounts ++ drop 20 (sort_ranked entries)
              = sort_ranked entries) as ->.
      { unfold rankPrograms. rewrite (foldl_add_sum_list id), list_fmap_id.
        apply take_drop. }
      split; [apply sort_ranked_perm|].
      split; [apply StronglySorted_descending, sort_ranked_sorted|].
      intros c. apply sort_ranked_stable.
    + intros r Hr. apply rankPrograms_elem in Hr as ([programId count] & Hin & ->).
      by split.
  - intros programCounts total.
    pose proof (sum_shares_total programCounts) as Hsum. cbv zeta in Hsum.
    fold total in Hsum.
    pose proof (sum_shares_rankPrograms_le programCounts) as Hle. fold total in Hle.
    repeat split.
    + intros Hlen Hpos. rewrite sum_shares_rankPrograms_all by done. fold total.
      rewrite Hsum. by destruct (Nat.ltb_spec 0 total); [|lia].
    + intros Hz.
      assert (length programCounts <= 20 ∨ 20 < length programCounts) as [Hlen|Hlen]
        by lia.
      * rewrite sum_shares_rankPrograms_all by done. fold total.
        rewrite Hsum. by destruct (Nat.ltb_spec 0 total); [lia|].
      * apply Qle_antisym.
        -- eapply Qle_trans; [exact Hle|]. rewrite Hsum.
           destruct (Nat.ltb_spec 0 total); [lia|]. apply Qle_refl.
        -- apply sum_shares_nonneg. unfold rankPrograms.
           apply Forall_take. rewrite (foldl_add_sum_list id), list_fmap_id.
           apply sorted_shares_nonneg.
    + intros _. eapply Qle_trans; [exact Hle|]. rewrite Hsum.
      destruct (0 <? total); lra.
Qed.

(** C3 as stated fails on the empty map: it has at most 20 entries, and
    the shares of its (empty) ranking sum to 0, not to 100, in exact
    arithmetic and in binary64 alike. *)
Lemma rankPrograms_empty_map_shares :
  length ([] : JsMap) <= 20
  ∧ rankPrograms (R:=Q) [] = []
  ∧ rankPrograms (R:=float) [] = []
  ∧ ¬ (sum_shares (rankPrograms []) == 100)%Q.
Proof.
  split; [simpl; lia|]. split; [done|]. split; [done|].
  vm_compute. discriminate.
Qed.

(** Rounding.  The shares that binary64 computes need not add up to 100
    exactly: eleven programs with one invocation each have eleven shares
    of 9.090909090909092, which add up to 100.00000000000001 (the double
    next above 100). *)
Example rankPrograms_binary64_sum :
  sum_shares_binary64
    (rankPrograms ((fun i => (String (Ascii.ascii_of_nat (65 + i)) EmptyString, 1))
                     <$> seq 0 11))
  = 0x1.9000000000001p+6%float.
Proof. by vm_compute. Qed.

(** ** State update: baseline, history ring, known identifiers *)

Section StateUpdate.
Context {R : Type} `{JsNumber R}.
Implicit Types (st : Engine R) (call : Call R) (calls : list (Call R)).

Lemma takeSnapshot_fails st call : fails call → (takeSnapshot st call).2 = st.
Proof.
  intros Hf.
  destruct (promise_all_rejected (c_settled call) _ _ _ Hf) as (reason & Hall & _).
  unfold takeSnapshot. by rewrite Hall.
Qed.

Lemma callPoint_fails call : fails call → callPoint call = None.
Proof.
  unfold fails, callPoint. intros Hf.
  destruct (getNetworkStats _), (getRecentBlockProduction _ _),
    (getTopProgramsFromRecentBlocks _ _); simpl in *; try done.
  destruct Hf as [[? [=]]|[[? [=]]|[? [=]]]].
Qed.

Lemma callPoint_completes call : completes call → is_Some (callPoint call).
Proof.
  unfold completes, callPoint. intros (E1 & E2 & E3).
  destruct (getNetworkStats _), (getRecentBlockProduction _ _),
    (getTopProgramsFromRecentBlocks _ _); simpl in *; try done.
Qed.

(** The engine after one call, field by field. *)
Lemma takeSnapshot_state st call :
  match callPoint call with
  | None => (takeSnapshot st call).2 = st
  | Some p =>
      history (takeSnapshot st call).2 = pushHistory (history st) p
      ∧ baselineTps (takeSnapshot st call).2 = updateBaseline (baselineTps st) (h_tps p)
      ∧ knownPrograms (takeSnapshot st call).2
        = trackPrograms (knownPrograms st) (h_programCounts p)
  end.
Proof.
  destruct (fails_or_completes call) as [Hf|Hc].
  - rewrite (callPoint_fails _ Hf). by apply takeSnapshot_fails.
  - destruct (takeSnapshot_completes st call Hc)
      as (stats & blocks & programCounts & E1 & E2 & E3 & ->).
    unfold callPoint. rewrite E1, E2, E3. done.
Qed.

Lemma run_app st calls calls' : run st (calls ++ calls') = run (run st calls) calls'.
Proof. revert st. induction calls as [|c calls IH]; intros st; simpl; [done|]. apply IH. Qed.

(** *** Baseline tracker *)

Lemma baseline_step st call :
  baselineTps (takeSnapshot st call).2 =
    match callPoint call with
    | None => baselineTps st
    | Some p => updateBaseline (baselineTps st) (h_tps p)
    end.
Proof.
  pose proof (takeSnapshot_state st call) as Hs.
  destruct (callPoint call); [by destruct Hs as (_ & -> & _)|by rewrite Hs].
Qed.

Lemma baseline_stays st calls :
  is_Some (baselineTps st) → is_Some (baselineTps (run st calls)).
Proof.
  revert st. induction calls as [|c calls IH]; intros st Hb; simpl; [done|].
  apply IH. rewrite baseline_step.
  destruct (callPoint c); [|done].
  destruct Hb as [b ->]. simpl. eauto.
Qed.

(** *** History ring *)

Lemma tail_drop_1 {A} (l : list A) : tail l = drop 1 l.
Proof. by destruct l. Qed.

Lemma pushHistory_slice_last (pts : list (HistoricalDataPoint R)) p :
  pushHistory (slice_last maxHistoryLength pts) p
  = slice_last maxHistoryLength (pts ++ [p]).
Proof.
  unfold pushHistory, slice_last, maxHistoryLength.
  rewrite !length_app, length_drop. simpl.
  destruct (Nat.ltb_spec 100 (length pts - (length pts - 100) + 1)) as [Hgt|Hle].
  - replace (length pts + 1 - 100) with (S (length pts - 100)) by lia.
    rewrite <- drop_app_le by lia.
    rewrite tail_drop_1, drop_drop. f_equal. lia.
  - replace (length pts - 100) with 0 by lia.
    replace (length pts + 1 - 100) with 0 by lia. by rewrite !drop_0.
Qed.

Lemma history_run st calls (pts : list (HistoricalDataPoint R)) :
  history st = slice_last maxHistoryLength pts →
  history (run st calls) = slice_last maxHistoryLength (pts ++ omap callPoint calls).
Proof.
  revert st pts. induction calls as [|c calls IH]; intros st pts Hst; simpl.
  - by rewrite app_nil_r.
  - pose proof (takeSnapshot_state st c) as Hs.
    destruct (callPoint c) as [p|].
    + destruct Hs as (Hh & _ & _).
      rewrite (IH _ (pts ++ [p])); [by rewrite <- app_assoc|].
      by rewrite Hh, Hst, pushHistory_slice_last.
    + rewrite Hs. by apply IH.
Qed.

Lemma omap_callPoint_completes calls :
  Forall completes calls → length (omap callPoint calls) = length calls.
Proof.
  induction 1 as [|c calls Hc _ IH]; simpl; [done|].
  destruct (callPoint_completes c Hc) as [p ->]. simpl. by f_equal.
Qed.
End StateUpdate.

(** C4.  A completed call on an engine without a baseline sets the
    baseline to the observed throughput; on an engine with baseline [b] it
    sets it to [b * 0.9 + observed * 0.1], in every arithmetic.  From
    baseline 100 and observed 200 the result is 110, in binary64 and in
    exact arithmetic; from no baseline and observed 50 it is 50.  A
    baseline that is set stays set over every further sequence of calls,
    failed ones included. *)
Theorem baseline_tracker :
  (∀ (R : Type) (N : JsNumber R) (st : Engine R) (call : Call R) stats,
     completes call → getNetworkStats (c_client call) = Fulfilled stats →
     baselineTps (takeSnapshot st call).2 =
       match baselineTps st with
       | None => Some (tps stats)
       | Some b => Some (nadd (nmul b (lit 0.9)) (nmul (tps stats) (lit 0.1)))
       end)
  ∧ (∀ (R : Type) (N : JsNumber R), baselineTps (newEngine (R:=R)) = None)
  ∧ updateBaseline (R:=float) (Some (lit 100)) (lit 200) = Some (lit 110)
  ∧ updateBaseline (R:=float) None (lit 50) = Some (lit 50)
  ∧ (∃ b, updateBaseline (R:=Q) (Some 100%Q) 200%Q = Some b ∧ (b == 110)%Q)
  ∧ (∀ (R : Type) (N : JsNumber R) (st : Engine R) (calls : list (Call R)),
       is_Some (baselineTps st) → is_Some (baselineTps (run st calls))).
Proof.
  split; [|split; [done|split; [by vm_compute|split; [by vm_compute|split]]]].
  - intros R N st call stats Hc Hstats. rewrite baseline_step.
    destruct (takeSnapshot_completes st call Hc)
      as (stats' & blocks & programCounts & E1 & E2 & E3 & _).
    unfold callPoint. rewrite E1, E2, E3.
    assert (stats' = stats) as -> by congruence.
    by destruct (baselineTps st).
  - eexists. split; [done|]. by vm_compute.
  - intros R N st calls. apply baseline_stays.
Qed.

Lemma baseline_tracker_witness :
  baselineTps
    (takeSnapshot {| history := []; knownPrograms := ∅; baselineTps := Some (lit 100) |}
       (callOf (R:=float) (statsOf (lit 200)) [] [] (clockAt 0))).2
  = Some (lit 110).
Proof.
  rewrite (proj1 baseline_tracker float _ _ _ (statsOf (lit 200)));
    [by vm_compute| |done].
  by repeat split.
Defined.

(** C5.  After every sequence of completed calls on a new engine the
    history holds exactly the entries of the most recent 100 calls, in
    call order: one entry per call, at most 100 entries, the oldest ones
    dropped.  A single completed call appends its entry at the end and,
    when the history already holds 100 entries, drops the first one. *)
Theorem history_ring (R : Type) (N : JsNumber R) (calls : list (Call R)) :
  Forall completes calls →
  let st := run newEngine calls in
  length (omap callPoint calls) = length calls
  ∧ history st = slice_last 100 (omap callPoint calls)
  ∧ length (history st) = min (length calls) 100
  ∧ length (history st) <= 100
  ∧ ∀ call p, callPoint call = Some p →
      history (takeSnapshot st call).2 =
        if length (history st) <? 100 then history st ++ [p]
        else drop 1 (history st) ++ [p].
Proof.
  intros Hc st.
  pose proof (omap_callPoint_completes calls Hc) as Hlen.
  assert (history st = slice_last 100 (omap callPoint calls)) as Hh.
  { subst st. by rewrite (history_run newEngine calls []). }
  assert (length (history st) = min (length calls) 100) as Hl.
  { rewrite Hh. unfold slice_last. rewrite length_drop, Hlen. lia. }
  repeat split; [done..|lia|].
  intros call p Hp. pose proof (takeSnapshot_state st call) as Hs.
  rewrite Hp in Hs. destruct Hs as (-> & _).
  unfold pushHistory, maxHistoryLength. rewrite length_app. simpl.
  destruct (Nat.ltb_spec 100 (length (history st) + 1)),
    (Nat.ltb_spec (length (history st)) 100); try lia; [|done].
  rewrite tail_drop_1, drop_app_le by lia. done.
Qed.

(** ** Anomaly rule set *)

(** The one fact about the order of numbers that the throughput rules
    rely on: a ratio below 0.3 is not above 2.  It holds in exact
    arithmetic and in binary64 (where a NaN ratio is neither). *)
Lemma Q_drop_excludes_spike (r : Q) :
  nlt r (lit 0.3) = true → nlt (lit 2) r = false.
Proof.
  unfold nlt; simpl. intros Hlt.
  apply negb_true_iff, not_true_iff_false in Hlt. rewrite Qle_bool_iff in Hlt.
  apply negb_false_iff, Qle_bool_iff. lra.
Qed.

Lemma f64_drop_excludes_spike (r : float) :
  nlt r (lit 0.3) = true → nlt (lit 2) r = false.
Proof.
  change (nlt r (lit 0.3)) with (PrimFloat.ltb r (lit 0.3)).
  change (nlt (lit 2) r) with (PrimFloat.ltb (lit 2) r).
  rewrite !FloatAxioms.ltb_spec.
  replace (Prim2SF (lit 0.3)) with (S754_finite false 5404319552844595 (-54))
    by (by vm_compute).
  replace (Prim2SF (lit 2)) with (S754_finite false 4503599627370496 (-51))
    by (by vm_compute).
  unfold SFltb, SFcompare.
  destruct (Prim2SF r) as [s|s| |s m e]; try done.
  all: destruct s; try done.
  destruct (Z.compare_spec e (-54)), (Z.compare_spec (-51) e); try done; lia.
Qed.

Lemma filter_none {A} (P : A → Prop) `{∀ x, Decision (P x)} (l : list A) :
  (∀ x, x ∈ l → ¬ P x) → filter P l = [].
Proof.
  intros Hl. induction l as [|x l IH]; [done|].
  rewrite filter_cons_False; [|by apply Hl; left].
  apply IH. intros y Hy. apply Hl. by right.
Qed.

Section Rules.
Context {R : Type} `{JsNumber R}.
Implicit Types (st : Engine R) (stats : NetworkStats R) (bs : BlockSummary R)
  (top : list (ProgramRanking R)) (programCounts : JsMap) (a : Anomaly R).

(** Each block of [detectAnomalies] emits anomalies of its own kinds. *)
Lemma highFailureRate_type bs now a :
  a ∈ highFailureRate bs now → a_type a = high_failure_rate.
Proof.
  unfold highFailureRate. destruct (_ && _); [|by intros ?%elem_of_nil].
  by intros ->%list_elem_of_singleton.
Qed.

Lemma tpsAnomalies_type baseline stats now a :
  a ∈ tpsAnomalies baseline stats now → a_type a = tps_spike ∨ a_type a = tps_drop.
Proof.
  unfold tpsAnomalies. destruct baseline as [b|]; [|by intros ?%elem_of_nil].
  destruct (nlt (lit 0) b); [|by intros ?%elem_of_nil].
  destruct (nlt (lit 2) _); [intros ->%list_elem_of_singleton; by left|].
  destruct (_ && _); [intros ->%list_elem_of_singleton; by right|].
  by intros ?%elem_of_nil.
Qed.

Lemma largeBlock_type bs now a : a ∈ largeBlock bs now → a_type a = large_block.
Proof.
  unfold largeBlock. destruct (nlt _ _); [|by intros ?%elem_of_nil].
  by intros ->%list_elem_of_singleton.
Qed.

Lemma emptyBlock_type bs now a : a ∈ emptyBlock bs now → a_type a = empty_block.
Proof.
  unfold emptyBlock. destruct (_ && _); [|by intros ?%elem_of_nil].
  by intros ->%list_elem_of_singleton.
Qed.

Lemma newPrograms_type st programCounts now a :
  a ∈ newPrograms st programCounts now → a_type a = new_program_detected.
Proof.
  unfold newPrograms. destruct (3 <? _); [|by intros ?%elem_of_nil].
  by intros (programId & -> & _)%list_elem_of_fmap.
Qed.

Lemma surgeAnomaly_type lastSnapshot now entry a :
  surgeAnomaly lastSnapshot now entry = Some a → a_type a = program_surge.
Proof.
  unfold surgeAnomaly. destruct entry as [programId count].
  destruct (_ && _); [|done]. by intros [= <-].
Qed.

Lemma programSurges_type st programCounts now a :
  a ∈ programSurges st programCounts now → a_type a = program_surge.
Proof.
  unfold programSurges. destruct (2 <? _); [|by intros ?%elem_of_nil].
  destruct (last _) as [lastSnapshot|]; [|by intros ?%elem_of_nil].
  intros (entry & _ & Ha)%list_elem_of_omap. by eapply surgeAnomaly_type.
Qed.

Lemma detectAnomalies_elem st stats bs top programCounts now a :
  a ∈ detectAnomalies st stats bs top programCounts now ↔
    a ∈ highFailureRate bs now
    ∨ a ∈ tpsAnomalies (baselineTps st) stats now
    ∨ a ∈ largeBlock bs now
    ∨ a ∈ emptyBlock bs now
    ∨ a ∈ newPrograms st programCounts now
    ∨ a ∈ programSurges st programCounts now.
Proof. unfold detectAnomalies. by rewrite !elem_of_app. Qed.

Lemma of_type_none t (l : list (Anomaly R)) :
  (∀ a, a ∈ l → a_type a ≠ t) → of_type t l = [].
Proof.
  intros Hl. by apply filter_none.
Qed.

Lemma of_type_app t (l l' : list (Anomaly R)) :
  of_type t (l ++ l') = of_type t l ++ of_type t l'.
Proof. apply filter_app. Qed.

(** The throughput anomalies of a round are those of the throughput
    block. *)
Lemma of_type_tps st stats bs top programCounts now t :
  t = tps_spike ∨ t = tps_drop →
  of_type t (detectAnomalies st stats bs top programCounts now)
  = of_type t (tpsAnomalies (baselineTps st) stats now).
Proof.
  intros Ht. unfold detectAnomalies. rewrite !of_type_app.
  rewrite (of_type_none t (highFailureRate _ _)),
    (of_type_none t (largeBlock _ _)), (of_type_none t (emptyBlock _ _)),
    (of_type_none t (newPrograms _ _ _)), (of_type_none t (programSurges _ _ _)).
  - by rewrite !app_nil_r.
  - intros a ->%programSurges_type. by destruct Ht as [->| ->].
  - intros a ->%newPrograms_type. by destruct Ht as [->| ->].
  - intros a ->%emptyBlock_type. by destruct Ht as [->| ->].
  - intros a ->%largeBlock_type. by destruct Ht as [->| ->].
  - intros a ->%highFailureRate_type. by destruct Ht as [->| ->].
Qed.

Lemma elem_of_of_type t (l : list (Anomaly R)) a :
  a ∈ of_type t l ↔ a ∈ l ∧ a_type a = t.
Proof. unfold of_type. rewrite list_elem_of_filter. tauto. Qed.
End Rules.

(** A block that emits nothing: only the right-to-left direction of a
    characterisation is left. *)
Ltac silent := split; [by intros [?%elem_of_nil _]|].

(** C6.  In an arithmetic where a ratio below 0.3 is not above 2 (exact
    arithmetic and binary64 are), the anomalies of a returned snapshot
    contain a [tps_spike] exactly when the baseline of the engine before
    the call is set and positive and [currentTPS / baseline > 2], with
    severity high when the ratio exceeds 3 and medium otherwise; they
    contain a [tps_drop] exactly when that baseline is set and positive,
    the ratio is below 0.3 and [currentTPS > 0], with severity high when
    the ratio is below 0.1 and medium otherwise; and a snapshot has at
    most one anomaly of the two kinds together. *)
Theorem tps_rules (R : Type) (N : JsNumber R) :
  (∀ r : R, nlt r (lit 0.3) = true → nlt (lit 2) r = false) →
  ∀ (st : Engine R) (call : Call R) (snapshot : NetworkSnapshot R)
    (stats : NetworkStats R),
  (takeSnapshot st call).1 = Fulfilled snapshot →
  getNetworkStats (c_client call) = Fulfilled stats →
  let found := anomalies snapshot in
  let now := now_detect (c_clock call) in
  (∀ a, a ∈ found ∧ a_type a = tps_spike ↔
     ∃ b, baselineTps st = Some b ∧ nlt (lit 0) b = true
       ∧ nlt (lit 2) (ndiv (tps stats) b) = true
       ∧ a = {| a_type := tps_spike;
                a_severity := if nlt (lit 3) (ndiv (tps stats) b) then high else medium;
                a_data := TpsData (tps stats) b (ndiv (tps stats) b);
                a_timestamp := now |})
  ∧ (∀ a, a ∈ found ∧ a_type a = tps_drop ↔
       ∃ b, baselineTps st = Some b ∧ nlt (lit 0) b = true
         ∧ nlt (ndiv (tps stats) b) (lit 0.3) = true
         ∧ nlt (lit 0) (tps stats) = true
         ∧ a = {| a_type := tps_drop;
                  a_severity :=
                    if nlt (ndiv (tps stats) b) (lit 0.1) then high else medium;
                  a_data := TpsData (tps stats) b (ndiv (tps stats) b);
                  a_timestamp := now |})
  ∧ length (of_type tps_spike found) + length (of_type tps_drop found) <= 1.
Proof.
  intros Horder st call snapshot stats Hsnap Hstats found now. subst found now.
  apply takeSnapshot_fulfilled in Hsnap
    as (stats' & blocks & programCounts & E1 & _ & _ & ->).
  assert (stats' = stats) as -> by congruence.
  cbn [anomalies snapshotOf fst].
  generalize (summarizeBlocks (R:=R) blocks) (rankPrograms (R:=R) programCounts)
    (now_detect (c_clock call)).
  intros bs top now.
  split; [|split].
  - intros a. rewrite <- elem_of_of_type, of_type_tps by auto.
    rewrite elem_of_of_type. unfold tpsAnomalies.
    destruct (baselineTps st) as [b|]; [|silent].
    2: by intros (b & [=] & _).
    destruct (nlt (lit 0) b) eqn:Hb.
    2: { silent. intros (b' & [= <-] & ? & _). congruence. }
    destruct (nlt (lit 2) (ndiv (tps stats) b)) eqn:Hr.
    + split.
      * intros [->%list_elem_of_singleton _]. by exists b.
      * intros (b' & [= <-] & _ & _ & ->). split; [by left|done].
    + split.
      * destruct (_ && _); [by intros [->%list_elem_of_singleton [=]]|].
        by intros [?%elem_of_nil _].
      * intros (b' & [= <-] & _ & ? & _). congruence.
  - intros a. rewrite <- elem_of_of_type, of_type_tps by auto.
    rewrite elem_of_of_type. unfold tpsAnomalies.
    destruct (baselineTps st) as [b|]; [|silent].
    2: by intros (b & [=] & _).
    destruct (nlt (lit 0) b) eqn:Hb.
    2: { silent. intros (b' & [= <-] & ? & _). congruence. }
    destruct (nlt (lit 2) (ndiv (tps stats) b)) eqn:Hr.
    + split; [by intros [->%list_elem_of_singleton [=]]|].
      intros (b' & [= <-] & _ & Hlow%Horder & _). congruence.
    + destruct (nlt (ndiv (tps stats) b) (lit 0.3)) eqn:Hlow; simpl.
      2: { silent. intros (b' & [= <-] & _ & ? & _).
           congruence. }
      destruct (nlt (lit 0) (tps stats)) eqn:Hpos.
      2: { silent.
           intros (b' & [= <-] & _ & _ & ? & _). congruence. }
      split.
      * intros [->%list_elem_of_singleton _]. by exists b.
      * intros (b' & [= <-] & _ & _ & _ & ->). split; [by left|done].
  - rewrite !of_type_tps by auto. unfold tpsAnomalies.
    destruct (baselineTps st) as [b|]; [|simpl; lia].
    destruct (nlt (lit 0) b); [|simpl; lia].
    destruct (nlt (lit 2) _); [by vm_compute|].
    destruct (_ && _); [by vm_compute|simpl; lia].
Qed.

(** *** Per-identifier rules *)

Lemma map_get_Some_elem (m : JsMap) k v : map_get k m = Some v → (k, v) ∈ m.
Proof.
  induction m as [|[k' v'] m IH]; simpl; [done|].
  destruct (String.eqb_spec k' k) as [->|Hne].
  - intros [= ->]. by left.
  - intros Hm. right. by apply IH.
Qed.

Lemma map_get_elem (m : JsMap) k v :
  map_wf m → (k, v) ∈ m → map_get k m = Some v.
Proof.
  unfold map_wf, map_keys.
  induction m as [|[k' v'] m IH]; csimpl; [by intros _ ?%elem_of_nil|].
  intros [Hk Hm]%NoDup_cons [[= -> ->]|Hin]%elem_of_cons.
  - by rewrite String.eqb_refl.
  - destruct (String.eqb_spec k' k) as [->|Hne]; [|by apply IH].
    destruct Hk. apply list_elem_of_fmap. by exists (k, v).
Qed.

Lemma map_get_keys (m : JsMap) k : k ∈ map_keys m ↔ is_Some (map_get k m).
Proof.
  unfold map_keys. split.
  - induction m as [|[k' v'] m IH]; csimpl; [by intros ?%elem_of_nil|].
    destruct (String.eqb_spec k' k) as [->|Hne]; [by eauto|].
    intros [?|?]%elem_of_cons; [congruence|by apply IH].
  - intros [v Hv%map_get_Some_elem]. apply list_elem_of_fmap. by exists (k, v).
Qed.

(** [m.set(k, v)] keeps the keys distinct, so every map built from
    [new Map()] by [set] is well formed. *)
Lemma map_set_keys k v (m : JsMap) k' :
  k' ∈ map_keys (map_set k v m) ↔ k' = k ∨ k' ∈ map_keys m.
Proof.
  unfold map_keys. induction m as [|[k0 v0] m IH]; csimpl.
  - rewrite list_elem_of_singleton, elem_of_nil. tauto.
  - destruct (String.eqb_spec k0 k) as [->|Hne]; csimpl.
    + rewrite !elem_of_cons. tauto.
    + rewrite !elem_of_cons, IH. tauto.
Qed.

Lemma map_set_wf k v (m : JsMap) : map_wf m → map_wf (map_set k v m).
Proof.
  unfold map_wf. induction m as [|[k0 v0] m IH]; csimpl.
  - intros _. apply NoDup_singleton.
  - intros [Hk Hm]%NoDup_cons.
    destruct (String.eqb_spec k0 k) as [->|Hne]; csimpl.
    + by apply NoDup_cons.
    + apply NoDup_cons. split; [|by apply IH].
      fold (map_keys (map_set k v m)). rewrite map_set_keys.
      intros [->|?]; [done|]. by apply Hk.
Qed.

Lemma countInvocations_wf programIds : map_wf (countInvocations programIds).
Proof.
  unfold countInvocations.
  assert (∀ m : JsMap, map_wf m →
    map_wf (foldl (fun programCounts programId =>
                     map_set programId
                       (default 0 (map_get programId programCounts) + 1) programCounts)
                  m programIds)) as Hgen.
  { induction programIds as [|k ks IH]; intros m Hm; simpl; [done|].
    by apply IH, map_set_wf. }
  apply Hgen, NoDup_nil_2.
Qed.

Lemma singleton_of_short {A} (l : list A) x : x ∈ l → length l <= 1 → l = [x].
Proof.
  destruct l as [|y [|z l]]; simpl; [by intros ?%elem_of_nil| |lia].
  by intros ->%list_elem_of_singleton.
Qed.

Section PerIdentifier.
Context {R : Type} `{JsNumber R}.
Implicit Types (st : Engine R) (stats : NetworkStats R) (bs : BlockSummary R)
  (top : list (ProgramRanking R)) (programCounts : JsMap) (a : Anomaly R)
  (hist : list (HistoricalDataPoint R)).

Lemma elem_of_anomalies_for t programId (l : list (Anomaly R)) a :
  a ∈ anomalies_for t programId l
  ↔ a ∈ l ∧ a_type a = t ∧ anomaly_program a = Some programId.
Proof. unfold anomalies_for. by rewrite list_elem_of_filter; tauto. Qed.

Lemma anomalies_for_app t programId (l l' : list (Anomaly R)) :
  anomalies_for t programId (l ++ l')
  = anomalies_for t programId l ++ anomalies_for t programId l'.
Proof. apply filter_app. Qed.

Lemma anomalies_for_none t programId (l : list (Anomaly R)) :
  (∀ a, a ∈ l → a_type a ≠ t) → anomalies_for t programId l = [].
Proof.
  intros Hl. apply filter_none. intros a Ha [Ht _]. by apply (Hl a).
Qed.

Lemma anomalies_for_surge st stats bs top programCounts now programId :
  anomalies_for program_surge programId
    (detectAnomalies st stats bs top programCounts now)
  = anomalies_for program_surge programId (programSurges st programCounts now).
Proof.
  unfold detectAnomalies. rewrite !anomalies_for_app.
  rewrite (anomalies_for_none _ _ (highFailureRate _ _)),
    (anomalies_for_none _ _ (tpsAnomalies _ _ _)),
    (anomalies_for_none _ _ (largeBlock _ _)),
    (anomalies_for_none _ _ (emptyBlock _ _)),
    (anomalies_for_none _ _ (newPrograms _ _ _)); [done|..].
  - by intros a ->%newPrograms_type.
  - by intros a ->%emptyBlock_type.
  - by intros a ->%largeBlock_type.
  - by intros a [->| ->]%tpsAnomalies_type.
  - by intros a ->%highFailureRate_type.
Qed.

Lemma anomalies_for_new st stats bs top programCounts now programId :
  anomalies_for new_program_detected programId
    (detectAnomalies st stats bs top programCounts now)
  = anomalies_for new_program_detected programId (newPrograms st programCounts now).
Proof.
  unfold detectAnomalies. rewrite !anomalies_for_app.
  rewrite (anomalies_for_none _ _ (highFailureRate _ _)),
    (anomalies_for_none _ _ (tpsAnomalies _ _ _)),
    (anomalies_for_none _ _ (largeBlock _ _)),
    (anomalies_for_none _ _ (emptyBlock _ _)),
    (anomalies_for_none _ _ (programSurges _ _ _)); [by rewrite app_nil_r|..].
  - by intros a ->%programSurges_type.
  - by intros a ->%emptyBlock_type.
  - by intros a ->%largeBlock_type.
  - by intros a [->| ->]%tpsAnomalies_type.
  - by intros a ->%highFailureRate_type.
Qed.

(** Anomalies about pairwise distinct identifiers: at most one each. *)
Lemma anomalies_for_short t programId (l : list (Anomaly R)) (ids : list string) :
  anomaly_program <$> l = Some <$> ids → NoDup ids →
  length (anomalies_for t programId l) <= 1.
Proof.
  unfold anomalies_for. revert ids.
  induction l as [|a l IH]; intros [|k ids]; csimpl; try done; [lia|].
  intros [= Ha Hl] [Hk Hids]%NoDup_cons.
  destruct (decide (a_type a = t ∧ anomaly_program a = Some programId))
    as [Hy|Hn].
  - rewrite filter_cons_True by done. simpl.
    assert (k = programId) as -> by (destruct Hy; congruence).
    replace (filter _ l) with ([] : list (Anomaly R)); [simpl; lia|].
    symmetry. apply filter_none.
    intros b Hb [_ Hpb]. apply Hk.
    assert (Some programId ∈ anomaly_program <$> l) as Hin.
    { apply list_elem_of_fmap. by exists b. }
    rewrite Hl in Hin. by apply list_elem_of_fmap in Hin as (? & [= <-] & ?).
  - rewrite filter_cons_False by done. by eapply IH.
Qed.

Lemma surgeAnomaly_program lastSnapshot now entry a :
  surgeAnomaly lastSnapshot now entry = Some a → anomaly_program a = Some entry.1.
Proof.
  unfold surgeAnomaly. destruct entry as [programId count].
  destruct (_ && _); [|done]. by intros [= <-].
Qed.

Lemma programSurges_ids st programCounts now :
  ∃ ids, anomaly_program <$> programSurges st programCounts now = Some <$> ids
    ∧ ids `sublist_of` map_keys programCounts.
Proof.
  unfold programSurges. destruct (2 <? _); [|exists []; split; [done|apply sublist_nil_l]].
  destruct (last _) as [lastSnapshot|]; [|exists []; split; [done|apply sublist_nil_l]].
  unfold map_keys. induction programCounts as [|entry m (ids & Hids & Hsub)]; csimpl.
  - by exists [].
  - destruct (surgeAnomaly lastSnapshot now entry) as [a|] eqn:Ha; csimpl.
    + exists (entry.1 :: ids). csimpl.
      rewrite (surgeAnomaly_program _ _ _ _ Ha), Hids. split; [done|].
      by apply sublist_skip.
    + exists ids. split; [done|]. by apply sublist_cons.
Qed.

Lemma programSurges_short st programCounts now programId :
  map_wf programCounts →
  length (anomalies_for program_surge programId (programSurges st programCounts now))
  <= 1.
Proof.
  intros Hwf. destruct (programSurges_ids st programCounts now) as (ids & Hids & Hsub).
  eapply anomalies_for_short; [exact Hids|].
  by eapply sublist_NoDup.
Qed.

Lemma newPrograms_short st programCounts now programId :
  map_wf programCounts →
  length (anomalies_for new_program_detected programId
            (newPrograms st programCounts now)) <= 1.
Proof.
  intros Hwf. unfold newPrograms. destruct (3 <? _); [|simpl; lia].
  eapply anomalies_for_short.
  - rewrite <- list_fmap_compose. by apply list_fmap_ext.
  - by apply NoDup_filter.
Qed.

(** *** Sets of identifiers *)

Lemma elem_of_foldl_add (s : gset string) (l : list string) x :
  x ∈ foldl (fun s p => s ∪ {[p]}) s l ↔ x ∈ s ∨ x ∈ l.
Proof.
  revert s. induction l as [|p l IH]; intros s; simpl.
  - rewrite elem_of_nil. tauto.
  - rewrite IH, elem_of_cons, elem_of_union, elem_of_singleton. tauto.
Qed.

Lemma elem_of_trackPrograms known programCounts x :
  x ∈ trackPrograms known programCounts ↔ x ∈ known ∨ x ∈ map_keys programCounts.
Proof. apply elem_of_foldl_add. Qed.

Lemma elem_of_previousPrograms hist x :
  x ∈ previousPrograms hist
  ↔ ∃ h, h ∈ slice_last 5 hist ∧ x ∈ map_keys (h_programCounts h).
Proof.
  unfold previousPrograms.
  assert (∀ (hs : list (HistoricalDataPoint R)) (s : gset string),
    x ∈ foldl (fun s h => foldl (fun s p => s ∪ {[p]}) s (map_keys (h_programCounts h)))
          s hs
    ↔ x ∈ s ∨ ∃ h, h ∈ hs ∧ x ∈ map_keys (h_programCounts h)) as Hgen.
  { induction hs as [|h hs IH]; intros s; simpl.
    - split; [by left|]. intros [?|(h & ?%elem_of_nil & _)]; done.
    - rewrite IH, elem_of_foldl_add. split.
      + intros [[?|?]|(h' & ? & ?)]; [by left|right; exists h|right; exists h'];
          by rewrite elem_of_cons; auto.
      + intros [?|(h' & [->|?]%elem_of_cons & ?)]; [by auto|by auto|].
        right. by exists h'. }
  rewrite Hgen, elem_of_empty. tauto.
Qed.
End PerIdentifier.

Section PerIdentifierRules.
Context {R : Type} `{JsNumber R}.
Implicit Types (st : Engine R) (programCounts : JsMap) (a : Anomaly R).

Lemma elem_of_programSurges st programCounts now a programId :
  map_wf programCounts →
  a ∈ anomalies_for program_surge programId (programSurges st programCounts now)
  ↔ 2 < length (history st)
    ∧ ∃ lastSnapshot count,
        last (history st) = Some lastSnapshot
        ∧ map_get programId programCounts = Some count
        ∧ 5 < default 0 (map_get programId (h_programCounts lastSnapshot))
        ∧ default 0 (map_get programId (h_programCounts lastSnapshot)) * 3 < count
        ∧ a = {| a_type := program_surge;
                 a_severity :=
                   if default 0 (map_get programId (h_programCounts lastSnapshot)) * 10
                      <? count
                   then high else medium;
                 a_data :=
                   SurgeData programId
                     (default 0 (map_get programId (h_programCounts lastSnapshot)))
                     count;
                 a_timestamp := now |}.
Proof.
  intros Hwf. rewrite elem_of_anomalies_for. unfold programSurges.
  destruct (Nat.ltb_spec 2 (length (history st))) as [Hlen|Hlen].
  2: { silent. intros [? _]. lia. }
  destruct (last (history st)) as [lastSnapshot|].
  2: { silent. by intros (_ & ? & ? & [=] & _). }
  rewrite list_elem_of_omap. split.
  - intros (([k count] & Hin & Ha) & _ & Hp). split; [done|].
    exists lastSnapshot, count.
    pose proof (surgeAnomaly_program _ _ _ _ Ha) as Hk. rewrite Hp in Hk.
    injection Hk as ->. simpl in *.
    split; [done|]. split; [by apply map_get_elem|].
    destruct (Nat.ltb_spec 5 (default 0 (map_get k (h_programCounts lastSnapshot))));
      [|done].
    destruct (Nat.ltb_spec
                (default 0 (map_get k (h_programCounts lastSnapshot)) * 3) count);
      [|done].
    simpl in Ha. injection Ha as <-. done.
  - intros (_ & ? & count & [= <-] & Hget & H5 & H3 & ->).
    split; [|done]. exists (programId, count).
    split; [by apply map_get_Some_elem|]. simpl.
    apply Nat.ltb_lt in H5, H3. by rewrite H5, H3.
Qed.

Lemma elem_of_newPrograms st programCounts now a programId :
  a ∈ anomalies_for new_program_detected programId (newPrograms st programCounts now)
  ↔ 3 < length (history st)
    ∧ programId ∈ map_keys programCounts
    ∧ (∀ h, h ∈ slice_last 5 (history st) → programId ∉ map_keys (h_programCounts h))
    ∧ (programId ∉ knownPrograms st)
    ∧ a = {| a_type := new_program_detected;
             a_severity := low;
             a_data := NewProgramData programId (map_get programId programCounts);
             a_timestamp := now |}.
Proof.
  rewrite elem_of_anomalies_for. unfold newPrograms.
  destruct (Nat.ltb_spec 3 (length (history st))) as [Hlen|Hlen].
  2: { silent. intros [? _]. lia. }
  rewrite list_elem_of_fmap. split.
  - intros ((k & -> & Hk) & _ & [= ->]).
    apply list_elem_of_filter in Hk as [[Hprev Hknown] Hk].
    split; [done|]. split; [done|]. split; [|done].
    intros h Hh Hin. apply Hprev, elem_of_previousPrograms. by exists h.
  - intros (_ & Hk & Hprev & Hknown & ->). split; [|done].
    exists programId. split; [done|]. apply list_elem_of_filter.
    split; [|done]. split; [|done].
    intros (h & Hh & Hin)%elem_of_previousPrograms. by eapply Hprev.
Qed.
End PerIdentifierRules.

(** C7.  For a returned snapshot whose invocation-count map is well
    formed, the anomalies contain a [program_surge] about an identifier
    exactly when the history of the engine before the call holds more
    than 2 entries and, with [prev] the identifier's count in the most
    recent entry (0 when absent), [prev > 5] and the current count exceeds
    [3 * prev]; the severity is high when the current count exceeds
    [10 * prev], medium otherwise; there is at most one per identifier,
    and every [program_surge] is about some identifier.  No other history
    entry is read.  A previous count of 10 with a current count of 35
    gives one medium surge; a previous count of at most 5 gives none. *)
Theorem program_surge_rule (R : Type) (N : JsNumber R) (st : Engine R) (call : Call R)
    (snapshot : NetworkSnapshot R) (programCounts : JsMap) :
  (takeSnapshot st call).1 = Fulfilled snapshot →
  getTopProgramsFromRecentBlocks (c_client call) (c_numBlocks call)
    = Fulfilled programCounts →
  map_wf programCounts →
  let found := anomalies snapshot in
  let now := now_detect (c_clock call) in
  (∀ programId a,
     a ∈ anomalies_for program_surge programId found
     ↔ 2 < length (history st)
       ∧ ∃ lastSnapshot count,
           last (history st) = Some lastSnapshot
           ∧ map_get programId programCounts = Some count
           ∧ 5 < default 0 (map_get programId (h_programCounts lastSnapshot))
           ∧ default 0 (map_get programId (h_programCounts lastSnapshot)) * 3 < count
           ∧ a = {| a_type := program_surge;
                    a_severity :=
                      if default 0 (map_get programId (h_programCounts lastSnapshot)) * 10
                         <? count
                      then high else medium;
                    a_data :=
                      SurgeData programId
                        (default 0 (map_get programId (h_programCounts lastSnapshot)))
                        count;
                    a_timestamp := now |})
  ∧ (∀ programId, length (anomalies_for program_surge programId found) <= 1)
  ∧ (∀ a, a ∈ found → a_type a = program_surge →
       ∃ programId, a ∈ anomalies_for program_surge programId found)
  ∧ (∀ programId lastSnapshot,
       2 < length (history st) → last (history st) = Some lastSnapshot →
       map_get programId (h_programCounts lastSnapshot) = Some 10 →
       map_get programId programCounts = Some 35 →
       anomalies_for program_surge programId found =
         [ {| a_type := program_surge; a_severity := medium;
              a_data := SurgeData programId 10 35; a_timestamp := now |} ])
  ∧ (∀ programId lastSnapshot,
       last (history st) = Some lastSnapshot →
       default 0 (map_get programId (h_programCounts lastSnapshot)) <= 5 →
       anomalies_for program_surge programId found = []).
Proof.
  intros Hsnap Hcounts Hwf found now. subst found now.
  apply takeSnapshot_fulfilled in Hsnap
    as (stats & blocks & programCounts' & _ & _ & E3 & ->).
  assert (programCounts' = programCounts) as -> by congruence.
  cbn [anomalies snapshotOf fst].
  generalize (summarizeBlocks (R:=R) blocks) (rankPrograms (R:=R) programCounts)
    (now_detect (c_clock call)).
  intros bs top now.
  setoid_rewrite anomalies_for_surge.
  pose proof (fun programId a =>
    elem_of_programSurges st programCounts now a programId Hwf) as Hchar.
  pose proof (fun programId =>
    programSurges_short st programCounts now programId Hwf) as Hshort.
  split; [exact Hchar|]. split; [exact Hshort|]. split; [|split].
  - intros a [Ha|[Ha|[Ha|[Ha|[Ha|Ha]]]]]%detectAnomalies_elem Ht.
    + by rewrite (highFailureRate_type _ _ _ Ha) in Ht.
    + by destruct (tpsAnomalies_type _ _ _ _ Ha) as [E|E]; rewrite E in Ht.
    + by rewrite (largeBlock_type _ _ _ Ha) in Ht.
    + by rewrite (emptyBlock_type _ _ _ Ha) in Ht.
    + by rewrite (newPrograms_type _ _ _ _ Ha) in Ht.
    + assert (∃ programId, anomaly_program a = Some programId) as [programId Hp].
      { unfold programSurges in Ha. destruct (2 <? _); [|by apply elem_of_nil in Ha].
        destruct (last _); [|by apply elem_of_nil in Ha].
        apply list_elem_of_omap in Ha as (entry & _ & Ha).
        exists entry.1. by eapply surgeAnomaly_program. }
      exists programId. by apply elem_of_anomalies_for.
  - intros programId lastSnapshot Hlen Hlast Hprev Hcur.
    apply singleton_of_short; [|apply Hshort].
    apply Hchar. split; [done|]. exists lastSnapshot, 35.
    rewrite Hprev. simpl. repeat split; try done; lia.
  - intros programId lastSnapshot Hlast Hprev.
    destruct (anomalies_for program_surge programId _) as [|a l] eqn:E; [done|].
    assert (a ∈ a :: l) as Ha by left. rewrite <- E in Ha.
    apply Hchar in Ha as (_ & h & count & Hh & _ & H5 & _).
    assert (h = lastSnapshot) as -> by congruence. lia.
Qed.

Lemma knownPrograms_step {R} `{JsNumber R} (st : Engine R) (call : Call R) programId :
  programId ∈ knownPrograms (takeSnapshot st call).2
  ↔ programId ∈ knownPrograms st
    ∨ ∃ p, callPoint call = Some p ∧ programId ∈ map_keys (h_programCounts p).
Proof.
  pose proof (takeSnapshot_state st call) as Hs.
  destruct (callPoint call) as [p|].
  - destruct Hs as (_ & _ & ->). rewrite elem_of_trackPrograms.
    split; [intros [?|?]; eauto|].
    intros [?|(? & [= <-] & ?)]; auto.
  - rewrite Hs. split; [auto|]. by intros [?|(? & [=] & _)].
Qed.

Lemma knownPrograms_run {R} `{JsNumber R} (st : Engine R) (calls : list (Call R))
    programId :
  programId ∈ knownPrograms st → programId ∈ knownPrograms (run st calls).
Proof.
  revert st. induction calls as [|c calls IH]; intros st Hk; simpl; [done|].
  apply IH, knownPrograms_step. by left.
Qed.

(** C8.  The anomalies of a returned snapshot contain a
    [new_program_detected] about an identifier exactly when the history of
    the engine before the call holds more than 3 entries, the identifier
    is a key of this round's invocation counts, it is a key of none of the
    last 5 history entries and it is not in the known-identifier set; the
    severity is low, and for a well-formed map there is at most one per
    identifier.  Every completed call adds the identifiers of its
    invocation counts to the known-identifier set, the set never loses an
    identifier, and once an identifier is in it no later call returns a
    [new_program_detected] about it, whatever the history holds. *)
Theorem new_program_rule (R : Type) (N : JsNumber R) :
  (∀ (st : Engine R) (call : Call R) snapshot (programCounts : JsMap) programId a,
     (takeSnapshot st call).1 = Fulfilled snapshot →
     getTopProgramsFromRecentBlocks (c_client call) (c_numBlocks call)
       = Fulfilled programCounts →
     a ∈ anomalies_for new_program_detected programId (anomalies snapshot)
     ↔ 3 < length (history st)
       ∧ programId ∈ map_keys programCounts
       ∧ (∀ h, h ∈ slice_last 5 (history st) → programId ∉ map_keys (h_programCounts h))
       ∧ (programId ∉ knownPrograms st)
       ∧ a = {| a_type := new_program_detected;
                a_severity := low;
                a_data := NewProgramData programId (map_get programId programCounts);
                a_timestamp := now_detect (c_clock call) |})
  ∧ (∀ (st : Engine R) (call : Call R) snapshot (programCounts : JsMap) programId,
       (takeSnapshot st call).1 = Fulfilled snapshot →
       getTopProgramsFromRecentBlocks (c_client call) (c_numBlocks call)
         = Fulfilled programCounts →
       map_wf programCounts →
       length (anomalies_for new_program_detected programId (anomalies snapshot)) <= 1)
  ∧ (∀ (st : Engine R) (call : Call R) p programId,
       callPoint call = Some p → programId ∈ map_keys (h_programCounts p) →
       programId ∈ knownPrograms (takeSnapshot st call).2)
  ∧ (∀ (st : Engine R) (calls : list (Call R)) programId,
       programId ∈ knownPrograms st → programId ∈ knownPrograms (run st calls))
  ∧ (∀ (st : Engine R) (calls : list (Call R)) (call : Call R) snapshot programId,
       programId ∈ knownPrograms st →
       (takeSnapshot (run st calls) call).1 = Fulfilled snapshot →
       anomalies_for new_program_detected programId (anomalies snapshot) = []).
Proof.
  split; [|split; [|split; [|split]]].
  - intros st call snapshot programCounts programId a Hsnap Hcounts.
    apply takeSnapshot_fulfilled in Hsnap
      as (stats & blocks & programCounts' & _ & _ & E3 & ->).
    assert (programCounts' = programCounts) as -> by congruence.
    cbn [anomalies snapshotOf fst].
    rewrite anomalies_for_new. apply elem_of_newPrograms.
  - intros st call snapshot programCounts programId Hsnap Hcounts Hwf.
    apply takeSnapshot_fulfilled in Hsnap
      as (stats & blocks & programCounts' & _ & _ & E3 & ->).
    assert (programCounts' = programCounts) as -> by congruence.
    cbn [anomalies snapshotOf fst].
    rewrite anomalies_for_new. by apply newPrograms_short.
  - intros st call p programId Hp Hin. apply knownPrograms_step. right. by exists p.
  - intros st calls programId. apply knownPrograms_run.
  - intros st calls call snapshot programId Hk Hs.
    apply takeSnapshot_fulfilled in Hs as (stats & blocks & programCounts & _ & _ & _ & ->).
    cbn [anomalies snapshotOf fst].
    rewrite anomalies_for_new.
    destruct (anomalies_for _ _ _) as [|a l] eqn:E; [done|].
    assert (a ∈ a :: l) as Ha by left. rewrite <- E in Ha.
    apply elem_of_newPrograms in Ha as (_ & _ & _ & Hn & _).
    destruct Hn. by apply knownPrograms_run.
Qed.

(** *** Identifiers of the history are known *)

Section KnownInvariant.
Context {R : Type} `{JsNumber R}.
Implicit Types (st : Engine R) (call : Call R) (calls : list (Call R)).

Lemma elem_of_pushHistory (hist : list (HistoricalDataPoint R)) p h :
  h ∈ pushHistory hist p → h ∈ hist ∨ h = p.
Proof.
  unfold pushHistory. intros Hh.
  assert (h ∈ hist ++ [p]) as Hin.
  { destruct (_ <? _); [|done]. destruct (hist ++ [p]); [done|]. by right. }
  apply elem_of_app in Hin as [?|?%list_elem_of_singleton]; auto.
Qed.

Lemma history_known_step st call :
  history_known st → history_known (takeSnapshot st call).2.
Proof.
  intros Hinv. pose proof (takeSnapshot_state st call) as Hs.
  destruct (callPoint call) as [p|] eqn:Hp; [|by rewrite Hs].
  destruct Hs as (Hh & _ & _). intros h programId Hin Hk.
  apply knownPrograms_step. rewrite Hh in Hin.
  apply elem_of_pushHistory in Hin as [Hin| ->].
  - left. by eapply Hinv.
  - right. by exists p.
Qed.

Lemma history_known_run st calls : history_known st → history_known (run st calls).
Proof.
  revert st. induction calls as [|c calls IH]; intros st Hinv; simpl; [done|].
  by apply IH, history_known_step.
Qed.

Lemma history_known_new : history_known (newEngine (R:=R)).
Proof. by intros h programId ?%elem_of_nil. Qed.

Lemma elem_of_slice_last {A} n (l : list A) x : x ∈ slice_last n l → x ∈ l.
Proof. unfold slice_last. intros (i & Hi)%list_elem_of_lookup.
  rewrite lookup_drop in Hi. by eapply list_elem_of_lookup_2. Qed.
End KnownInvariant.

(** C10.  In the engine reached from a new one by any sequence of calls
    (a failed call changes nothing), every identifier counted in a history
    entry is in the known-identifier set.  Hence an identifier that is not
    known is in none of the last 5 history entries, and the
    [new_program_detected] block emits the same anomalies as the block
    that tests the known-identifier set alone. *)
Theorem history_identifiers_known (R : Type) (N : JsNumber R) (calls : list (Call R)) :
  let st := run newEngine calls in
  (∀ h programId, h ∈ history st → programId ∈ map_keys (h_programCounts h) →
     programId ∈ knownPrograms st)
  ∧ (∀ programId, programId ∉ knownPrograms st →
       programId ∉ previousPrograms (history st))
  ∧ (∀ (programCounts : JsMap) now,
       newPrograms st programCounts now =
         if 3 <? length (history st)
         then newProgramAnomaly programCounts now <$>
                (filter (fun programId => programId ∉ knownPrograms st)
                        (map_keys programCounts))
         else []).
Proof.
  intros st.
  assert (history_known st) as Hinv by apply history_known_run, history_known_new.
  assert (∀ programId, programId ∉ knownPrograms st →
            programId ∉ previousPrograms (history st)) as Hprev.
  { intros programId Hn (h & Hh%elem_of_slice_last & Hk)%elem_of_previousPrograms.
    apply Hn. by eapply Hinv. }
  split; [exact Hinv|]. split; [exact Hprev|].
  intros programCounts now. unfold newPrograms.
  destruct (3 <? _); [|done]. f_equal.
  apply list_filter_iff. intros programId. split; [tauto|]. auto.
Qed.

(** ** [getHistory] and aliasing *)

Section StoreFacts.
Context {R : Type}.
Implicit Types (σ : Store.store R) (r : Store.ref).

Lemma read_map_extends σ σ' r entries :
  Store.extends σ σ' → Store.read_map σ r = Some entries →
  Store.read_map σ' r = Some entries.
Proof.
  unfold Store.read_map. intros Hext.
  destruct (σ !! r) as [o|] eqn:E; [|done].
  by rewrite (Hext _ _ E).
Qed.

Lemma read_point_extends σ σ' r p :
  Store.extends σ σ' → Store.read_point σ r = Some p →
  Store.read_point σ' r = Some p.
Proof.
  unfold Store.read_point. intros Hext.
  destruct (σ !! r) as [o|] eqn:E; [|done].
  rewrite (Hext _ _ E). destruct o as [| t tps n s c |]; try done.
  destruct (Store.read_map σ c) as [entries|] eqn:Em; [|done].
  by rewrite (read_map_extends _ _ _ _ Hext Em).
Qed.

Lemma read_array_extends σ σ' r hist :
  Store.extends σ σ' → Store.read_array σ r = Some hist →
  Store.read_array σ' r = Some hist.
Proof.
  unfold Store.read_array. intros Hext.
  destruct (σ !! r) as [o|] eqn:E; [|done].
  rewrite (Hext _ _ E). destruct o as [elements| |]; try done.
  rewrite !mapM_Some. intros Hall. eapply Forall2_impl; [exact Hall|].
  intros e p. by apply read_point_extends.
Qed.

Lemma extends_alloc σ (o : Store.object R) : Store.extends σ (Store.alloc σ o).1.
Proof. intros r o' Hr. simpl. by apply lookup_app_l_Some. Qed.

Lemma extends_fresh_insert σ (o o' : Store.object R) :
  Store.extends σ (<[length σ := o']> (σ ++ [o])).
Proof.
  intros r o0 Hr. pose proof (lookup_lt_Some _ _ _ Hr).
  rewrite list_lookup_insert_ne by lia. by apply lookup_app_l_Some.
Qed.
End StoreFacts.

(** C9, as the code has it.  On a store where the engine's array reads as
    the engine's history, [getHistory] allocates a new array object: the
    reference it returns is fresh, the new array reads as the same history
    (same entries, same order) and holds the very element references of
    the engine's array; every object that existed before the call is
    unchanged, so the engine reads the same history; and no mutation of
    the returned array itself changes the history the engine reads. *)
Theorem getHistory_shallow_copy (R : Type) (st : Engine R) (σ : Store.store R)
    (this_history : Store.ref) :
  Store.read_array σ this_history = Some (history st) →
  ∃ σ' returned elements,
    Store.getHistory σ this_history = Some (σ', returned)
    ∧ σ !! returned = None
    ∧ returned ≠ this_history
    ∧ σ !! this_history = Some (Store.ArrayObj elements)
    ∧ σ' !! returned = Some (Store.ArrayObj elements)
    ∧ Store.read_array σ' returned = Some (history st)
    ∧ Store.extends σ σ'
    ∧ Store.read_array σ' this_history = Some (history st)
    ∧ ∀ m, Store.on_array m →
        Store.read_array (Store.mutate σ' returned m) this_history = Some (history st).
Proof.
  intros Hread. unfold Store.getHistory.
  pose proof Hread as Hread0. unfold Store.read_array in Hread.
  destruct (σ !! this_history) as [[elements| |]|] eqn:Eh; try done.
  exists (σ ++ [Store.ArrayObj elements]), (length σ), elements.
  pose proof (extends_alloc σ (Store.ArrayObj elements)) as Hext. simpl in Hext.
  pose proof (lookup_lt_Some _ _ _ Eh) as Hlt.
  assert ((σ ++ [Store.ArrayObj elements]) !! length σ = Some (Store.ArrayObj elements))
    as Hnew.
  { rewrite lookup_app_r by lia. by rewrite Nat.sub_diag. }
  split; [done|]. split; [by apply lookup_ge_None_2|]. split; [lia|].
  split; [done|]. split; [done|]. split; [|split; [done|split]].
  - unfold Store.read_array. rewrite Hnew.
    rewrite mapM_Some in Hread. rewrite mapM_Some.
    eapply Forall2_impl; [exact Hread|]. intros e p. by apply read_point_extends.
  - by eapply read_array_extends.
  - intros [elements'| | | |] Hm; try done. simpl.
    eapply read_array_extends; [|exact Hread0]. apply extends_fresh_insert.
Qed.

(** C9 as stated fails.  In [Store.sample] the engine's array is object 0,
    with one entry (object 1) whose map is object 2.  Through the
    reference returned by [getHistory] a caller assigns
    [returned[0].txCount = 999], or calls
    [returned[0].programCounts.set("x", 1)], and the history the engine
    reads is no longer the one it read before. *)
Lemma getHistory_elements_shared :
  ∃ σ' returned,
    Store.getHistory Store.sample 0 = Some (σ', returned)
    ∧ Store.read_array Store.sample 0 = Some (history Store.sampleEngine)
    ∧ Store.read_array (Store.mutate σ' returned (Store.PointSetTxCount 0 999)) 0
      = Some [ {| h_timestamp := 0; h_tps := 100%Q; h_txCount := 999;
                  h_successRate := 100%Q; h_programCounts := [("a"%string, 1)] |} ]
    ∧ Store.read_array
        (Store.mutate σ' returned (Store.CountsSet 0 "x"%string 1)) 0
      = Some [ {| h_timestamp := 0; h_tps := 100%Q; h_txCount := 10;
                  h_successRate := 100%Q;
                  h_programCounts := [("a"%string, 1); ("x"%string, 1)] |} ]
    ∧ Store.read_array (Store.mutate σ' returned (Store.PointSetTxCount 0 999)) 0
      ≠ Store.read_array Store.sample 0
    ∧ Store.read_array
        (Store.mutate σ' returned (Store.CountsSet 0 "x"%string 1)) 0
      ≠ Store.read_array Store.sample 0.
Proof.
  eexists _, _. split; [reflexivity|].
  split; [reflexivity|]. split; [reflexivity|]. split; [reflexivity|].
  split; vm_compute; discriminate.
Qed.

(** ** Worked rounds *)

Lemma roundOf_completes {R} `{JsNumber R} observed programCounts t :
  completes (roundOf (R:=R) observed programCounts t).
Proof. by repeat split. Qed.

Lemma roundsOf_complete {R} `{JsNumber R} n : Forall completes (roundsOf (R:=R) n).
Proof. apply Forall_fmap, Forall_forall. intros i _. apply roundOf_completes. Qed.

(** A rejected block fetch rejects the call and leaves a new engine new. *)
Lemma takeSnapshot_fetch_failure_witness :
  ∃ reason,
    takeSnapshot (newEngine (R:=float)) failingCall = (Rejected reason, newEngine)
    ∧ (rejection (getNetworkStats (c_client (failingCall (R:=float)))) = Some reason
       ∨ rejection (getRecentBlockProduction (c_client (failingCall (R:=float))) 5)
         = Some reason
       ∨ rejection (getTopProgramsFromRecentBlocks (c_client (failingCall (R:=float))) 5)
         = Some reason).
Proof.
  apply (takeSnapshot_fetch_failure newEngine failingCall).
  right; left. by eexists.
Defined.

Example failingCall_reason :
  takeSnapshot (newEngine (R:=float)) failingCall = (Rejected "rpc down"%string, newEngine).
Proof. reflexivity. Qed.

(** Two blocks, 40 transactions, 20 successful: 50 percent. *)
Lemma summarizeBlocks_spec_witness :
  (0 <= successRate (summarizeBlocks (R:=Q) [blockOf 10 8; blockOf 30 12]))%Q
  ∧ (successRate (summarizeBlocks (R:=Q) [blockOf 10 8; blockOf 30 12]) <= 100)%Q.
Proof.
  assert (Forall block_wf [blockOf 10 8; blockOf 30 12]) as Hwf.
  { repeat constructor; unfold block_wf; simpl; lia. }
  pose proof (proj1 (proj2 (proj2 summarizeBlocks_spec)) [blockOf 10 8; blockOf 30 12]
                ltac:(done) Hwf) as (_ & _ & Hlo & Hhi & _).
  by split.
Defined.

Example summarizeBlocks_f64 :
  summarizeBlocks (R:=float) [blockOf 10 8; blockOf 30 12]
  = {| blocksAnalyzed := 2; totalTransactions := 40; successRate := 50%float;
       avgTxPerBlock := 20%float; avgFeePerTx := 0%float |}.
Proof. reflexivity. Qed.

(** Three identifiers with counts 3, 7, 3: the shares sum to 100. *)
Lemma rankPrograms_spec_witness :
  (sum_shares (rankPrograms sampleCounts) == 100)%Q.
Proof. apply (proj1 (proj2 rankPrograms_spec sampleCounts)); simpl; lia. Defined.

Example rankPrograms_order :
  programId <$> rankPrograms (R:=float) sampleCounts
  = ["b"%string; "a"%string; "c"%string].
Proof. reflexivity. Qed.

(** 150 completed rounds: the history holds the rounds 50 to 149. *)
Lemma history_ring_witness :
  length (history (run (newEngine (R:=float)) (roundsOf 150))) <= 100.
Proof. apply (history_ring float _ (roundsOf 150)), roundsOf_complete. Defined.

Example history_ring_150 :
  h_timestamp <$> history (run (newEngine (R:=float)) (roundsOf 150))
  = Z.of_nat <$> seq 50 100.
Proof.
  rewrite (history_run newEngine (roundsOf 150) []) by done.
  by vm_compute.
Qed.

(** 50 transactions with 40 percent success: a high failure rate; with 5
    transactions the rule stays silent. *)
Example high_failure_rate_fires :
  detectAnomalies (newEngine (R:=float)) (statsOf 100%float)
    (summarizeBlocks [blockOf 50 20]) [] [] 7
  = [ {| a_type := high_failure_rate; a_severity := high;
         a_data := FailureData 40%float 50; a_timestamp := 7 |} ].
Proof. reflexivity. Qed.

Example high_failure_rate_small_sample :
  detectAnomalies (newEngine (R:=float)) (statsOf 100%float)
    (summarizeBlocks [blockOf 5 2]) [] [] 7
  = [].
Proof. reflexivity. Qed.

(** Baseline 100, throughput 250: ratio 2.5, a medium spike. *)
Lemma tps_rules_witness :
  ∃ snapshot,
    (takeSnapshot (baselineOnly (R:=float)) (roundOf 250 [] 7)).1 = Fulfilled snapshot
    ∧ {| a_type := tps_spike; a_severity := medium;
         a_data := TpsData 250%float 100%float 2.5%float; a_timestamp := 7 |}
      ∈ anomalies snapshot.
Proof.
  eexists. split; [reflexivity|].
  refine (proj1 (proj2 (proj1 (tps_rules float _ f64_drop_excludes_spike
                                 baselineOnly (roundOf 250 [] 7) _ (statsOf 250%float)
                                 eq_refl eq_refl) _) _)).
  exists 100%float. repeat split; reflexivity.
Defined.

Example tps_spike_medium :
  detectAnomalies (baselineOnly (R:=float)) (statsOf 250%float) (summarizeBlocks [])
    [] [] 7
  = [ {| a_type := tps_spike; a_severity := medium;
         a_data := TpsData 250%float 100%float 2.5%float; a_timestamp := 7 |} ].
Proof. reflexivity. Qed.

Example tps_spike_high :
  detectAnomalies (baselineOnly (R:=float)) (statsOf 350%float) (summarizeBlocks [])
    [] [] 7
  = [ {| a_type := tps_spike; a_severity := high;
         a_data := TpsData 350%float 100%float 3.5%float; a_timestamp := 7 |} ].
Proof. reflexivity. Qed.

Example tps_drop_medium :
  detectAnomalies (baselineOnly (R:=float)) (statsOf 25%float) (summarizeBlocks [])
    [] [] 7
  = [ {| a_type := tps_drop; a_severity := medium;
         a_data := TpsData 25%float 100%float 0.25%float; a_timestamp := 7 |} ].
Proof. reflexivity. Qed.

Example tps_zero_no_drop :
  detectAnomalies (baselineOnly (R:=float)) (statsOf 0%float) (summarizeBlocks [])
    [] [] 7
  = [].
Proof. reflexivity. Qed.

Example tps_spike_exact :
  a_severity <$> detectAnomalies (baselineOnly (R:=Q)) (statsOf 250%Q)
                   (summarizeBlocks []) [] [] 7
  = [medium].
Proof. reflexivity. Qed.

(** Previous count 10, current count 35: one medium surge. *)
Lemma program_surge_rule_witness :
  ∃ snapshot,
    (takeSnapshot (run (newEngine (R:=float)) roundsBeforeSurge)
       (roundOf 100 [("X"%string, 35)] 3)).1 = Fulfilled snapshot
    ∧ anomalies_for program_surge "X" (anomalies snapshot)
      = [ {| a_type := program_surge; a_severity := medium;
             a_data := SurgeData "X" 10 35; a_timestamp := 3 |} ].
Proof.
  assert (map_wf [("X"%string, 35)]) as Hwf by apply NoDup_singleton.
  eexists. split; [reflexivity|].
  eapply (proj1 (proj2 (proj2 (proj2
            (program_surge_rule float _ (run newEngine roundsBeforeSurge)
               (roundOf 100 [("X"%string, 35)] 3) _ [("X"%string, 35)]
               eq_refl eq_refl Hwf)))) "X"%string).
  - vm_compute. lia.
  - reflexivity.
  - reflexivity.
  - reflexivity.
Defined.

Example program_surge_high :
  ∃ snapshot,
    (takeSnapshot (run (newEngine (R:=float)) roundsBeforeSurge)
       (roundOf 100 [("X"%string, 101)] 3)).1 = Fulfilled snapshot
    ∧ a_severity <$> anomalies_for program_surge "X" (anomalies snapshot) = [high].
Proof. eexists. split; by vm_compute. Qed.

(** X was counted in the first round and in none of the next six; when it
    comes back it is not reported, and the new identifier Y is. *)
Lemma new_program_rule_witness :
  ∃ snapshot,
    (takeSnapshot (run (run (newEngine (R:=float)) [roundOf 100 [("X"%string, 10)] 0])
                     (tail roundsWithX)) roundXY).1 = Fulfilled snapshot
    ∧ anomalies_for new_program_detected "X" (anomalies snapshot) = [].
Proof.
  eexists. split; [by vm_compute|].
  eapply (proj2 (proj2 (proj2 (proj2 (new_program_rule float _))))
            (run newEngine [roundOf 100 [("X"%string, 10)] 0]) (tail roundsWithX)
            roundXY _ "X"%string).
  - eapply (proj1 (proj2 (proj2 (new_program_rule float _)))
              newEngine (roundOf 100 [("X"%string, 10)] 0) _ "X"%string).
    + reflexivity.
    + by left.
  - by vm_compute.
Defined.

Example new_program_only_Y :
  ∃ snapshot,
    (takeSnapshot (run (newEngine (R:=float)) roundsWithX) roundXY).1 = Fulfilled snapshot
    ∧ anomaly_program <$> of_type new_program_detected (anomalies snapshot)
      = [Some "Y"%string].
Proof. eexists. split; by vm_compute. Qed.

(** The copy of the history of [Store.sample]. *)
Lemma getHistory_shallow_copy_witness :
  ∃ σ' returned elements,
    Store.getHistory Store.sample 0 = Some (σ', returned)
    ∧ Store.sample !! returned = None
    ∧ returned ≠ 0
    ∧ Store.sample !! 0 = Some (Store.ArrayObj elements)
    ∧ σ' !! returned = Some (Store.ArrayObj elements)
    ∧ Store.read_array σ' returned = Some (history Store.sampleEngine)
    ∧ Store.extends Store.sample σ'
    ∧ Store.read_array σ' 0 = Some (history Store.sampleEngine)
    ∧ ∀ m, Store.on_array m →
        Store.read_array (Store.mutate σ' returned m) 0
        = Some (history Store.sampleEngine).
Proof.
  apply (getHistory_shallow_copy Q Store.sampleEngine Store.sample 0). reflexivity.
Defined.

Example getHistory_push_is_private :
  ∃ σ' returned,
    Store.getHistory Store.sample 0 = Some (σ', returned)
    ∧ Store.read_array (Store.mutate σ' returned (Store.ArraySet [])) returned = Some []
    ∧ Store.read_array (Store.mutate σ' returned (Store.ArraySet [])) 0
      = Store.read_array Store.sample 0.
Proof. eexists _, _. by repeat split. Qed.

(** X, counted in the oldest history entry, is known. *)
Lemma history_identifiers_known_witness :
  "X"%string ∈ knownPrograms (run (newEngine (R:=float)) roundsWithX).
Proof.
  apply (proj1 (history_identifiers_known float _ roundsWithX)
           (dataPoint (statsOf 100%float) (summarizeBlocks [blockOf 100 95])
              [("X"%string, 10)] 0)).
  - vm_compute. left.
  - by left.
Defined.

(** * Further facts *)

(** ** The remaining rules of [detectAnomalies] *)

Lemma f64_small_excludes_large (r : float) :
  nlt r (lit 5) = true → nlt (lit 2000) r = false.
Proof.
  change (nlt r (lit 5)) with (PrimFloat.ltb r (lit 5)).
  change (nlt (lit 2000) r) with (PrimFloat.ltb (lit 2000) r).
  rewrite !FloatAxioms.ltb_spec.
  replace (Prim2SF (lit 5)) with (S754_finite false 5629499534213120 (-50))
    by (by vm_compute).
  replace (Prim2SF (lit 2000)) with (S754_finite false 8796093022208000 (-42))
    by (by vm_compute).
  unfold SFltb, SFcompare.
  destruct (Prim2SF r) as [s|s| |s m e]; try done.
  all: destruct s; try done.
  destruct (Z.compare_spec e (-50)), (Z.compare_spec (-42) e); try done; lia.
Qed.

Lemma Q_small_excludes_large (r : Q) :
  nlt r (lit 5) = true → nlt (lit 2000) r = false.
Proof.
  unfold nlt; simpl. intros Hlt.
  apply negb_true_iff, not_true_iff_false in Hlt. rewrite Qle_bool_iff in Hlt.
  apply negb_false_iff, Qle_bool_iff. lra.
Qed.

Section MoreRules.
Context {R : Type} `{JsNumber R}.
Implicit Types (st : Engine R) (stats : NetworkStats R) (bs : BlockSummary R)
  (top : list (ProgramRanking R)) (programCounts : JsMap) (a : Anomaly R).

(** The anomalies of the three block-summary rules are those of their
    blocks. *)
Lemma of_type_summary st stats bs top programCounts now t :
  t = high_failure_rate ∨ t = large_block ∨ t = empty_block →
  of_type t (detectAnomalies st stats bs top programCounts now)
  = of_type t (highFailureRate bs now) ++ of_type t (largeBlock bs now)
    ++ of_type t (emptyBlock bs now).
Proof.
  intros Ht. unfold detectAnomalies. rewrite !of_type_app.
  rewrite (of_type_none t (tpsAnomalies _ _ _)),
    (of_type_none t (newPrograms _ _ _)), (of_type_none t (programSurges _ _ _)).
  - by rewrite !app_nil_r.
  - intros a ->%programSurges_type. by destruct Ht as [->|[->| ->]].
  - intros a ->%newPrograms_type. by destruct Ht as [->|[->| ->]].
  - intros a [->| ->]%tpsAnomalies_type; by destruct Ht as [->|[->| ->]].
Qed.

Lemma of_type_high_failure_rate st stats bs top programCounts now :
  of_type high_failure_rate (detectAnomalies st stats bs top programCounts now)
  = highFailureRate bs now.
Proof.
  rewrite of_type_summary by auto.
  rewrite (of_type_none _ (largeBlock _ _)), (of_type_none _ (emptyBlock _ _)).
  - rewrite !app_nil_r. unfold highFailureRate. by destruct (_ && _).
  - by intros a ->%emptyBlock_type.
  - by intros a ->%largeBlock_type.
Qed.

Lemma of_type_large_block st stats bs top programCounts now :
  of_type large_block (detectAnomalies st stats bs top programCounts now)
  = largeBlock bs now.
Proof.
  rewrite of_type_summary by auto.
  rewrite (of_type_none _ (highFailureRate _ _)), (of_type_none _ (emptyBlock _ _)).
  - rewrite app_nil_r. simpl. unfold largeBlock. by destruct (nlt _ _).
  - by intros a ->%emptyBlock_type.
  - by intros a ->%highFailureRate_type.
Qed.

Lemma of_type_empty_block st stats bs top programCounts now :
  of_type empty_block (detectAnomalies st stats bs top programCounts now)
  = emptyBlock bs now.
Proof.
  rewrite of_type_summary by auto.
  rewrite (of_type_none _ (highFailureRate _ _)), (of_type_none _ (largeBlock _ _)).
  - simpl. unfold emptyBlock. by destruct (_ && _).
  - by intros a ->%largeBlock_type.
  - by intros a ->%highFailureRate_type.
Qed.

(** What a fulfilled call returns, field by field. *)
Lemma takeSnapshot_fields st call snapshot :
  (takeSnapshot st call).1 = Fulfilled snapshot →
  ∃ stats blocks programCounts,
    getNetworkStats (c_client call) = Fulfilled stats
    ∧ getRecentBlockProduction (c_client call) (c_numBlocks call) = Fulfilled blocks
    ∧ getTopProgramsFromRecentBlocks (c_client call) (c_numBlocks call)
      = Fulfilled programCounts
    ∧ s_stats snapshot = stats
    ∧ blockSummary snapshot = summarizeBlocks blocks
    ∧ topPrograms snapshot = rankPrograms programCounts
    ∧ s_timestamp snapshot = now_snapshot (c_clock call)
    ∧ anomalies snapshot =
        detectAnomalies st stats (blockSummary snapshot) (topPrograms snapshot)
          programCounts (now_detect (c_clock call)).
Proof.
  intros (stats & blocks & programCounts & E1 & E2 & E3 & ->)%takeSnapshot_fulfilled.
  by exists stats, blocks, programCounts.
Qed.
End MoreRules.

(** A block that emits one anomaly, under conditions that hold. *)
Ltac fires :=
  rewrite list_elem_of_singleton;
  split; [intros ->; by repeat split|];
  intros ?; repeat match goal with H : _ ∧ _ |- _ => destruct H end; done.

(** X1.  A returned snapshot reports [high_failure_rate] exactly when its
    own block summary has a success rate below 80 and more than 10
    transactions; the anomaly carries the two values, its severity is high
    when the rate is below 50 and medium otherwise, and there is at most
    one. *)
Theorem high_failure_rate_rule (R : Type) (N : JsNumber R) (st : Engine R)
    (call : Call R) (snapshot : NetworkSnapshot R) :
  (takeSnapshot st call).1 = Fulfilled snapshot →
  let bs := blockSummary snapshot in
  (∀ a, a ∈ anomalies snapshot ∧ a_type a = high_failure_rate ↔
     nlt (successRate bs) (lit 80) = true ∧ 10 < totalTransactions bs
     ∧ a = {| a_type := high_failure_rate;
              a_severity := if nlt (successRate bs) (lit 50) then high else medium;
              a_data := FailureData (successRate bs) (totalTransactions bs);
              a_timestamp := now_detect (c_clock call) |})
  ∧ length (of_type high_failure_rate (anomalies snapshot)) <= 1
  ∧ (totalTransactions bs <= 10 →
       of_type high_failure_rate (anomalies snapshot) = []).
Proof.
  intros (stats & blocks & programCounts & _ & _ & _ & _ & _ & _ & _ & ->)
    %takeSnapshot_fields bs.
  fold bs. setoid_rewrite <- elem_of_of_type.
  rewrite of_type_high_failure_rate. unfold highFailureRate.
  destruct (nlt (successRate bs) (lit 80)) eqn:Hrate; simpl.
  - destruct (Nat.ltb_spec 10 (totalTransactions bs)) as [Hn|Hn].
    + split; [|split; [simpl; lia|lia]].
      intros a. fires.
    + split; [|split; [simpl; lia|done]].
      intros a. rewrite elem_of_nil. split; [done|]. intros (_ & ? & _). lia.
  - split; [|split; [simpl; lia|done]].
    intros a. rewrite elem_of_nil. split; [done|]. by intros ([=] & _).
Qed.

(** X2.  A returned snapshot reports [large_block] exactly when its block
    summary averages more than 2000 transactions per block (severity high
    above 5000, low otherwise) and [empty_block] exactly when the average
    is below 5 and at least one block was analysed (severity medium).  In
    an arithmetic where a value below 5 is not above 2000 (exact
    arithmetic and binary64 are) a snapshot never reports both. *)
Theorem block_size_rules (R : Type) (N : JsNumber R) :
  (∀ r : R, nlt r (lit 5) = true → nlt (lit 2000) r = false) →
  ∀ (st : Engine R) (call : Call R) (snapshot : NetworkSnapshot R),
  (takeSnapshot st call).1 = Fulfilled snapshot →
  let bs := blockSummary snapshot in
  (∀ a, a ∈ anomalies snapshot ∧ a_type a = large_block ↔
     nlt (lit 2000) (avgTxPerBlock bs) = true
     ∧ a = {| a_type := large_block;
              a_severity := if nlt (lit 5000) (avgTxPerBlock bs) then high else low;
              a_data := BlockData (avgTxPerBlock bs);
              a_timestamp := now_detect (c_clock call) |})
  ∧ (∀ a, a ∈ anomalies snapshot ∧ a_type a = empty_block ↔
       nlt (avgTxPerBlock bs) (lit 5) = true ∧ 0 < blocksAnalyzed bs
       ∧ a = {| a_type := empty_block;
                a_severity := medium;
                a_data := BlockData (avgTxPerBlock bs);
                a_timestamp := now_detect (c_clock call) |})
  ∧ length (of_type large_block (anomalies snapshot))
    + length (of_type empty_block (anomalies snapshot)) <= 1.
Proof.
  intros Horder st call snapshot
    (stats & blocks & programCounts & _ & _ & _ & _ & _ & _ & _ & ->)
    %takeSnapshot_fields bs.
  fold bs. setoid_rewrite <- elem_of_of_type.
  rewrite of_type_large_block, of_type_empty_block.
  unfold largeBlock, emptyBlock.
  destruct (nlt (avgTxPerBlock bs) (lit 5)) eqn:Hsmall; simpl.
  - rewrite (Horder _ Hsmall).
    split; [|split].
    + intros a. rewrite elem_of_nil. split; [done|]. by intros ([=] & _).
    + intros a. destruct (Nat.ltb_spec 0 (blocksAnalyzed bs)).
      * fires.
      * rewrite elem_of_nil. split; [done|]. intros (_ & ? & _). lia.
    + destruct (0 <? _); simpl; lia.
  - split; [|split].
    + intros a. destruct (nlt (lit 2000) _).
      * fires.
      * rewrite elem_of_nil. split; [done|]. by intros ([=] & _).
    + intros a. rewrite elem_of_nil. split; [done|]. by intros ([=] & _).
    + destruct (nlt (lit 2000) _); simpl; lia.
Qed.

Lemma filter_all {A} (P : A → Prop) `{∀ x, Decision (P x)} (l : list A) :
  (∀ x, x ∈ l → P x) → filter P l = l.
Proof.
  intros Hl. induction l as [|x l IH]; [done|].
  rewrite filter_cons_True; [|by apply Hl; left].
  f_equal. apply IH. intros y Hy. apply Hl. by right.
Qed.

Section Warmup.
Context {R : Type} `{JsNumber R}.
Implicit Types (st : Engine R) (call : Call R) (calls : list (Call R)).

Lemma of_type_new_programs st stats bs top programCounts now :
  of_type new_program_detected (detectAnomalies st stats bs top programCounts now)
  = newPrograms st programCounts now.
Proof.
  unfold detectAnomalies. rewrite !of_type_app.
  rewrite (of_type_none _ (highFailureRate _ _)), (of_type_none _ (tpsAnomalies _ _ _)),
    (of_type_none _ (largeBlock _ _)), (of_type_none _ (emptyBlock _ _)),
    (of_type_none _ (programSurges _ _ _)).
  - rewrite app_nil_r. simpl. apply filter_all.
    intros a. apply newPrograms_type.
  - by intros a ->%programSurges_type.
  - by intros a ->%emptyBlock_type.
  - by intros a ->%largeBlock_type.
  - by intros a [->| ->]%tpsAnomalies_type.
  - by intros a ->%highFailureRate_type.
Qed.

Lemma of_type_surges st stats bs top programCounts now :
  of_type program_surge (detectAnomalies st stats bs top programCounts now)
  = programSurges st programCounts now.
Proof.
  unfold detectAnomalies. rewrite !of_type_app.
  rewrite (of_type_none _ (highFailureRate _ _)), (of_type_none _ (tpsAnomalies _ _ _)),
    (of_type_none _ (largeBlock _ _)), (of_type_none _ (emptyBlock _ _)),
    (of_type_none _ (newPrograms _ _ _)).
  - simpl. apply filter_all. intros a. apply programSurges_type.
  - by intros a ->%newPrograms_type.
  - by intros a ->%emptyBlock_type.
  - by intros a ->%largeBlock_type.
  - by intros a [->| ->]%tpsAnomalies_type.
  - by intros a ->%highFailureRate_type.
Qed.

Lemma baseline_run_none calls :
  omap callPoint calls = [] → baselineTps (run (newEngine (R:=R)) calls) = None.
Proof.
  assert (∀ st, baselineTps st = None → omap callPoint calls = [] →
            baselineTps (run st calls) = None) as Hgen.
  { induction calls as [|c calls IH]; intros st Hst Hnone; simpl; [done|].
    simpl in Hnone. destruct (callPoint c) as [p|] eqn:Hp; [done|].
    apply IH; [|done]. by rewrite baseline_step, Hp. }
  by apply Hgen.
Qed.

Lemma history_run_length calls :
  length (history (run (newEngine (R:=R)) calls))
  = length (omap callPoint calls) `min` maxHistoryLength.
Proof.
  rewrite (history_run newEngine calls []) by done.
  unfold slice_last. rewrite length_drop. simpl. unfold maxHistoryLength. lia.
Qed.
End Warmup.

(** X3.  Warm-up of a new engine.  With [n] the number of calls completed
    so far: the snapshot of the next call reports no throughput anomaly
    when [n = 0], no [program_surge] when [n <= 2] and no
    [new_program_detected] when [n <= 3], whatever was fetched. *)
Theorem warm_up (R : Type) (N : JsNumber R) (calls : list (Call R)) (call : Call R)
    (snapshot : NetworkSnapshot R) :
  (takeSnapshot (run newEngine calls) call).1 = Fulfilled snapshot →
  let n := length (omap callPoint calls) in
  (n = 0 → of_type tps_spike (anomalies snapshot) = []
           ∧ of_type tps_drop (anomalies snapshot) = [])
  ∧ (n <= 2 → of_type program_surge (anomalies snapshot) = [])
  ∧ (n <= 3 → of_type new_program_detected (anomalies snapshot) = []).
Proof.
  intros (stats & blocks & programCounts & _ & _ & _ & _ & _ & _ & _ & ->)
    %takeSnapshot_fields n.
  pose proof (history_run_length calls) as Hlen. fold n in Hlen.
  split; [|split].
  - intros Hn. rewrite !of_type_tps by auto.
    rewrite baseline_run_none; [done|]. by apply nil_length_inv.
  - intros Hn. rewrite of_type_surges. unfold programSurges.
    destruct (Nat.ltb_spec 2 (length (history (run newEngine calls)))); [lia|done].
  - intros Hn. rewrite of_type_new_programs. unfold newPrograms.
    destruct (Nat.ltb_spec 3 (length (history (run newEngine calls)))); [lia|done].
Qed.

(** X4.  The empty window.  In an arithmetic where 0 is not above 2000, a
    call that fetched no block returns the all-zero block summary and
    none of the three summary-based anomalies ([high_failure_rate],
    [large_block], [empty_block]), on every engine. *)
Theorem empty_window_quiet (R : Type) (N : JsNumber R) (st : Engine R) (call : Call R)
    (snapshot : NetworkSnapshot R) :
  nlt (lit 2000) (lit (R:=R) 0) = false →
  (takeSnapshot st call).1 = Fulfilled snapshot →
  getRecentBlockProduction (c_client call) (c_numBlocks call) = Fulfilled [] →
  blockSummary snapshot
  = {| blocksAnalyzed := 0; totalTransactions := 0; successRate := lit 0;
       avgTxPerBlock := lit 0; avgFeePerTx := lit 0 |}
  ∧ of_type high_failure_rate (anomalies snapshot) = []
  ∧ of_type large_block (anomalies snapshot) = []
  ∧ of_type empty_block (anomalies snapshot) = [].
Proof.
  intros Hzero
    (stats & blocks & programCounts & _ & E2 & _ & _ & Hbs & _ & _ & ->)
    %takeSnapshot_fields Hblocks.
  assert (blocks = []) as -> by congruence.
  rewrite of_type_high_failure_rate, of_type_large_block, of_type_empty_block, Hbs.
  split; [done|].
  unfold highFailureRate, largeBlock, emptyBlock. simpl.
  rewrite Hzero, !andb_false_r. done.
Qed.

Section SurgeFacts.
Context {R : Type} `{JsNumber R}.
Implicit Types (st : Engine R) (programCounts : JsMap) (a : Anomaly R).

(** What every anomaly of the surge block says. *)
Lemma programSurges_inv st programCounts now a :
  a ∈ programSurges st programCounts now →
  ∃ lastSnapshot programId count,
    2 < length (history st)
    ∧ last (history st) = Some lastSnapshot
    ∧ (programId, count) ∈ programCounts
    ∧ 5 < default 0 (map_get programId (h_programCounts lastSnapshot))
    ∧ default 0 (map_get programId (h_programCounts lastSnapshot)) * 3 < count
    ∧ a = {| a_type := program_surge;
             a_severity :=
               if default 0 (map_get programId (h_programCounts lastSnapshot)) * 10
                  <? count
               then high else medium;
             a_data :=
               SurgeData programId
                 (default 0 (map_get programId (h_programCounts lastSnapshot))) count;
             a_timestamp := now |}.
Proof.
  unfold programSurges.
  destruct (Nat.ltb_spec 2 (length (history st))) as [Hlen|]; [|by intros ?%elem_of_nil].
  destruct (last (history st)) as [lastSnapshot|]; [|by intros ?%elem_of_nil].
  intros ([programId count] & Hin & Ha)%list_elem_of_omap.
  exists lastSnapshot, programId, count. unfold surgeAnomaly in Ha.
  destruct (Nat.ltb_spec 5 (default 0 (map_get programId (h_programCounts lastSnapshot))));
    [|done].
  destruct (Nat.ltb_spec
              (default 0 (map_get programId (h_programCounts lastSnapshot)) * 3) count);
    [|done].
  simpl in Ha. by injection Ha as <-.
Qed.

Lemma last_slice_last {A} (n : nat) (l : list A) x :
  0 < n → last l = Some x → x ∈ slice_last n l.
Proof.
  intros Hn Hl. unfold slice_last. rewrite last_lookup in Hl.
  apply list_elem_of_lookup. exists (pred (length l) - (length l - n)).
  rewrite lookup_drop. rewrite <- Hl. f_equal.
  assert (0 < length l); [|lia].
  destruct l; [done|simpl; lia].
Qed.
End SurgeFacts.

(** X5.  Every [program_surge] of a returned snapshot is about an
    identifier that the most recent history entry counts at least 6 times
    and this round at least 19 times (at least 61 times when the severity
    is high); and no identifier is reported both as [new_program_detected]
    and as [program_surge] in one snapshot. *)
Theorem program_surge_bounds (R : Type) (N : JsNumber R) (st : Engine R) (call : Call R)
    (snapshot : NetworkSnapshot R) :
  (takeSnapshot st call).1 = Fulfilled snapshot →
  (∀ a, a ∈ anomalies snapshot → a_type a = program_surge →
     ∃ lastSnapshot programId previousCount currentCount,
       last (history st) = Some lastSnapshot
       ∧ a_data a = SurgeData programId previousCount currentCount
       ∧ map_get programId (h_programCounts lastSnapshot) = Some previousCount
       ∧ 6 <= previousCount ∧ 19 <= currentCount
       ∧ (a_severity a = high → 61 <= currentCount))
  ∧ (∀ programId,
       anomalies_for new_program_detected programId (anomalies snapshot) = []
       ∨ anomalies_for program_surge programId (anomalies snapshot) = []).
Proof.
  intros (stats & blocks & programCounts & _ & _ & _ & _ & _ & _ & _ & ->)
    %takeSnapshot_fields.
  split.
  - intros a Ha Ht.
    assert (a ∈ programSurges st programCounts (now_detect (c_clock call))) as Hs.
    { erewrite <- of_type_surges. by apply elem_of_of_type. }
    apply programSurges_inv in Hs
      as (lastSnapshot & programId & count & _ & Hlast & _ & H5 & H3 & ->).
    exists lastSnapshot, programId,
      (default 0 (map_get programId (h_programCounts lastSnapshot))), count.
    destruct (map_get programId (h_programCounts lastSnapshot)) as [prev|];
      simpl in *; [|lia].
    repeat split; try done; try lia.
    destruct (Nat.ltb_spec (prev * 10) count); [lia|done].
  - intros programId. rewrite anomalies_for_new, anomalies_for_surge.
    destruct (anomalies_for new_program_detected _ _) as [|a l] eqn:Enew; [by left|].
    right.
    destruct (anomalies_for program_surge _ _) as [|b l'] eqn:Esurge; [done|].
    assert (a ∈ a :: l) as Ha by left. rewrite <- Enew in Ha.
    assert (b ∈ b :: l') as Hb by left. rewrite <- Esurge in Hb.
    apply elem_of_newPrograms in Ha as (_ & _ & Hprev & _).
    apply elem_of_anomalies_for in Hb as (Hb & _ & Hid).
    apply programSurges_inv in Hb
      as (lastSnapshot & programId' & count & _ & Hlast & _ & H5 & _ & ->).
    injection Hid as ->.
    destruct (Hprev lastSnapshot); [by apply last_slice_last; [lia|]|].
    apply map_get_keys.
    destruct (map_get programId (h_programCounts lastSnapshot)); [done|simpl in H5; lia].
Qed.

Section KnownSet.
Context {R : Type} `{JsNumber R}.
Implicit Types (st : Engine R) (call : Call R) (calls : list (Call R)).

Lemma knownPrograms_run_iff st calls programId :
  programId ∈ knownPrograms (run st calls)
  ↔ programId ∈ knownPrograms st
    ∨ ∃ call p, call ∈ calls ∧ callPoint call = Some p
        ∧ programId ∈ map_keys (h_programCounts p).
Proof.
  revert st. induction calls as [|c calls IH]; intros st; simpl.
  - split; [by left|]. intros [?|(? & ? & ?%elem_of_nil & _)]; done.
  - rewrite IH, knownPrograms_step. split.
    + intros [[?|(p & ? & ?)]|(c' & p & ? & ? & ?)]; [by left|right..].
      * exists c, p. by rewrite elem_of_cons; auto.
      * exists c', p. by rewrite elem_of_cons; auto.
    + intros [?|(c' & p & [->|?]%elem_of_cons & ? & ?)]; [by auto|left|right].
      * right. by exists p.
      * by exists c', p.
Qed.
End KnownSet.

(** X6.  The known-identifier set of an engine is exactly the set of
    identifiers counted by the calls completed since it was created: an
    identifier enters with the first completed call that counts it and is
    never dropped, also when the history has long evicted that call. *)
Theorem knownPrograms_exact (R : Type) (N : JsNumber R) (calls : list (Call R))
    (programId : string) :
  programId ∈ knownPrograms (run newEngine calls)
  ↔ ∃ call p, call ∈ calls ∧ callPoint call = Some p
      ∧ programId ∈ map_keys (h_programCounts p).
Proof.
  rewrite knownPrograms_run_iff. simpl. rewrite elem_of_empty. tauto.
Qed.

(** ** The baseline as a moving average *)

Lemma ewma_between (lo hi b t : Q) :
  (lo <= b)%Q → (b <= hi)%Q → (lo <= t)%Q → (t <= hi)%Q →
  (lo <= b * 0.9 + t * 0.1)%Q ∧ (b * 0.9 + t * 0.1 <= hi)%Q.
Proof. intros. split; lra. Qed.

Lemma baseline_run_between (lo hi : Q) (calls : list (Call Q)) (st : Engine Q) :
  (∀ b, baselineTps st = Some b → (lo <= b)%Q ∧ (b <= hi)%Q) →
  (∀ call p, call ∈ calls → callPoint call = Some p →
     (lo <= h_tps p)%Q ∧ (h_tps p <= hi)%Q) →
  ∀ b, baselineTps (run st calls) = Some b → (lo <= b)%Q ∧ (b <= hi)%Q.
Proof.
  revert st. induction calls as [|c calls IH]; intros st Hst Hcalls; simpl; [done|].
  apply IH.
  - intros b. rewrite baseline_step.
    destruct (callPoint c) as [p|] eqn:Hp; [|apply Hst].
    destruct (Hcalls c p) as [Hlo Hhi]; [by left|done|].
    destruct (baselineTps st) as [b0|]; simpl.
    + intros [= <-]. destruct (Hst b0 eq_refl). by apply ewma_between.
    + by intros [= <-].
  - intros call p Hin. apply Hcalls. by right.
Qed.

Lemma baseline_run_fold {R} `{JsNumber R} (st : Engine R) (calls : list (Call R)) :
  baselineTps (run st calls)
  = foldl updateBaseline (baselineTps st) (h_tps <$> omap callPoint calls).
Proof.
  revert st. induction calls as [|c calls IH]; intros st; simpl; [done|].
  rewrite IH, baseline_step. csimpl. by destruct (callPoint c).
Qed.

(** X7.  In every arithmetic the baseline of an engine depends only on the
    throughputs that its completed calls observed, in order: it is their
    fold under the update [b * 0.9 + t * 0.1], started by the first one;
    failed calls and everything else that was fetched play no part.  In
    exact arithmetic an update leaves the distance to the observation at
    nine tenths of what it was, so that the baseline stays between the
    smallest and the largest observation.  Binary64 rounds: there the
    baseline can leave that interval, and two observations of 13 leave it
    at 13.000000000000002. *)
Theorem baseline_moving_average :
  (∀ (R : Type) (N : JsNumber R) (st : Engine R) (calls : list (Call R)),
     baselineTps (run st calls)
     = foldl updateBaseline (baselineTps st) (h_tps <$> omap callPoint calls))
  ∧ (∀ b t : Q,
       ∃ b', updateBaseline (R:=Q) (Some b) t = Some b'
         ∧ (b' - t == 0.9 * (b - t))%Q
         ∧ ((b <= t)%Q → (b <= b')%Q ∧ (b' <= t)%Q)
         ∧ ((t <= b)%Q → (t <= b')%Q ∧ (b' <= b)%Q))
  ∧ (∀ (lo hi : Q) (calls : list (Call Q)),
       (∀ call p, call ∈ calls → callPoint call = Some p →
          (lo <= h_tps p)%Q ∧ (h_tps p <= hi)%Q) →
       ∀ b, baselineTps (run newEngine calls) = Some b → (lo <= b)%Q ∧ (b <= hi)%Q)
  ∧ (∃ b, baselineTps (run (newEngine (R:=float)) [roundOf 13 [] 0; roundOf 13 [] 1])
          = Some b
          ∧ b = 0x1.a000000000001p+3%float
          ∧ PrimFloat.ltb 13 b = true).
Proof.
  split; [|split; [|split]].
  - intros R N st calls. apply baseline_run_fold.
  - intros b t. eexists. split; [reflexivity|]. simpl.
    split; [ring|]. split; intros; split; lra.
  - intros lo hi calls Hcalls. by apply baseline_run_between.
  - eexists. split; [by vm_compute|]. split; by vm_compute.
Qed.

(** ** The snapshot as a whole *)

Lemma length_omap_le {A B} (f : A → option B) (l : list A) :
  length (omap f l) <= length l.
Proof. induction l as [|x l IH]; csimpl; [lia|]. destruct (f x); csimpl; lia. Qed.

Section SnapshotShape.
Context {R : Type} `{JsNumber R}.
Implicit Types (st : Engine R) (programCounts : JsMap) (a : Anomaly R).

Lemma newPrograms_inv st programCounts now a :
  a ∈ newPrograms st programCounts now →
  ∃ programId, a = newProgramAnomaly programCounts now programId.
Proof.
  unfold newPrograms. destruct (3 <? _); [|by intros ?%elem_of_nil].
  intros (programId & -> & _)%list_elem_of_fmap. by exists programId.
Qed.

Lemma detectAnomalies_timestamp st stats bs top programCounts now a :
  a ∈ detectAnomalies st stats bs top programCounts now → a_timestamp a = now.
Proof.
  intros [Ha|[Ha|[Ha|[Ha|[Ha|Ha]]]]]%detectAnomalies_elem.
  - unfold highFailureRate in Ha. destruct (_ && _); [|by apply elem_of_nil in Ha].
    by apply list_elem_of_singleton in Ha as ->.
  - unfold tpsAnomalies in Ha.
    destruct (baselineTps st) as [b|]; [|by apply elem_of_nil in Ha].
    destruct (nlt (lit 0) b); [|by apply elem_of_nil in Ha].
    destruct (nlt (lit 2) _); [by apply list_elem_of_singleton in Ha as ->|].
    destruct (_ && _); [|by apply elem_of_nil in Ha].
    by apply list_elem_of_singleton in Ha as ->.
  - unfold largeBlock in Ha. destruct (nlt _ _); [|by apply elem_of_nil in Ha].
    by apply list_elem_of_singleton in Ha as ->.
  - unfold emptyBlock in Ha. destruct (_ && _); [|by apply elem_of_nil in Ha].
    by apply list_elem_of_singleton in Ha as ->.
  - by apply newPrograms_inv in Ha as (programId & ->).
  - by apply programSurges_inv in Ha as (? & ? & ? & _ & _ & _ & _ & _ & ->).
Qed.

Lemma detectAnomalies_length st stats bs top programCounts now :
  length (detectAnomalies st stats bs top programCounts now)
  <= 4 + 2 * length programCounts.
Proof.
  unfold detectAnomalies. rewrite !length_app.
  assert (length (highFailureRate bs now) <= 1).
  { unfold highFailureRate. destruct (_ && _); simpl; lia. }
  assert (length (tpsAnomalies (baselineTps st) stats now) <= 1).
  { unfold tpsAnomalies. destruct (baselineTps st) as [b|]; [|simpl; lia].
    destruct (nlt (lit 0) b); [|simpl; lia].
    destruct (nlt (lit 2) _); [simpl; lia|]. destruct (_ && _); simpl; lia. }
  assert (length (largeBlock bs now) <= 1).
  { unfold largeBlock. destruct (nlt _ _); simpl; lia. }
  assert (length (emptyBlock bs now) <= 1).
  { unfold emptyBlock. destruct (_ && _); simpl; lia. }
  assert (length (newPrograms st programCounts now) <= length programCounts).
  { unfold newPrograms. destruct (3 <? _); [|simpl; lia].
    rewrite length_fmap. etrans; [apply length_filter|].
    unfold map_keys. by rewrite length_fmap. }
  assert (length (programSurges st programCounts now) <= length programCounts).
  { unfold programSurges. destruct (2 <? _); [|simpl; lia].
    destruct (last _) as [lastSnapshot|]; [|simpl; lia]. apply length_omap_le. }
  lia.
Qed.

Lemma last_pushHistory (hist : list (HistoricalDataPoint R)) p :
  last (pushHistory hist p) = Some p.
Proof.
  unfold pushHistory, maxHistoryLength.
  destruct (Nat.ltb_spec 100 (length (hist ++ [p]))) as [Hlen|]; [|by rewrite last_snoc].
  destruct hist as [|h hist]; simpl in *; [lia|]. by rewrite last_snoc.
Qed.
End SnapshotShape.

(** X8.  A returned snapshot holds at most [4 + 2 n] anomalies for [n]
    fetched identifiers, and every one of them carries the time read at
    the start of the anomaly evaluation. *)
Theorem anomalies_bounded (R : Type) (N : JsNumber R) (st : Engine R) (call : Call R)
    (snapshot : NetworkSnapshot R) (programCounts : JsMap) :
  (takeSnapshot st call).1 = Fulfilled snapshot →
  getTopProgramsFromRecentBlocks (c_client call) (c_numBlocks call)
    = Fulfilled programCounts →
  length (anomalies snapshot) <= 4 + 2 * length programCounts
  ∧ ∀ a, a ∈ anomalies snapshot → a_timestamp a = now_detect (c_clock call).
Proof.
  intros (stats & blocks & programCounts' & _ & _ & E3 & _ & _ & _ & _ & ->)
    %takeSnapshot_fields Hcounts.
  assert (programCounts' = programCounts) as -> by congruence.
  split; [apply detectAnomalies_length|].
  intros a. apply detectAnomalies_timestamp.
Qed.

(** X9.  After a completed call the newest history entry mirrors the
    snapshot that was returned: same throughput, transaction total and
    success rate, and the snapshot's ranking is the ranking of the
    entry's invocation counts; this also holds when the push evicted the
    oldest entry. *)
Theorem newest_entry_mirrors_snapshot (R : Type) (N : JsNumber R) (st : Engine R)
    (call : Call R) (snapshot : NetworkSnapshot R) :
  (takeSnapshot st call).1 = Fulfilled snapshot →
  ∃ p, last (history (takeSnapshot st call).2) = Some p
    ∧ callPoint call = Some p
    ∧ h_timestamp p = now_history (c_clock call)
    ∧ h_tps p = tps (s_stats snapshot)
    ∧ h_txCount p = totalTransactions (blockSummary snapshot)
    ∧ h_successRate p = successRate (blockSummary snapshot)
    ∧ topPrograms snapshot = rankPrograms (h_programCounts p).
Proof.
  intros (stats & blocks & programCounts & E1 & E2 & E3 & -> & Hbs & Htop & _)
    %takeSnapshot_fields.
  pose proof (takeSnapshot_state st call) as Hs.
  unfold callPoint in *. rewrite E1, E2, E3 in *.
  destruct Hs as (Hh & _ & _). eexists. split; [by rewrite Hh, last_pushHistory|].
  split; [done|]. by rewrite Hbs, Htop.
Qed.

(** ** The rules at sample rounds *)

(** One block of 100 transactions, 40 of them successful: a rate of 40,
    below 50, hence a high-severity report. *)
Lemma high_failure_rate_rule_witness :
  ∃ snapshot,
    (takeSnapshot (newEngine (R:=float))
       (callOf (statsOf 100%float) [blockOf 100 40] [] (clockAt 7))).1
    = Fulfilled snapshot
    ∧ {| a_type := high_failure_rate; a_severity := high;
         a_data := FailureData 40%float 100; a_timestamp := 7 |}
      ∈ anomalies snapshot.
Proof.
  eexists. split; [reflexivity|].
  refine (proj1 (proj2 (proj1 (high_failure_rate_rule float _ newEngine
                                 (callOf (statsOf 100%float) [blockOf 100 40] []
                                    (clockAt 7)) _ eq_refl) _) _)).
  split; [reflexivity|]. split; [cbn; lia|reflexivity].
Defined.

(** One block of 3000 transactions: a low-severity [large_block]. *)
Lemma block_size_rules_witness :
  ∃ snapshot,
    (takeSnapshot (newEngine (R:=float))
       (callOf (statsOf 100%float) [blockOf 3000 3000] [] (clockAt 7))).1
    = Fulfilled snapshot
    ∧ {| a_type := large_block; a_severity := low;
         a_data := BlockData 3000%float; a_timestamp := 7 |}
      ∈ anomalies snapshot.
Proof.
  eexists. split; [reflexivity|].
  refine (proj1 (proj2 (proj1 (block_size_rules float _ f64_small_excludes_large
                                 newEngine
                                 (callOf (statsOf 100%float) [blockOf 3000 3000] []
                                    (clockAt 7)) _ eq_refl) _) _)).
  split; reflexivity.
Defined.

(** The fourth round of an engine reports no new identifier, although Y has
    never been counted. *)
Lemma warm_up_witness :
  ∃ snapshot,
    (takeSnapshot (run (newEngine (R:=float)) roundsBeforeSurge)
       (roundOf 100 [("Y"%string, 5)] 3)).1 = Fulfilled snapshot
    ∧ of_type new_program_detected (anomalies snapshot) = [].
Proof.
  eexists. split; [reflexivity|].
  refine (proj2 (proj2 (warm_up float _ roundsBeforeSurge
                          (roundOf 100 [("Y"%string, 5)] 3) _ eq_refl)) _).
  vm_compute. lia.
Defined.

(** A round whose block window is empty. *)
Lemma empty_window_quiet_witness :
  ∃ snapshot,
    (takeSnapshot (newEngine (R:=float))
       (callOf (statsOf 100%float) [] [] (clockAt 7))).1 = Fulfilled snapshot
    ∧ of_type empty_block (anomalies snapshot) = [].
Proof.
  eexists. split; [reflexivity|].
  exact (proj2 (proj2 (proj2 (empty_window_quiet float _ newEngine
                                (callOf (statsOf 100%float) [] [] (clockAt 7)) _
                                eq_refl eq_refl eq_refl)))).
Defined.

(** Previous count 10, current count 35. *)
Lemma program_surge_bounds_witness :
  ∃ snapshot,
    (takeSnapshot (run (newEngine (R:=float)) roundsBeforeSurge)
       (roundOf 100 [("X"%string, 35)] 3)).1 = Fulfilled snapshot
    ∧ ∀ programId,
        anomalies_for new_program_detected programId (anomalies snapshot) = []
        ∨ anomalies_for program_surge programId (anomalies snapshot) = [].
Proof.
  eexists. split; [reflexivity|].
  exact (proj2 (program_surge_bounds float _ (run newEngine roundsBeforeSurge)
                  (roundOf 100 [("X"%string, 35)] 3) _ eq_refl)).
Defined.

(** The eighth round of [roundsWithX] counts two identifiers. *)
Lemma anomalies_bounded_witness :
  ∃ snapshot,
    (takeSnapshot (run (newEngine (R:=float)) roundsWithX) roundXY).1
    = Fulfilled snapshot
    ∧ length (anomalies snapshot) <= 8.
Proof.
  eexists. split; [reflexivity|].
  exact (proj1 (anomalies_bounded float _ (run newEngine roundsWithX) roundXY _
                  [("X"%string, 1); ("Y"%string, 2)] eq_refl eq_refl)).
Defined.

Lemma newest_entry_mirrors_snapshot_witness :
  ∃ snapshot p,
    (takeSnapshot (run (newEngine (R:=float)) roundsWithX) roundXY).1
    = Fulfilled snapshot
    ∧ last (history (takeSnapshot (run newEngine roundsWithX) roundXY).2) = Some p
    ∧ h_tps p = tps (s_stats snapshot)
    ∧ topPrograms snapshot = rankPrograms (h_programCounts p).
Proof.
  destruct (newest_entry_mirrors_snapshot float _ (run newEngine roundsWithX) roundXY _
              eq_refl) as (p & Hlast & _ & _ & Htps & _ & _ & Htop).
  eexists _, p. split; [reflexivity|]. by repeat split.
Defined.

(** ** Strings *)

Lemma string_length_app (s t : string) :
  String.length (s +:+ t) = String.length s + String.length t.
Proof. induction s as [|c s IH]; simpl; [done|by rewrite IH]. Qed.

Lemma string_length_substring (n m : nat) (s : string) :
  String.length (String.substring n m s) = Nat.min m (String.length s - n).
Proof.
  revert n m. induction s as [|c s IH]; intros [|n] [|m]; simpl; try done.
  all: rewrite IH; lia.
Qed.

Lemma substring_all (s : string) : String.substring 0 (String.length s) s = s.
Proof. induction s as [|c s IH]; simpl; [done|by rewrite IH]. Qed.

Lemma substring_none (n : nat) (s : string) : String.substring n 0 s = EmptyString.
Proof. revert s. induction n as [|n IH]; intros [|c s]; simpl; auto. Qed.

Lemma substring_all_eq (m : nat) (s : string) :
  String.length s = m → String.substring 0 m s = s.
Proof. intros <-. apply substring_all. Qed.

Lemma substring_app_l (n m : nat) (s t : string) :
  n + m <= String.length s →
  String.substring n m (s +:+ t) = String.substring n m s.
Proof.
  revert n m. induction s as [|c s IH]; intros n m Hlen; simpl in *.
  - assert (n = 0 ∧ m = 0) as [-> ->] by lia. by destruct t.
  - destruct n as [|n], m as [|m]; try done.
    + f_equal. apply (IH 0 m). lia.
    + apply IH. lia.
    + apply IH. lia.
Qed.

Lemma substring_app_r (n m : nat) (s t : string) :
  String.substring (String.length s + n) m (s +:+ t) = String.substring n m t.
Proof. induction s as [|c s IH]; simpl; [done|apply IH]. Qed.

Lemma substring_prefix_app (m : nat) (s t : string) :
  String.length s = m → String.substring 0 m (s +:+ t) = s.
Proof.
  intros <-. rewrite substring_app_l by (simpl; lia). apply substring_all.
Qed.

Lemma length_spaces (n : nat) : String.length (spaces n) = n.
Proof. induction n; simpl; congruence. Qed.

(** X10.  [shortenAddress] leaves an address of at most 11 characters as it
    is and turns a longer one into 11 characters: its first four, three
    dots, its last four.  The result is never longer than 11 characters,
    and shortening twice is shortening once. *)
Theorem shortenAddress_spec (address : string) :
  String.length (shortenAddress address) = Nat.min (String.length address) 11
  ∧ (String.length address <= 11 → shortenAddress address = address)
  ∧ (11 < String.length address →
       String.substring 0 4 (shortenAddress address) = String.substring 0 4 address
       ∧ String.substring 4 3 (shortenAddress address) = "..."%string
       ∧ String.substring 7 4 (shortenAddress address)
         = String.substring (String.length address - 4) 4 address)
  ∧ shortenAddress (shortenAddress address) = shortenAddress address.
Proof.
  assert (∀ a, String.length a <= 11 → shortenAddress a = a) as Hshort.
  { intros a Ha. unfold shortenAddress.
    by destruct (Nat.leb_spec (String.length a) 11); [|lia]. }
  assert (String.length (shortenAddress address)
          = Nat.min (String.length address) 11) as Hlen.
  { unfold shortenAddress. destruct (Nat.leb_spec (String.length address) 11); [lia|].
    change (?s ++ ?t)%string with (s +:+ t).
    rewrite !string_length_app, !string_length_substring.
    change (String.length "...") with 3. lia. }
  split; [done|]. split; [apply Hshort|]. split; [|apply Hshort; lia].
  intros Hlong. unfold shortenAddress.
  destruct (Nat.leb_spec (String.length address) 11); [lia|].
  change (?s ++ ?t)%string with (s +:+ t).
  set (front := String.substring 0 4 address).
  set (back := String.substring (String.length address - 4) 4 address).
  assert (String.length front = 4) as Hfront.
  { unfold front. rewrite string_length_substring. lia. }
  assert (String.length back = 4) as Hback.
  { unfold back. rewrite string_length_substring. lia. }
  split; [by apply substring_prefix_app|].
  split.
  - rewrite <- (Nat.add_0_r 4), <- Hfront at 1. rewrite substring_app_r.
    by apply (substring_prefix_app 3 "...").
  - change 7 with (4 + 3) at 1. rewrite <- Hfront at 1. rewrite substring_app_r.
    change 3 with (String.length "..." + 0) at 1. rewrite substring_app_r.
    rewrite <- Hback at 1. apply substring_all.
Qed.

(** ** The label directory *)

Lemma record_get_elem (k v : string) (tbl : list (string * string)) :
  record_get k tbl = Some v → (k, v) ∈ tbl.
Proof.
  induction tbl as [|[k' v'] tbl IH]; simpl; [done|].
  destruct (String.eqb_spec k' k) as [->|_].
  - intros [= ->]. left.
  - intros ?. right. auto.
Qed.

Lemma categorize_in_cases (programId : string) (cats : list (string * list string)) :
  categorize_in programId cats = "Other"%string
  ∨ ∃ programs, (categorize_in programId cats, programs) ∈ cats ∧ programId ∈ programs.
Proof.
  induction cats as [|[category programs] cats IH]; simpl; [by left|].
  destruct (existsb (String.eqb programId) programs) eqn:Hin.
  - right. exists programs. split; [left|].
    apply existsb_exists in Hin as (x & Hx & ->%String.eqb_eq).
    by apply list_elem_of_In.
  - destruct IH as [->|(ps & ? & ?)]; [by left|].
    right. exists ps. split; [by right|done].
Qed.

Lemma inherited_names_unlabelled (name : string) :
  name ∈ OBJECT_PROTOTYPE_NAMES → record_get name KNOWN_PROGRAMS = None.
Proof.
  unfold OBJECT_PROTOTYPE_NAMES. intros Hin.
  repeat (apply elem_of_cons in Hin as [->|Hin]; [done|]).
  by apply elem_of_nil in Hin.
Qed.

Lemma inherited_name_spec (programId : string) :
  existsb (String.eqb programId) OBJECT_PROTOTYPE_NAMES = true
  ↔ programId ∈ OBJECT_PROTOTYPE_NAMES.
Proof.
  rewrite existsb_exists. split.
  - intros (x & Hx & ->%String.eqb_eq). by apply list_elem_of_In.
  - intros Hin. exists programId. split; [by apply list_elem_of_In|].
    apply String.eqb_refl.
Qed.

Lemma getProgramLabel_cases (programId : string) :
  (∃ name, record_get programId KNOWN_PROGRAMS = Some name
     ∧ getProgramLabel programId = LabelText name)
  ∨ (record_get programId KNOWN_PROGRAMS = None
     ∧ programId ∈ OBJECT_PROTOTYPE_NAMES
     ∧ getProgramLabel programId = LabelInherited programId)
  ∨ (record_get programId KNOWN_PROGRAMS = None
     ∧ (programId ∉ OBJECT_PROTOTYPE_NAMES)
     ∧ getProgramLabel programId = LabelText (shortenAddress programId)).
Proof.
  unfold getProgramLabel.
  destruct (record_get programId KNOWN_PROGRAMS) as [name|]; [by left; eauto|].
  right. pose proof (inherited_name_spec programId) as Hspec.
  destruct (existsb (String.eqb programId) OBJECT_PROTOTYPE_NAMES).
  - left. split; [done|]. split; [by apply Hspec|done].
  - right. split; [done|]. split; [|done]. intros Hin%Hspec. done.
Qed.

(** X11.  [categorizeProgram] answers one of six names, and every
    identifier it puts in a category other than "Other" has a label in
    [KNOWN_PROGRAMS], which [getProgramLabel] returns.  An identifier
    without a label is always in category "Other"; [getProgramLabel]
    returns it shortened, unless it is the name of a member that the table
    inherits as a plain object ("constructor", "toString", ...): then it
    returns that member, which is not a text.  No label of the table is
    hidden by an inherited member or hides one. *)
Theorem categorized_programs_are_labelled (programId : string) :
  categorizeProgram programId
    ∈ ["Core"; "Token"; "DEX"; "NFT"; "DeFi"; "Other"]%string
  ∧ (categorizeProgram programId ≠ "Other"%string →
       ∃ name, record_get programId KNOWN_PROGRAMS = Some name
         ∧ getProgramLabel programId = LabelText name)
  ∧ (record_get programId KNOWN_PROGRAMS = None →
       categorizeProgram programId = "Other"%string
       ∧ (programId ∉ OBJECT_PROTOTYPE_NAMES →
            getProgramLabel programId = LabelText (shortenAddress programId))
       ∧ (programId ∈ OBJECT_PROTOTYPE_NAMES →
            getProgramLabel programId = LabelInherited programId))
  ∧ (programId ∈ OBJECT_PROTOTYPE_NAMES →
       record_get programId KNOWN_PROGRAMS = None
       ∧ getProgramLabel programId = LabelInherited programId
       ∧ categorizeProgram programId = "Other"%string)
  ∧ (∀ name, getProgramLabel programId = LabelInherited name →
       name = programId ∧ programId ∈ OBJECT_PROTOTYPE_NAMES).
Proof.
  assert (categorizeProgram programId = "Other"%string
          ∨ ∃ name, record_get programId KNOWN_PROGRAMS = Some name) as Hcases.
  { unfold categorizeProgram.
    destruct (categorize_in_cases programId PROGRAM_CATEGORIES)
      as [?|(programs & Hcat & Hid)]; [by left|right].
    revert Hcat Hid. generalize (categorize_in programId PROGRAM_CATEGORIES).
    intros category Hcat Hid. unfold PROGRAM_CATEGORIES in Hcat.
    repeat (apply elem_of_cons in Hcat as [[= -> ->]|Hcat];
            [repeat (apply elem_of_cons in Hid as [->|Hid]; [by eexists|]);
             by apply elem_of_nil in Hid|]).
    by apply elem_of_nil in Hcat. }
  assert (record_get programId KNOWN_PROGRAMS = None →
          categorizeProgram programId = "Other"%string) as Hother.
  { intros Hnone. destruct Hcases as [?|[name Hname]]; [done|congruence]. }
  pose proof (getProgramLabel_cases programId) as Hlabel.
  split; [|split; [|split; [|split]]].
  - unfold categorizeProgram.
    destruct (categorize_in_cases programId PROGRAM_CATEGORIES)
      as [->|(programs & Hcat & _)]; [set_unfold; tauto|].
    revert Hcat. generalize (categorize_in programId PROGRAM_CATEGORIES).
    intros category Hcat. unfold PROGRAM_CATEGORIES in Hcat.
    repeat (apply elem_of_cons in Hcat as [[= -> _]|Hcat]; [set_unfold; tauto|]).
    by apply elem_of_nil in Hcat.
  - intros Hne. destruct Hcases as [?|[name Hname]]; [done|].
    exists name. split; [done|]. unfold getProgramLabel. by rewrite Hname.
  - intros Hnone. split; [by apply Hother|].
    destruct Hlabel as [(name & Hname & _)|[(_ & Hin & Hl)|(_ & Hout & Hl)]];
      [congruence| |]; split; done.
  - intros Hin. pose proof (inherited_names_unlabelled _ Hin) as Hnone.
    split; [done|]. split; [|by apply Hother].
    destruct Hlabel as [(name & Hname & _)|[(_ & _ & Hl)|(_ & Hout & _)]];
      [congruence|done|done].
  - intros name Hname.
    destruct Hlabel as [(? & _ & Hl)|[(_ & Hin & Hl)|(_ & _ & Hl)]];
      rewrite Hl in Hname; [done| |done].
    by injection Hname as <-.
Qed.

Lemma getProgramLabel_length (programId text : string) :
  getProgramLabel programId = LabelText text → String.length text <= 24.
Proof.
  destruct (getProgramLabel_cases programId)
    as [(name & Hname & ->)|[(_ & _ & ->)|(_ & _ & ->)]]; [|done|].
  - intros [= <-]. apply record_get_elem in Hname.
    assert (Forall (fun entry => String.length entry.2 <= 24) KNOWN_PROGRAMS) as Hall.
    { unfold KNOWN_PROGRAMS. repeat (constructor; [simpl; lia|]). constructor. }
    by apply (proj1 (Forall_forall _ _) Hall (programId, name)).
  - intros [= <-]. unfold shortenAddress.
    destruct (Nat.leb_spec (String.length programId) 11); [lia|].
    rewrite !string_length_app, !string_length_substring.
    change (String.length "...") with 3. lia.
Qed.

Lemma displayLabel_fits (text : string) :
  String.length text <= 28 → displayLabel (LabelText text) = LabelText text.
Proof.
  intros Htext. unfold displayLabel.
  by destruct (Nat.ltb_spec 28 (String.length text)); [lia|].
Qed.

Lemma displayLabel_getProgramLabel (programId : string) :
  displayLabel (getProgramLabel programId) = getProgramLabel programId.
Proof.
  destruct (getProgramLabel programId) as [text|name] eqn:Hlabel; [|done].
  apply displayLabel_fits. apply getProgramLabel_length in Hlabel. lia.
Qed.

(** X12.  The label column of the dashboard's ranking table shows at most
    28 characters of a text: a longer one is cut to 25 characters and
    three dots; a label that is an inherited member is passed on as it is.
    No text that [getProgramLabel] produces is longer than 24 characters,
    so the ranking table never cuts a label of a ranking. *)
Theorem displayLabel_spec :
  (∀ text, ∃ shown,
     displayLabel (LabelText text) = LabelText shown
     ∧ String.length shown <= 28
     ∧ (String.length text <= 28 → shown = text)
     ∧ (28 < String.length text →
          String.substring 0 25 shown = String.substring 0 25 text
          ∧ String.substring 25 3 shown = "..."%string
          ∧ String.length shown = 28))
  ∧ (∀ name, displayLabel (LabelInherited name) = LabelInherited name)
  ∧ (∀ programId text,
       getProgramLabel programId = LabelText text → String.length text <= 24)
  ∧ (∀ programId, displayLabel (getProgramLabel programId) = getProgramLabel programId)
  ∧ (∀ (R : Type) (N : JsNumber R) (programCounts : JsMap) (r : ProgramRanking R),
       r ∈ rankPrograms programCounts →
       label r = getProgramLabel (programId r)
       ∧ displayLabel (label r) = label r).
Proof.
  split; [|split; [done|split; [|split]]].
  - intros text. eexists. split; [reflexivity|].
    destruct (Nat.ltb_spec 28 (String.length text)) as [Hlong|Hshort].
    + assert (String.length (String.substring 0 25 text) = 25) as Hcut.
      { rewrite string_length_substring. lia. }
      split; [rewrite string_length_app, Hcut; simpl; lia|].
      split; [lia|]. intros _.
      split; [by apply substring_prefix_app|]. split.
      * rewrite <- (Nat.add_0_r 25), <- Hcut at 1. rewrite substring_app_r.
        reflexivity.
      * by rewrite string_length_app, Hcut.
    + split; [lia|]. split; [done|lia].
  - apply getProgramLabel_length.
  - apply displayLabel_getProgramLabel.
  - intros R N programCounts r ([programId count] & _ & ->)%rankPrograms_elem.
    simpl. split; [done|]. apply displayLabel_getProgramLabel.
Qed.

(** ** The data source *)

Lemma recentBlockProduction_cons currentSlot block fetched :
  recentBlockProduction currentSlot (block :: fetched)
  = match block with
    | Some (metas, time) => [blockProductionOf currentSlot metas time]
    | None => []
    end ++ recentBlockProduction (currentSlot - 1) fetched.
Proof.
  unfold recentBlockProduction. rewrite imap_cons. csimpl.
  rewrite (imap_ext _ (fun i block =>
             (fun '(metas, time) =>
                blockProductionOf (currentSlot - 1 - Z.of_nat i) metas time) <$> block)).
  - rewrite Z.sub_0_r. by destruct block as [[metas time]|].
  - intros i [[metas time]|] _; simpl; [|done].
    do 2 f_equal. lia.
Qed.

Lemma recentBlockProduction_slots currentSlot fetched b :
  b ∈ recentBlockProduction currentSlot fetched →
  ∃ i metas time,
    fetched !! i = Some (Some (metas, time))
    ∧ b = blockProductionOf (currentSlot - Z.of_nat i) metas time.
Proof.
  revert currentSlot. induction fetched as [|block fetched IH]; intros currentSlot.
  - by intros ?%elem_of_nil.
  - rewrite recentBlockProduction_cons.
    intros [Hb|Hb]%elem_of_app.
    + destruct block as [[metas time]|]; [|by apply elem_of_nil in Hb].
      apply list_elem_of_singleton in Hb as ->.
      exists 0, metas, time. split; [done|]. f_equal. simpl. lia.
    + apply IH in Hb as (i & metas & time & Hi & ->).
      exists (S i), metas, time. split; [done|]. f_equal. lia.
Qed.

(** X13.  [getRecentBlockProduction] answers one record per available slot
    of the window, newest first: the records are in strictly descending
    slot order (so no slot occurs twice), every record comes from a block
    the node returned for its slot, its successful and failed transactions
    add up to its transactions, and every returned block has its record. *)
Theorem recentBlockProduction_spec (currentSlot : Z)
    (fetched : list (option (list (option (option string)) * option Z))) :
  length (recentBlockProduction currentSlot fetched) = length (omap id fetched)
  ∧ length (recentBlockProduction currentSlot fetched) <= length fetched
  ∧ StronglySorted (fun a b => (slot b < slot a)%Z)
      (recentBlockProduction currentSlot fetched)
  ∧ (∀ b, b ∈ recentBlockProduction currentSlot fetched ↔
       ∃ i metas time,
         fetched !! i = Some (Some (metas, time))
         ∧ b = blockProductionOf (currentSlot - Z.of_nat i) metas time)
  ∧ (∀ b, b ∈ recentBlockProduction currentSlot fetched →
       numSuccessful b + numFailed b = numTransactions b
       ∧ (currentSlot - Z.of_nat (length fetched) < slot b)%Z
       ∧ (slot b <= currentSlot)%Z).
Proof.
  split; [|split; [|split; [|split]]].
  - revert currentSlot. induction fetched as [|block fetched IH]; intros currentSlot.
    + done.
    + rewrite recentBlockProduction_cons, length_app, IH.
      by destruct block as [[metas time]|].
  - unfold recentBlockProduction.
    etransitivity; [apply length_omap_le|]. by rewrite length_imap.
  - revert currentSlot. induction fetched as [|block fetched IH]; intros currentSlot.
    + constructor.
    + rewrite recentBlockProduction_cons.
      destruct block as [[metas time]|]; simpl; [|apply IH].
      constructor; [apply IH|].
      apply Forall_forall. intros b (i & ? & ? & _ & ->)%recentBlockProduction_slots.
      simpl. lia.
  - intros b. split; [apply recentBlockProduction_slots|].
    intros (i & metas & time & Hi & ->).
    revert currentSlot i Hi. induction fetched as [|block fetched IH];
      intros currentSlot i Hi; [done|].
    rewrite recentBlockProduction_cons. apply elem_of_app.
    destruct i as [|i]; simpl in Hi.
    + injection Hi as ->. left. rewrite Z.sub_0_r. by left.
    + right. replace (currentSlot - Z.of_nat (S i))%Z
        with (currentSlot - 1 - Z.of_nat i)%Z by lia.
      by apply IH.
  - intros b (i & metas & time & Hi & ->)%recentBlockProduction_slots.
    apply lookup_lt_Some in Hi. simpl.
    pose proof (length_filter (fun m => tx_failed m = true) metas). lia.
Qed.

Lemma map_get_set (k k' : string) (v : nat) (m : JsMap) :
  map_get k' (map_set k v m) = if String.eqb k k' then Some v else map_get k' m.
Proof.
  induction m as [|[k0 v0] m IH]; simpl.
  - done.
  - destruct (String.eqb_spec k0 k) as [->|Hne]; simpl.
    + by destruct (String.eqb_spec k k').
    + rewrite IH. destruct (String.eqb_spec k0 k') as [->|]; [|done].
      by destruct (String.eqb_spec k k').
Qed.

Lemma map_set_sum (k : string) (v : nat) (m : JsMap) :
  sum_list (map_values (map_set k v m)) + default 0 (map_get k m)
  = sum_list (map_values m) + v.
Proof.
  unfold map_values. induction m as [|[k0 v0] m IH]; csimpl; [lia|].
  destruct (String.eqb_spec k0 k) as [->|Hne]; csimpl; lia.
Qed.

Lemma topProgramsFromRecentBlocks_flat fetched :
  topProgramsFromRecentBlocks fetched = countInvocations (instructionsOf fetched).
Proof.
  unfold topProgramsFromRecentBlocks, countInvocations, instructionsOf.
  change (fun programCounts programId =>
            map_set programId (default 0 (map_get programId programCounts) + 1)
              programCounts) with countInstruction.
  generalize ([] : JsMap).
  induction fetched as [|[transactions|] fetched IH]; intros m; csimpl; [done| |done].
  rewrite foldl_app, <- IH. f_equal. clear IH. revert m.
  induction transactions as [|tx transactions IH]; intros m; csimpl; [done|].
  by rewrite foldl_app, IH.
Qed.

Lemma count_step (programId : string) (programIds : list string) (m : JsMap) :
  let m' := foldl countInstruction m programIds in
  map_get programId m'
  = (if decide (occurrences programId programIds = 0) then map_get programId m
     else Some (default 0 (map_get programId m) + occurrences programId programIds))
  ∧ sum_list (map_values m') = sum_list (map_values m) + length programIds.
Proof.
  unfold occurrences. revert m.
  induction programIds as [|k ks IH]; intros m; simpl.
  - split; [done|lia].
  - destruct (IH (countInstruction m k)) as [Hget Hsum]. simpl in Hget, Hsum.
    split.
    + rewrite Hget. unfold countInstruction at 1 2. rewrite map_get_set.
      rewrite filter_cons.
      destruct (String.eqb_spec k programId) as [->|Hne].
      * rewrite (decide_True (P:=programId = programId)) by done. simpl.
        destruct (decide (length (filter (λ x, x = programId) ks) = 0)) as [->|];
          f_equal; lia.
      * rewrite (decide_False (P:=k = programId)) by done.
        by destruct (decide (length (filter (λ x, x = programId) ks) = 0)).
    + rewrite Hsum. unfold countInstruction.
      pose proof (map_set_sum k (default 0 (map_get k m) + 1) m). lia.
Qed.

(** X14.  [getTopProgramsFromRecentBlocks] counts instructions: the map it
    returns gives every program identifier the number of instructions of
    the fetched blocks that invoke it, has no entry for an identifier that
    no instruction invokes, and its counts add up to the number of
    instructions.  The three nested loops over blocks, transactions and
    instructions amount to one pass over all instructions in order, and the
    ranking built from the map reports, for each program, that number. *)
Theorem topProgramsFromRecentBlocks_counts
    (fetched : list (option (list (list string)))) :
  let programCounts := topProgramsFromRecentBlocks fetched in
  programCounts = countInvocations (instructionsOf fetched)
  ∧ (∀ programId,
       map_get programId programCounts
       = if decide (occurrences programId (instructionsOf fetched) = 0) then None
         else Some (occurrences programId (instructionsOf fetched)))
  ∧ (∀ programId, programId ∈ map_keys programCounts ↔
       programId ∈ instructionsOf fetched)
  ∧ sum_list (map_values programCounts) = length (instructionsOf fetched)
  ∧ map_wf programCounts
  ∧ (∀ (R : Type) (N : JsNumber R) (r : ProgramRanking R),
       r ∈ rankPrograms programCounts →
       invocationCount r = occurrences (programId r) (instructionsOf fetched)
       ∧ 1 <= invocationCount r).
Proof.
  intros programCounts. unfold programCounts.
  rewrite topProgramsFromRecentBlocks_flat.
  set (ids := instructionsOf fetched).
  assert (∀ programId,
            map_get programId (countInvocations ids)
            = if decide (occurrences programId ids = 0) then None
              else Some (occurrences programId ids)) as Hget.
  { intros programId. apply (count_step programId ids []). }
  assert (∀ programId, occurrences programId ids ≠ 0 ↔ programId ∈ ids) as Hocc.
  { intros programId. unfold occurrences. rewrite length_zero_iff_nil. split.
    - intros Hne. destruct (filter _ ids) as [|x l] eqn:Hf; [done|].
      assert (x ∈ filter (λ x, x = programId) ids) as Hx by (rewrite Hf; left).
      by apply list_elem_of_filter in Hx as [-> ?].
    - intros Hin Hnil.
      assert (programId ∈ filter (λ x, x = programId) ids) as Hx
        by by apply list_elem_of_filter.
      rewrite Hnil in Hx. by apply elem_of_nil in Hx. }
  split; [done|]. split; [done|]. split; [|split; [|split]].
  - intros programId. rewrite map_get_keys, Hget, <- Hocc.
    destruct (decide (occurrences programId ids = 0)) as [->|Hne].
    + split; [by intros [? ?]|done].
    + split; [done|by eauto].
  - apply (count_step EmptyString ids []).
  - apply countInvocations_wf.
  - intros R N r ([programId count] & Hentry & ->)%rankPrograms_elem. simpl.
    apply map_get_elem in Hentry; [|apply countInvocations_wf].
    rewrite Hget in Hentry.
    destruct (decide (occurrences programId ids = 0)); [done|].
    injection Hentry as <-. lia.
Qed.

(** ** Promises over an array *)










Section ActivityFacts.
Context {R : Type} `{JsNumber R}.
Context (programId : string) (signatures : list SignatureInfo).
Context (getParsedTransaction : string → Outcome (option ParsedTransaction)).
Context (settled : nat → list nat).





End ActivityFacts.


(** ** Columns of the command-line table *)

Lemma padStr_length (s : string) (width : nat) :
  String.length (padStr s width) = width.
Proof.
  unfold padStr. destruct (Nat.ltb_spec (String.length s) width).
  - rewrite string_length_app, length_spaces. lia.
  - rewrite string_length_substring. lia.
Qed.

Lemma string_app_assoc (s t u : string) : (s +:+ t) +:+ u = s +:+ (t +:+ u).
Proof.
  induction s as [|c s IH]; [done|].
  change (String c ((s +:+ t) +:+ u) = String c (s +:+ (t +:+ u))). by f_equal.
Qed.

(** X16.  A column of the command-line table is exactly [width] characters
    wide: a shorter text is followed by spaces, a longer one is cut, and
    the text is kept up to the width.  Hence in every row of the [analyze]
    table the time starts at column 64. *)
Theorem padStr_spec (s : string) (width : nat) :
  String.length (padStr s width) = width
  ∧ String.substring 0 (Nat.min (String.length s) width) (padStr s width)
    = String.substring 0 (Nat.min (String.length s) width) s
  ∧ String.substring (String.length s) (width - String.length s) (padStr s width)
    = spaces (width - String.length s)
  ∧ (∀ slot fee status inner time,
       String.substring 64 (String.length time)
         (activityRow s slot fee status inner time) = time).
Proof.
  split; [apply padStr_length|]. split; [|split].
  - unfold padStr. destruct (Nat.ltb_spec (String.length s) width).
    + apply substring_app_l. lia.
    + rewrite Nat.min_r by lia. apply substring_all_eq.
      rewrite string_length_substring. lia.
  - unfold padStr. destruct (Nat.ltb_spec (String.length s) width).
    + rewrite <- (Nat.add_0_r (String.length s)) at 1. rewrite substring_app_r.
      rewrite <- (length_spaces (width - String.length s)) at 1.
      apply substring_all.
    + replace (width - String.length s) with 0 by lia. apply substring_none.
  - intros slot fee status inner time. unfold activityRow.
    rewrite <- !string_app_assoc.
    set (columns := (((padStr s 20 +:+ padStr slot 12) +:+ padStr fee 12)
                     +:+ padStr status 10) +:+ padStr inner 10).
    assert (String.length columns = 64) as Hcolumns.
    { unfold columns. by rewrite !string_length_app, !padStr_length. }
    rewrite <- (Nat.add_0_r 64), <- Hcolumns. rewrite substring_app_r.
    apply substring_all.
Qed.

(** ** Escape sequences *)

Lemma skip_params_length s : length (Dashboard.skip_params s) <= length s.
Proof.
  induction s as [|u s IH]; simpl; [done|].
  destruct (Dashboard.is_param u); simpl; lia.
Qed.

Lemma match_escape_length s rest :
  Dashboard.match_escape s = Some rest → length rest < length s.
Proof.
  destruct s as [|e [|b s]]; simpl; try done.
  destruct (_ && _)%bool; [|done].
  pose proof (skip_params_length s).
  destruct (Dashboard.skip_params s) as [|m r]; [done|].
  destruct (m =? 109)%N; [|done]. intros [= <-]. simpl in *. lia.
Qed.

Lemma strip_fuel fuel1 fuel2 s :
  length s <= fuel1 → length s <= fuel2 →
  Dashboard.strip fuel1 s = Dashboard.strip fuel2 s.
Proof.
  revert fuel2 s. induction fuel1 as [|fuel1 IH]; intros fuel2 s H1 H2.
  - destruct s; simpl in *; [|lia]. by destruct fuel2.
  - destruct fuel2 as [|fuel2].
    { destruct s; simpl in *; [done|lia]. }
    destruct s as [|u s]; [done|].
    change (match Dashboard.match_escape (u :: s) with
            | Some rest => Dashboard.strip fuel1 rest
            | None => u :: Dashboard.strip fuel1 s
            end
            = match Dashboard.match_escape (u :: s) with
              | Some rest => Dashboard.strip fuel2 rest
              | None => u :: Dashboard.strip fuel2 s
              end).
    destruct (Dashboard.match_escape (u :: s)) as [rest|] eqn:Hm.
    + apply match_escape_length in Hm. simpl in *. apply IH; lia.
    + simpl in *. f_equal. apply IH; lia.
Qed.

Lemma stripAnsi_nil : Dashboard.stripAnsi [] = [].
Proof. done. Qed.

Lemma stripAnsi_cons u s :
  Dashboard.stripAnsi (u :: s)
  = match Dashboard.match_escape (u :: s) with
    | Some rest => Dashboard.stripAnsi rest
    | None => u :: Dashboard.stripAnsi s
    end.
Proof.
  unfold Dashboard.stripAnsi.
  change (Dashboard.strip (length (u :: s)) (u :: s))
    with (match Dashboard.match_escape (u :: s) with
          | Some rest => Dashboard.strip (length s) rest
          | None => u :: Dashboard.strip (length s) s
          end).
  destruct (Dashboard.match_escape (u :: s)) as [rest|] eqn:Hm; [|done].
  apply match_escape_length in Hm. simpl in Hm. apply strip_fuel; lia.
Qed.

Lemma stripAnsi_length s : length (Dashboard.stripAnsi s) <= length s.
Proof.
  remember (length s) as n eqn:Hn. assert (length s <= n) as Hle by lia. clear Hn.
  revert s Hle. induction n as [|n IH]; intros s Hle.
  - destruct s; simpl in *; [done|lia].
  - destruct s as [|u s]; [simpl; lia|]. rewrite stripAnsi_cons.
    destruct (Dashboard.match_escape (u :: s)) as [rest|] eqn:Hm.
    + apply match_escape_length in Hm. simpl in *.
      etransitivity; [apply IH; lia|]. lia.
    + simpl in *. specialize (IH s). lia.
Qed.

Lemma skip_params_app s t :
  Dashboard.skip_params (s ++ t)
  = match Dashboard.skip_params s with
    | [] => Dashboard.skip_params t
    | rest => rest ++ t
    end.
Proof.
  induction s as [|u s IH]; simpl; [by destruct (Dashboard.skip_params t)|].
  by destruct (Dashboard.is_param u).
Qed.

Lemma match_escape_app_Some s t rest :
  Dashboard.match_escape s = Some rest →
  Dashboard.match_escape (s ++ t) = Some (rest ++ t).
Proof.
  destruct s as [|e [|b s]]; simpl; try done.
  destruct (_ && _)%bool; [|done].
  rewrite skip_params_app.
  destruct (Dashboard.skip_params s) as [|m r]; [done|]. simpl.
  destruct (m =? 109)%N; [|done]. by intros [= <-].
Qed.

Lemma match_escape_app_None u s t :
  closed_start t →
  Dashboard.match_escape (u :: s) = None →
  Dashboard.match_escape (u :: s ++ t) = None.
Proof.
  intros Ht. destruct s as [|b s]; simpl.
  - intros _. destruct t as [|v t]; [done|]. destruct Ht as (_ & _ & Hv).
    destruct (N.eqb_spec v 91) as [->|]; [done|]. by rewrite andb_false_r.
  - destruct (_ && _)%bool; [|done].
    rewrite skip_params_app.
    destruct (Dashboard.skip_params s) as [|m r]; simpl.
    + intros _. destruct t as [|v t]; [done|]. destruct Ht as (Hp & Hv & _).
      simpl. rewrite Hp. by destruct (N.eqb_spec v 109).
    + by destruct (m =? 109)%N.
Qed.

Lemma stripAnsi_app s t :
  closed_start t →
  Dashboard.stripAnsi (s ++ t) = Dashboard.stripAnsi s ++ Dashboard.stripAnsi t.
Proof.
  intros Ht.
  remember (length s) as n eqn:Hn. assert (length s <= n) as Hle by lia. clear Hn.
  revert s Hle. induction n as [|n IH]; intros s Hle.
  - destruct s; simpl in *; [done|lia].
  - destruct s as [|u s]; [done|]. simpl app. rewrite !stripAnsi_cons.
    destruct (Dashboard.match_escape (u :: s)) as [rest|] eqn:Hm.
    + rewrite (match_escape_app_Some (u :: s) t rest Hm
                 : Dashboard.match_escape (u :: s ++ t) = _).
      apply match_escape_length in Hm. simpl in *. apply IH. lia.
    + rewrite (match_escape_app_None u s t Ht Hm). simpl in *.
      rewrite IH by lia. done.
Qed.

Lemma stripAnsi_plain_app p t :
  plain p → Dashboard.stripAnsi (p ++ t) = p ++ Dashboard.stripAnsi t.
Proof.
  induction 1 as [|u p Hu _ IH]; [done|].
  simpl app. rewrite stripAnsi_cons.
  assert (Dashboard.match_escape (u :: p ++ t) = None) as ->; [|by rewrite IH].
  unfold Dashboard.match_escape. destruct (p ++ t); [done|].
  destruct (N.eqb_spec u 27) as [->|]; [done|]. done.
Qed.

Lemma stripAnsi_plain p : plain p → Dashboard.stripAnsi p = p.
Proof.
  intros Hp. rewrite <- (app_nil_r p) at 1.
  rewrite stripAnsi_plain_app by done. by rewrite app_nil_r.
Qed.

Lemma stripAnsi_colors color t :
  Dashboard.stripAnsi (Dashboard.colors color ++ t) = Dashboard.stripAnsi t.
Proof. destruct color; simpl app; by rewrite stripAnsi_cons. Qed.

Lemma closed_start_colors color t : closed_start (Dashboard.colors color ++ t).
Proof. by destruct color. Qed.

Lemma stripAnsi_c color t :
  Dashboard.stripAnsi (Dashboard.c color t) = Dashboard.stripAnsi t.
Proof.
  unfold Dashboard.c. rewrite stripAnsi_colors.
  rewrite <- (app_nil_r (Dashboard.colors Dashboard.reset)).
  rewrite stripAnsi_app by apply closed_start_colors.
  rewrite stripAnsi_colors. simpl. by rewrite app_nil_r.
Qed.

Lemma skip_params_run params t :
  Forall (fun u => Dashboard.is_param u = true) params →
  Dashboard.skip_params (params ++ 109%N :: t) = 109%N :: t.
Proof. induction 1 as [|u params Hu _ IH]; simpl; [done|]. by rewrite Hu. Qed.

(** X17.  What the dashboard's pattern removes from a text: every escape
    character followed by "[", any run of digits and semicolons, and "m",
    and in particular the codes that the colour helper [c] puts around a
    text.  A text without the escape character is left as it is, the
    result is never longer than the text, and the removal distributes over
    a concatenation whose second part cannot complete a sequence that the
    first leaves open. *)
Theorem stripAnsi_spec :
  (∀ params t, Forall (fun u => Dashboard.is_param u = true) params →
     Dashboard.stripAnsi (Dashboard.ESC :: 91%N :: params ++ 109%N :: t)
     = Dashboard.stripAnsi t)
  ∧ (∀ color t, Dashboard.stripAnsi (Dashboard.c color t) = Dashboard.stripAnsi t)
  ∧ (∀ t, plain t → Dashboard.stripAnsi t = t)
  ∧ (∀ t, length (Dashboard.stripAnsi t) <= length t)
  ∧ (∀ s t, closed_start t →
       Dashboard.stripAnsi (s ++ t) = Dashboard.stripAnsi s ++ Dashboard.stripAnsi t)
  ∧ (∀ u s, Dashboard.match_escape (u :: s) = None →
       Dashboard.stripAnsi (u :: s) = u :: Dashboard.stripAnsi s).
Proof.
  split; [|split; [|split; [|split; [|split]]]].
  - intros params t Hparams. rewrite stripAnsi_cons. simpl.
    by rewrite skip_params_run.
  - apply stripAnsi_c.
  - apply stripAnsi_plain.
  - apply stripAnsi_length.
  - apply stripAnsi_app.
  - intros u s Hm. by rewrite stripAnsi_cons, Hm.
Qed.

(** ** Cells and box lines *)

Lemma repeat_unit_Some u count :
  (0 <= count)%Z →
  Dashboard.repeat_unit u count = Some (replicate (Z.to_nat count) u).
Proof. intros. unfold Dashboard.repeat_unit. by destruct (Z.ltb_spec count 0); [lia|]. Qed.

Lemma repeat_unit_None u count :
  Dashboard.repeat_unit u count = None ↔ (count < 0)%Z.
Proof. unfold Dashboard.repeat_unit. by destruct (Z.ltb_spec count 0); split; try lia. Qed.

Lemma plain_replicate n u : u ≠ Dashboard.ESC → plain (replicate n u).
Proof. intros. by apply Forall_replicate. Qed.

Lemma closed_start_blanks n color t :
  closed_start (replicate n Dashboard.blank ++ Dashboard.colors color ++ t).
Proof. by destruct n, color. Qed.

Lemma closed_start_replicate_blank n : closed_start (replicate n Dashboard.blank).
Proof. by destruct n. Qed.

Lemma visibleWidth_app s t :
  closed_start t →
  Dashboard.visibleWidth (s ++ t)
  = (Dashboard.visibleWidth s + Dashboard.visibleWidth t)%Z.
Proof.
  intros. unfold Dashboard.visibleWidth. rewrite stripAnsi_app, length_app by done. lia.
Qed.

Lemma visibleWidth_plain_app p t :
  plain p →
  Dashboard.visibleWidth (p ++ t) = (Z.of_nat (length p) + Dashboard.visibleWidth t)%Z.
Proof.
  intros. unfold Dashboard.visibleWidth. rewrite stripAnsi_plain_app, length_app by done.
  lia.
Qed.

Lemma visibleWidth_plain p :
  plain p → Dashboard.visibleWidth p = Z.of_nat (length p).
Proof. intros. unfold Dashboard.visibleWidth. by rewrite stripAnsi_plain. Qed.

Lemma visibleWidth_c color t :
  Dashboard.visibleWidth (Dashboard.c color t) = Dashboard.visibleWidth t.
Proof. unfold Dashboard.visibleWidth. by rewrite stripAnsi_c. Qed.

Lemma visibleWidth_nonneg t : (0 <= Dashboard.visibleWidth t)%Z.
Proof. unfold Dashboard.visibleWidth. lia. Qed.

Lemma pad_Some t width align :
  Dashboard.pad t width align
  = Some match align with
         | Dashboard.AlignRight =>
             replicate (Z.to_nat (width - Dashboard.visibleWidth t)) Dashboard.blank ++ t
         | Dashboard.AlignLeft =>
             t ++ replicate (Z.to_nat (width - Dashboard.visibleWidth t)) Dashboard.blank
         end.
Proof.
  unfold Dashboard.pad. fold (Dashboard.visibleWidth t).
  rewrite repeat_unit_Some by lia. simpl.
  by replace (Z.to_nat (Z.max 0 (width - Dashboard.visibleWidth t)))
    with (Z.to_nat (width - Dashboard.visibleWidth t)) by lia.
Qed.

Lemma pad_width t width align padded :
  Dashboard.pad t width align = Some padded →
  Dashboard.visibleWidth padded = Z.max width (Dashboard.visibleWidth t).
Proof.
  rewrite pad_Some. intros [= <-]. pose proof (visibleWidth_nonneg t).
  destruct align.
  - rewrite visibleWidth_app by apply closed_start_replicate_blank.
    rewrite (visibleWidth_plain (replicate _ _)) by by apply plain_replicate.
    rewrite length_replicate. lia.
  - rewrite visibleWidth_plain_app by by apply plain_replicate.
    rewrite length_replicate. lia.
Qed.

(** X18.  [pad] never fails and widens a text to [width] columns as the
    terminal shows them: a text that is already wide enough is returned as
    it is, the blanks go after the text or, for right alignment, before
    it, and colour codes are not counted, so that a coloured text gets the
    same visible width as the text itself. *)
Theorem pad_spec (t : Dashboard.text) (width : Z) (align : Dashboard.Align) :
  ∃ padded blanks,
    Dashboard.pad t width align = Some padded
    ∧ blanks = replicate (Z.to_nat (width - Dashboard.visibleWidth t)) Dashboard.blank
    ∧ padded = match align with
               | Dashboard.AlignRight => blanks ++ t
               | Dashboard.AlignLeft => t ++ blanks
               end
    ∧ Dashboard.visibleWidth padded = Z.max width (Dashboard.visibleWidth t)
    ∧ ((width <= Dashboard.visibleWidth t)%Z → padded = t)
    ∧ (∀ color,
         ∃ coloured, Dashboard.pad (Dashboard.c color t) width align = Some coloured
           ∧ Dashboard.visibleWidth coloured = Dashboard.visibleWidth padded).
Proof.
  eexists _, _. split; [apply pad_Some|]. split; [reflexivity|].
  split; [by destruct align|]. split; [|split].
  - eapply pad_width, pad_Some.
  - intros Hwide. replace (Z.to_nat (width - Dashboard.visibleWidth t)) with 0 by lia.
    destruct align; simpl; [by rewrite app_nil_r|done].
  - intros color. eexists. split; [apply pad_Some|].
    rewrite (pad_width _ _ _ _ (pad_Some (Dashboard.c color t) width align)).
    rewrite (pad_width _ _ _ _ (pad_Some t width align)).
    by rewrite visibleWidth_c.
Qed.

Lemma stripAnsi_c_app color t rest :
  Dashboard.stripAnsi (Dashboard.c color t ++ rest)
  = Dashboard.stripAnsi t ++ Dashboard.stripAnsi rest.
Proof.
  unfold Dashboard.c. rewrite <- !app_assoc. rewrite stripAnsi_colors.
  rewrite stripAnsi_app by apply closed_start_colors.
  by rewrite stripAnsi_colors.
Qed.

Lemma visibleWidth_c_app color t rest :
  Dashboard.visibleWidth (Dashboard.c color t ++ rest)
  = (Dashboard.visibleWidth t + Dashboard.visibleWidth rest)%Z.
Proof. unfold Dashboard.visibleWidth. rewrite stripAnsi_c_app, length_app. lia. Qed.

Lemma visibleWidth_cons u t :
  u ≠ Dashboard.ESC →
  Dashboard.visibleWidth (u :: t) = (1 + Dashboard.visibleWidth t)%Z.
Proof.
  intros. change (u :: t) with ([u] ++ t).
  by rewrite visibleWidth_plain_app by by repeat constructor.
Qed.

Lemma boxLine_Some content width :
  Dashboard.boxLine content width
  = Some (Dashboard.c Dashboard.dim [Dashboard.light_vertical; Dashboard.blank]
          ++ content
          ++ replicate (Z.to_nat (width - 4 - Dashboard.visibleWidth content))
               Dashboard.blank
          ++ Dashboard.c Dashboard.dim [Dashboard.blank; Dashboard.light_vertical]).
Proof.
  unfold Dashboard.boxLine. fold (Dashboard.visibleWidth content).
  rewrite repeat_unit_Some by lia. simpl.
  by replace (Z.to_nat (Z.max 0 (width - 4 - Dashboard.visibleWidth content)))
    with (Z.to_nat (width - 4 - Dashboard.visibleWidth content)) by lia.
Qed.

Lemma boxLine_width content width line :
  Dashboard.boxLine content width = Some line →
  Dashboard.visibleWidth line = Z.max width (Dashboard.visibleWidth content + 4).
Proof.
  rewrite boxLine_Some. intros <-%(inj Some). pose proof (visibleWidth_nonneg content).
  rewrite visibleWidth_c_app.
  rewrite (visibleWidth_app content)
    by (unfold Dashboard.c at 1; apply closed_start_blanks).
  rewrite visibleWidth_plain_app by by apply plain_replicate.
  rewrite visibleWidth_c, length_replicate.
  change (Dashboard.visibleWidth [Dashboard.light_vertical; Dashboard.blank]) with 2%Z.
  change (Dashboard.visibleWidth [Dashboard.blank; Dashboard.light_vertical]) with 2%Z.
  lia.
Qed.

Lemma boxTop_None title width :
  Dashboard.boxTop title width = None ↔ (width < Z.of_nat (length title) + 4)%Z.
Proof.
  unfold Dashboard.boxTop.
  set (remaining := (width - (Z.of_nat (length title) + 2) - 2)%Z).
  destruct (Z.ltb_spec remaining 0) as [Hneg|Hpos].
  - rewrite (proj2 (repeat_unit_None _ (remaining / 2)))
      by (Z.to_euclidean_division_equations; lia).
    simpl. split; [lia|done].
  - rewrite !repeat_unit_Some by (Z.to_euclidean_division_equations; lia).
    simpl. split; [done|lia].
Qed.

Lemma boxTop_width title width line :
  Dashboard.boxTop title width = Some line →
  Dashboard.visibleWidth line
  = (width - Z.of_nat (length title) + Dashboard.visibleWidth title)%Z.
Proof.
  destruct (Z.ltb_spec width (Z.of_nat (length title) + 4)) as [Hlt|Hge].
  { apply boxTop_None in Hlt. congruence. }
  unfold Dashboard.boxTop.
  set (remaining := (width - (Z.of_nat (length title) + 2) - 2)%Z).
  assert (0 <= remaining / 2 ∧ 0 <= remaining - remaining / 2)%Z as [Hl Hr]
    by (Z.to_euclidean_division_equations; lia).
  rewrite !repeat_unit_Some by done. cbn [mbind option_bind]. intros <-%(inj Some).
  rewrite visibleWidth_c_app.
  rewrite (visibleWidth_plain_app [Dashboard.blank]) by by repeat constructor.
  rewrite visibleWidth_c_app.
  rewrite (visibleWidth_plain_app [Dashboard.blank]) by by repeat constructor.
  rewrite visibleWidth_c.
  rewrite (visibleWidth_plain (_ :: _))
    by (constructor; [done|by apply plain_replicate]).
  rewrite (visibleWidth_plain (_ ++ _))
    by (apply Forall_app; split; [by apply plain_replicate|by repeat constructor]).
  simpl length. rewrite length_app, !length_replicate. simpl length.
  set (half := (remaining / 2)%Z) in *. clearbody half. unfold remaining in *. lia.
Qed.

Lemma boxBottom_None width : Dashboard.boxBottom width = None ↔ (width < 2)%Z.
Proof.
  unfold Dashboard.boxBottom.
  destruct (Z.ltb_spec width 2).
  - rewrite (proj2 (repeat_unit_None _ (width - 2))) by lia. simpl. split; [lia|done].
  - rewrite repeat_unit_Some by lia. simpl. split; [done|lia].
Qed.

Lemma boxBottom_width width line :
  Dashboard.boxBottom width = Some line → Dashboard.visibleWidth line = width.
Proof.
  destruct (Z.ltb_spec width 2) as [Hlt|Hge].
  { apply boxBottom_None in Hlt. congruence. }
  unfold Dashboard.boxBottom. rewrite repeat_unit_Some by lia. simpl.
  intros [= <-]. rewrite visibleWidth_c.
  rewrite visibleWidth_plain.
  - simpl length. rewrite length_app, length_replicate. simpl length. lia.
  - constructor; [done|]. apply Forall_app.
    split; [by apply plain_replicate|by repeat constructor].
Qed.

Lemma horizontalLine_None width : Dashboard.horizontalLine width = None ↔ (width < 0)%Z.
Proof.
  unfold Dashboard.horizontalLine.
  destruct (Z.ltb_spec width 0).
  - rewrite (proj2 (repeat_unit_None _ width)) by lia. simpl. split; [lia|done].
  - rewrite repeat_unit_Some by lia. simpl. split; [done|lia].
Qed.

Lemma horizontalLine_width width line :
  Dashboard.horizontalLine width = Some line → Dashboard.visibleWidth line = width.
Proof.
  destruct (Z.ltb_spec width 0) as [Hlt|Hge].
  { apply horizontalLine_None in Hlt. congruence. }
  unfold Dashboard.horizontalLine. rewrite repeat_unit_Some by lia. simpl.
  intros [= <-]. rewrite visibleWidth_c.
  rewrite visibleWidth_plain by by apply plain_replicate.
  rewrite length_replicate. lia.
Qed.

(** X19.  The lines of a box.  [boxLine] never fails; its line is [width]
    columns wide when the content fits and four columns wider than the
    content otherwise: it never cuts the content.  [boxTop] fails (a
    RangeError of [repeat]) exactly when the width is less than the length
    of the title plus four, [boxBottom] exactly when the width is less
    than two, [horizontalLine] exactly when it is negative; otherwise
    their lines are [width] columns wide, for a title without colour
    codes.  Hence the three lines of a box around a content that fits have
    the same width. *)
Theorem box_lines_spec (title content : Dashboard.text) (width : Z) :
  (∃ line, Dashboard.boxLine content width = Some line
     ∧ Dashboard.visibleWidth line
       = Z.max width (Dashboard.visibleWidth content + 4))
  ∧ (Dashboard.boxTop title width = None
     ↔ (width < Z.of_nat (length title) + 4)%Z)
  ∧ (∀ line, Dashboard.boxTop title width = Some line →
       Dashboard.visibleWidth line
       = (width - Z.of_nat (length title) + Dashboard.visibleWidth title)%Z)
  ∧ (Dashboard.boxBottom width = None ↔ (width < 2)%Z)
  ∧ (∀ line, Dashboard.boxBottom width = Some line →
       Dashboard.visibleWidth line = width)
  ∧ (Dashboard.horizontalLine width = None ↔ (width < 0)%Z)
  ∧ (∀ line, Dashboard.horizontalLine width = Some line →
       Dashboard.visibleWidth line = width)
  ∧ (plain title → (Z.of_nat (length title) + 4 <= width)%Z →
     (Dashboard.visibleWidth content + 4 <= width)%Z →
     ∃ top middle bottom,
       Dashboard.boxTop title width = Some top
       ∧ Dashboard.boxLine content width = Some middle
       ∧ Dashboard.boxBottom width = Some bottom
       ∧ Dashboard.visibleWidth top = width
       ∧ Dashboard.visibleWidth middle = width
       ∧ Dashboard.visibleWidth bottom = width).
Proof.
  split; [|split; [|split; [|split; [|split; [|split; [|split]]]]]].
  - eexists. split; [apply boxLine_Some|]. eapply boxLine_width, boxLine_Some.
  - apply boxTop_None.
  - apply boxTop_width.
  - apply boxBottom_None.
  - apply boxBottom_width.
  - apply horizontalLine_None.
  - apply horizontalLine_width.
  - intros Hplain Htitle Hcontent.
    destruct (Dashboard.boxTop title width) as [top|] eqn:Htop;
      [|apply boxTop_None in Htop; lia].
    destruct (Dashboard.boxBottom width) as [bottom|] eqn:Hbottom;
      [|apply boxBottom_None in Hbottom; lia].
    eexists top, _, bottom. split; [done|]. split; [apply boxLine_Some|].
    split; [done|]. split; [|split].
    + rewrite (boxTop_width _ _ _ Htop), visibleWidth_plain by done. lia.
    + rewrite (boxLine_width _ _ _ (boxLine_Some content width)). lia.
    + by apply boxBottom_width.
Qed.

(** ** The ranking table *)

Lemma units_length s : length (Dashboard.units s) = String.length s.
Proof.
  unfold Dashboard.units. rewrite length_fmap.
  induction s as [|a s IH]; simpl; [done|by rewrite IH].
Qed.

Lemma displayLabel_length text shown :
  displayLabel (LabelText text) = LabelText shown → String.length shown <= 28.
Proof.
  unfold displayLabel. intros [= <-].
  destruct (Nat.ltb_spec 28 (String.length text)); [|done].
  rewrite string_length_app, string_length_substring.
  change (String.length "...") with 3. lia.
Qed.

Lemma Forall2_exists {A B} (P : A → B → Prop) (l : list A) :
  (∀ x, ∃ y, P x y) → ∃ k, Forall2 P l k.
Proof.
  intros HP. induction l as [|x l [k Hk]]; [by exists []|].
  destruct (HP x) as [y Hy]. exists (y :: k). by constructor.
Qed.

Section TableFacts.
Context {R : Type} (formatNumber : nat → Dashboard.text) (shareText : R → Dashboard.text).
Context (memberText : string → Dashboard.text).

Lemma programLineWidth_text (prog : ProgramRanking R) text :
  label prog = LabelText text →
  programLineWidth formatNumber shareText memberText prog
  = (45 + Z.max 14 (Dashboard.visibleWidth (formatNumber (invocationCount prog)))
     + Z.max 10 (Dashboard.visibleWidth (shareText (share prog))))%Z.
Proof.
  intros Hlabel. unfold programLineWidth. rewrite Hlabel.
  destruct (displayLabel (LabelText text)) as [shown|] eqn:Hshown; [|done].
  apply displayLabel_length in Hshown. simpl.
  pose proof (stripAnsi_length (Dashboard.units shown)) as Hlen.
  rewrite units_length in Hlen. unfold Dashboard.visibleWidth at 1. lia.
Qed.

Lemma programLine_spec (prog : ProgramRanking R) :
  ∃ line,
    (row ← Dashboard.programRow formatNumber shareText memberText prog;
     Dashboard.boxLine row 62)
    = Some line
    ∧ Dashboard.visibleWidth line
      = programLineWidth formatNumber shareText memberText prog.
Proof.
  unfold Dashboard.programRow. rewrite !pad_Some. cbn [mbind option_bind].
  eexists. split; [apply boxLine_Some|].
  rewrite (boxLine_width _ _ _ (boxLine_Some _ _)).
  unfold programLineWidth.
  set (name := Dashboard.labelText memberText (displayLabel (label prog))).
  rewrite visibleWidth_c. change (30 + 9)%Z with 39%Z.
  pose proof (visibleWidth_nonneg (formatNumber (invocationCount prog))).
  pose proof (visibleWidth_nonneg (shareText (share prog))).
  pose proof (visibleWidth_nonneg name).
  rewrite visibleWidth_app by done.
  rewrite visibleWidth_app by apply closed_start_replicate_blank.
  rewrite visibleWidth_c.
  rewrite (visibleWidth_plain (replicate _ _)) by by apply plain_replicate.
  rewrite (visibleWidth_plain_app [Dashboard.blank]) by by repeat constructor.
  rewrite visibleWidth_app by done.
  rewrite (visibleWidth_plain_app (replicate _ _)) by by apply plain_replicate.
  rewrite (visibleWidth_plain_app [Dashboard.blank]) by by repeat constructor.
  rewrite (visibleWidth_plain_app (replicate _ _)) by by apply plain_replicate.
  rewrite !length_replicate. simpl length. lia.
Qed.

End TableFacts.

(** X20.  The ranking table of the dashboard.  [renderTopPrograms] never
    fails; it gives a top line, a header line, a rule, one line for each of
    the first ten programs and a bottom line.  The four frame lines are 62
    columns wide.  A program's line is never that narrow: its name cell is
    padded to 39 columns, not to the 30 of the header, because [pad] does
    not count the colour codes that the 9 extra columns are meant for; the
    line takes 69 columns when the count and the share fit their cells,
    and more otherwise.  (A label that is an inherited member is shown
    by its text, which can make the name cell wider still.) *)
Theorem topPrograms_table (R : Type) (formatNumber : nat → Dashboard.text)
    (shareText : R → Dashboard.text) (memberText : string → Dashboard.text)
    (programs : list (ProgramRanking R)) :
  ∃ top header rule rows bottom,
    Dashboard.topProgramsLines formatNumber shareText memberText programs
    = Some ([top; header; rule] ++ rows ++ [bottom])
    ∧ Dashboard.renderTopPrograms formatNumber shareText memberText programs
      = Some (Dashboard.join_lines ([top; header; rule] ++ rows ++ [bottom]))
    ∧ Dashboard.visibleWidth top = 62%Z
    ∧ Dashboard.visibleWidth header = 62%Z
    ∧ Dashboard.visibleWidth rule = 62%Z
    ∧ Dashboard.visibleWidth bottom = 62%Z
    ∧ length rows = Nat.min 10 (length programs)
    ∧ (∀ i prog, programs !! i = Some prog → i < 10 →
         ∃ row, rows !! i = Some row
           ∧ Dashboard.visibleWidth row
             = programLineWidth formatNumber shareText memberText prog
           ∧ (∀ text, label prog = LabelText text →
                Dashboard.visibleWidth row
                = (45 + Z.max 14 (Dashboard.visibleWidth
                                    (formatNumber (invocationCount prog)))
                   + Z.max 10 (Dashboard.visibleWidth (shareText (share prog))))%Z)
           ∧ (69 <= Dashboard.visibleWidth row)%Z).
Proof.
  destruct (Forall2_exists
              (fun prog line =>
                 (row ← Dashboard.programRow formatNumber shareText memberText prog;
                  Dashboard.boxLine row 62) = Some line
                 ∧ Dashboard.visibleWidth line
                   = programLineWidth formatNumber shareText memberText prog)
              (take 10 programs) (programLine_spec formatNumber shareText memberText))
    as [rows Hrows].
  assert (mapM (fun prog => row ← Dashboard.programRow formatNumber shareText memberText prog;
                            Dashboard.boxLine row 62) (take 10 programs)
          = Some rows) as Hlines.
  { apply mapM_Some. eapply Forall2_impl; [exact Hrows|]. by intros ?? [? _]. }
  assert (∃ top, Dashboard.boxTop (Dashboard.units "Top Programs (Recent Blocks)") 62
                 = Some top ∧ Dashboard.visibleWidth top = 62%Z)
    as (top & Htop & Hwtop) by (eexists; split; by vm_compute).
  assert (∃ rule, Dashboard.horizontalLine (62 - 4) = Some rule
                  ∧ Dashboard.visibleWidth rule = 58%Z)
    as (rule & Hrule & Hwrule) by (eexists; split; by vm_compute).
  assert (∃ bottom, Dashboard.boxBottom 62 = Some bottom
                    ∧ Dashboard.visibleWidth bottom = 62%Z)
    as (bottom & Hbottom & Hwbottom) by (eexists; split; by vm_compute).
  assert (∃ header ruleLine,
            Dashboard.topProgramsLines formatNumber shareText memberText programs
            = Some ([top; header; ruleLine] ++ rows ++ [bottom])
            ∧ Dashboard.visibleWidth header = 62%Z
            ∧ Dashboard.visibleWidth ruleLine = 62%Z)
    as (header & ruleLine & Hall & Hwheader & Hwrule').
  { unfold Dashboard.topProgramsLines. cbv zeta.
    rewrite Htop, !pad_Some, Hrule, Hlines, Hbottom. cbn [mbind option_bind].
    rewrite !boxLine_Some. cbn [mbind option_bind].
    eexists _, _. split; [reflexivity|]. split; [by vm_compute|].
    rewrite (boxLine_width _ _ _ (boxLine_Some _ _)), Hwrule. lia. }
  exists top, header, ruleLine, rows, bottom. split; [exact Hall|].
  split; [unfold Dashboard.renderTopPrograms; by rewrite Hall|].
  split; [done|]. split; [done|]. split; [done|].
  split; [done|]. split.
  - apply Forall2_length in Hrows. rewrite <- Hrows, length_take. lia.
  - intros i prog Hprog Hi.
    assert (take 10 programs !! i = Some prog) as Htake
      by by rewrite lookup_take_lt.
    destruct (Forall2_lookup_l _ _ _ _ _ Hrows Htake) as (row & Hrow & _ & Hwidth).
    exists row. split; [done|]. split; [done|]. split.
    + intros text Hlabel. rewrite Hwidth. by eapply programLineWidth_text.
    + rewrite Hwidth. unfold programLineWidth. lia.
Qed.

(** ** The anomaly box *)

Lemma anomalyLine_spec {R} (message : Anomaly R → Dashboard.text) (anomaly : Anomaly R) :
  ∃ line, Dashboard.anomalyLine message anomaly = Some line
    ∧ Dashboard.visibleWidth line = 62%Z.
Proof.
  unfold Dashboard.anomalyLine. eexists. split; [apply boxLine_Some|].
  rewrite (boxLine_width _ _ _ (boxLine_Some _ _)).
  rewrite visibleWidth_c_app.
  rewrite (visibleWidth_plain_app [Dashboard.blank]) by by repeat constructor.
  assert (Dashboard.visibleWidth
            (Dashboard.units "[" ++ Dashboard.severityIcon (a_severity anomaly)
             ++ Dashboard.units "]") = 5%Z) as -> by by destruct (a_severity anomaly).
  pose proof (stripAnsi_length (take 50 (message anomaly))) as Hlen.
  rewrite length_take in Hlen. unfold Dashboard.visibleWidth at 1. simpl length. lia.
Qed.

(** X24.  The anomaly box of the dashboard.  [renderAnomalies] never fails;
    between its top and bottom lines it shows one line when there is no
    anomaly and otherwise one line for each of the first five anomalies.
    Every line of the box is exactly 62 columns wide, whatever the
    messages are: a message is cut to 50 units before it is framed. *)
Theorem anomalies_box (R : Type) (message : Anomaly R → Dashboard.text)
    (anomalies : list (Anomaly R)) :
  ∃ top body bottom,
    Dashboard.anomaliesLines message anomalies = Some ([top] ++ body ++ [bottom])
    ∧ Dashboard.renderAnomalies message anomalies
      = Some (Dashboard.join_lines ([top] ++ body ++ [bottom]))
    ∧ length body = (if decide (anomalies = []) then 1
                     else Nat.min 5 (length anomalies))
    ∧ Forall (fun line => Dashboard.visibleWidth line = 62%Z)
        ([top] ++ body ++ [bottom]).
Proof.
  assert (∃ top, Dashboard.boxTop (Dashboard.units "Anomaly Detection") 62 = Some top
                 ∧ Dashboard.visibleWidth top = 62%Z)
    as (top & Htop & Hwtop) by (eexists; split; by vm_compute).
  assert (∃ bottom, Dashboard.boxBottom 62 = Some bottom
                    ∧ Dashboard.visibleWidth bottom = 62%Z)
    as (bottom & Hbottom & Hwbottom) by (eexists; split; by vm_compute).
  assert (∃ body,
            (if length anomalies =? 0 then
               line ← Dashboard.boxLine
                        (Dashboard.c Dashboard.green
                           (Dashboard.units "No anomalies detected "
                            ++ [Dashboard.em_dash]
                            ++ Dashboard.units " network operating normally")) 62;
               Some [line]
             else mapM (Dashboard.anomalyLine message) (take 5 anomalies)) = Some body
            ∧ length body = (if decide (anomalies = []) then 1
                             else Nat.min 5 (length anomalies))
            ∧ Forall (fun line => Dashboard.visibleWidth line = 62%Z) body)
    as (body & Hbody & Hlen & Hwbody).
  { destruct anomalies as [|anomaly anomalies].
    - eexists. split; [by vm_compute|]. split; [done|].
      constructor; [by vm_compute|constructor].
    - remember (anomaly :: anomalies) as l eqn:Hl.
      assert ((length l =? 0) = false) as -> by (subst l; done).
      rewrite decide_False by (subst l; done).
      destruct (Forall2_exists
                  (fun anomaly line =>
                     Dashboard.anomalyLine message anomaly = Some line
                     ∧ Dashboard.visibleWidth line = 62%Z)
                  (take 5 l) (anomalyLine_spec message)) as [body Hbody].
      exists body. split; [|split].
      + apply mapM_Some. eapply Forall2_impl; [exact Hbody|]. by intros ?? [? _].
      + apply Forall2_length in Hbody. rewrite <- Hbody, length_take. lia.
      + clear -Hbody. induction Hbody as [|???? [_ ?] _ IH]; by constructor. }
  assert (Dashboard.anomaliesLines message anomalies
          = Some ([top] ++ body ++ [bottom])) as Hall.
  { unfold Dashboard.anomaliesLines. cbv zeta.
    rewrite Htop. cbn [mbind option_bind]. rewrite Hbody. cbn [mbind option_bind].
    by rewrite Hbottom. }
  exists top, body, bottom. split; [exact Hall|].
  split; [unfold Dashboard.renderAnomalies; by rewrite Hall|].
  split; [done|].
  apply Forall_app. split; [by repeat constructor|].
  apply Forall_app. split; [done|by repeat constructor].
Qed.

(** ** The REST API *)

Lemma insert_ranked_entries {A B} (x : ProgramRanking A) (y : ProgramRanking B) l l' :
  entryOf x = entryOf y →
  Forall2 (fun a b => entryOf a = entryOf b) l l' →
  Forall2 (fun a b => entryOf a = entryOf b) (insert_ranked x l) (insert_ranked y l').
Proof.
  intros Hxy. induction 1 as [|a b l l' Hab Hl IH]; simpl.
  - by repeat constructor.
  - assert (invocationCount x = invocationCount y) as -> by (by injection Hxy).
    assert (invocationCount a = invocationCount b) as -> by (by injection Hab).
    destruct (invocationCount y <? invocationCount b); by repeat constructor.
Qed.

Lemma sort_ranked_entries {A B} (l : list (ProgramRanking A))
    (l' : list (ProgramRanking B)) :
  Forall2 (fun a b => entryOf a = entryOf b) l l' →
  Forall2 (fun a b => entryOf a = entryOf b) (sort_ranked l) (sort_ranked l').
Proof.
  induction 1 as [|a b l l' Hab Hl IH]; simpl; [constructor|].
  by apply insert_ranked_entries.
Qed.

Lemma Forall2_entries {A B} (l : list (ProgramRanking A)) (l' : list (ProgramRanking B)) :
  Forall2 (fun a b => entryOf a = entryOf b) l l' → entryOf <$> l = entryOf <$> l'.
Proof. induction 1; csimpl; congruence. Qed.

(** X21.  The ranking of [/api/programs/top] agrees with the engine's: for
    the same invocation counts it lists the same programs in the same
    order with the same labels, categories and counts as [rankPrograms],
    at most 20 of them, and the same total.  The data source is asked for
    at most 20 blocks, while [blocksAnalyzed] repeats the number of the
    query as it is; a failure of the data source gives status 500 with
    its reason. *)
Theorem apiTopPrograms_agrees (R : Type) (N : JsNumber R) (toFixed2 : R → string)
    (numBlocks : option Z) (client : SolanaClient R) :
  cappedBlocks numBlocks <= 20
  ∧ match getTopProgramsFromRecentBlocks client (cappedBlocks numBlocks) with
    | Fulfilled programCounts =>
        ∃ body,
          apiTopPrograms toFixed2 numBlocks client = Ok200 body
          ∧ entryOf <$> t_programs body = entryOf <$> rankPrograms (R:=R) programCounts
          ∧ length (t_programs body) = Nat.min 20 (length programCounts)
          ∧ t_totalInvocations body = sum_list (map_values programCounts)
          ∧ t_blocksAnalyzed body = numBlocks
    | Rejected reason => apiTopPrograms toFixed2 numBlocks client = Error500 reason
    end.
Proof.
  split; [destruct numBlocks; simpl; lia|].
  unfold apiTopPrograms.
  destruct (getTopProgramsFromRecentBlocks client (cappedBlocks numBlocks))
    as [programCounts|reason]; [|done].
  eexists. split; [done|]. simpl. split; [|split; [|split]].
  - unfold rankPrograms. rewrite !fmap_take. f_equal.
    apply Forall2_entries, sort_ranked_entries.
    apply Forall2_fmap, Forall_Forall2_diag, Forall_forall.
    by intros [programId count] _.
  - rewrite length_take, (Permutation_length (sort_ranked_perm _)), length_fmap. done.
  - by rewrite foldl_add_sum_list, list_fmap_id.
  - done.
Qed.

(** X22.  [/api/anomalies] is not a read-only request: it takes a snapshot
    of 5 blocks.  A 200 answer carries the anomalies of that snapshot,
    which are the ones [detectAnomalies] finds in what was fetched against
    the engine as it was before the request, and the baseline after the
    observed throughput has been folded in, which is therefore never
    null; on an engine without baseline the answer holds no throughput
    anomaly and the observed throughput as baseline; and the engine has
    the new history entry afterwards.  A 500 answer carries the reason of
    the failed snapshot and leaves the engine as it was. *)
Theorem apiAnomalies_spec (R : Type) (N : JsNumber R) (st : Engine R)
    (client : SolanaClient R) (settled : list FetchId) (clock : Clock) :
  let call := {| c_client := client; c_numBlocks := 5;
                 c_settled := settled; c_clock := clock |} in
  match (apiAnomalies st client settled clock).1 with
  | Ok200 body =>
      ∃ p snapshot stats blocks programCounts,
        callPoint call = Some p
        ∧ (takeSnapshot st call).1 = Fulfilled snapshot
        ∧ getNetworkStats client = Fulfilled stats
        ∧ getRecentBlockProduction client 5 = Fulfilled blocks
        ∧ getTopProgramsFromRecentBlocks client 5 = Fulfilled programCounts
        ∧ b_anomalies body = anomalies snapshot
        ∧ b_anomalies body
          = detectAnomalies st stats (summarizeBlocks blocks)
              (rankPrograms programCounts) programCounts (now_detect clock)
        ∧ b_baselineTps body = updateBaseline (baselineTps st) (h_tps p)
        ∧ h_tps p = tps stats
        ∧ is_Some (b_baselineTps body)
        ∧ (baselineTps st = None →
             b_baselineTps body = Some (h_tps p)
             ∧ of_type tps_spike (b_anomalies body) = []
             ∧ of_type tps_drop (b_anomalies body) = [])
        ∧ history (apiAnomalies st client settled clock).2
          = pushHistory (history st) p
        ∧ (apiAnomalies st client settled clock).2 = (takeSnapshot st call).2
  | Error500 message =>
      (takeSnapshot st call).1 = Rejected message
      ∧ (apiAnomalies st client settled clock).2 = st ∧ fails call
  end.
Proof.
  intros call. unfold apiAnomalies. fold call.
  pose proof (takeSnapshot_state st call) as Hs.
  destruct (takeSnapshot st call) as [[snapshot|reason] st'] eqn:Hsnap; simpl.
  - assert ((takeSnapshot st call).1 = Fulfilled snapshot) as Hful by by rewrite Hsnap.
    apply takeSnapshot_fields
      in Hful as (stats & blocks & programCounts & E1 & E2 & E3 & _ & Hbs & Htop & _ & Ha).
    unfold callPoint in *. rewrite E1, E2, E3 in *. simpl in Hs.
    destruct Hs as (Hh & Hb & _).
    eexists _, snapshot, stats, blocks, programCounts.
    split; [done|]. split; [done|]. split; [exact E1|]. split; [exact E2|].
    split; [exact E3|]. split; [done|].
    split; [by rewrite Ha, Hbs, Htop|].
    unfold getBaselineTps. rewrite Hb. simpl. split; [done|]. split; [done|].
    split; [|split; [|done]].
    + unfold updateBaseline. destruct (baselineTps st); by eauto.
    + intros Hnone. rewrite Ha, !of_type_tps by auto. by rewrite Hnone.
  - assert (fails call) as Hfails.
    { unfold fails. unfold takeSnapshot in Hsnap.
      destruct (getNetworkStats (c_client call)) as [stats|]; [|by left; eauto].
      destruct (getRecentBlockProduction (c_client call) (c_numBlocks call))
        as [blocks|]; [|by right; left; eauto].
      destruct (getTopProgramsFromRecentBlocks (c_client call) (c_numBlocks call))
        as [programCounts|]; [|by right; right; eauto].
      rewrite promise_all_fulfilled in Hsnap. by destruct (snapshotOf _ _ _ _ _). }
    split; [done|]. split; [|done]. rewrite (callPoint_fails _ Hfails) in Hs. done.
Qed.

(** ** The summary of the [analyze] command *)

Lemma filter_length_all {A} (P : A → Prop) `{∀ x, Decision (P x)} (l : list A) :
  length (filter P l) = length l ↔ Forall P l.
Proof.
  induction l as [|x l IH]; [by split; [constructor|]|].
  rewrite filter_cons. pose proof (length_filter P l).
  destruct (decide (P x)); simpl.
  - rewrite Forall_cons. split; [intros [=]; tauto|]. intros [_ ?]. f_equal. tauto.
  - split; [lia|]. by intros [? _]%Forall_cons.
Qed.

Lemma size_list_to_set_le (l : list string) :
  size (list_to_set (C:=gset string) l) <= length l.
Proof.
  induction l as [|x l IH]; simpl; [done|].
  rewrite size_union_alt, size_singleton.
  pose proof (subseteq_size (list_to_set l ∖ {[x]}) (list_to_set (C:=gset string) l)
                ltac:(set_unfold; tauto)).
  lia.
Qed.

Lemma percentage_full (part whole : nat) :
  0 < whole → (Qnat part / Qnat whole * 100 == 100)%Q ↔ part = whole.
Proof.
  intros Hpos. pose proof (Qnat_pos _ Hpos) as Hw.
  assert (¬ (Qnat whole == 0)%Q) as Hne by lra.
  assert (Qnat whole * (Qnat part / Qnat whole) == Qnat part)%Q as Hdiv
    by (field; exact Hne).
  set (x := (Qnat part / Qnat whole)%Q) in *. split.
  - intros Hfull. assert (x == 1)%Q as Hx by lra.
    assert (Qnat whole == Qnat part)%Q as Heq.
    { rewrite <- Hdiv. setoid_rewrite Hx. ring. }
    unfold Qnat in Heq. apply (proj1 (inject_Z_injective _ _)) in Heq. lia.
  - intros ->. assert (x == 1)%Q as Hx; [|lra].
    unfold x. field. exact Hne.
Qed.

(** X23.  The summary of the [analyze] command is printed for a non-empty
    activity only, so that its two averages never divide by zero.  In
    exact arithmetic the success rate lies between 0 and 100 and is 100
    exactly when every listed transaction succeeded, the average number of
    inner instructions is not negative, and the number of unique accounts
    is at most the number of account entries. *)
Theorem analyzeSummary_spec (activity : list (ProgramInvocation Q)) :
  (analyzeSummary activity = None ↔ activity = [])
  ∧ (∀ summary, analyzeSummary activity = Some summary →
       (0 <= activitySuccessRate summary)%Q
       ∧ (activitySuccessRate summary <= 100)%Q
       ∧ ((activitySuccessRate summary == 100)%Q
          ↔ Forall (fun a => i_success a = true) activity)
       ∧ (0 <= avgInner summary)%Q
       ∧ uniqueAccounts summary <= length (activity ≫= i_accounts)
       ∧ (uniqueAccounts summary = 0 ↔ Forall (fun a => i_accounts a = []) activity)).
Proof.
  unfold analyzeSummary. destruct activity as [|a activity].
  { split; [done|]. by intros ? [=]. }
  remember (a :: activity) as l eqn:Hl.
  assert (0 < length l) as Hpos by (subst l; simpl; lia).
  destruct (Nat.eqb_spec (length l) 0) as [|_]; [lia|].
  split; [split; [done|by subst l]|].
  intros summary [= <-]. simpl.
  pose proof (length_filter (fun a => i_success a = true) l) as Hle.
  destruct (percentage_range _ _ Hle Hpos) as [H0 H100].
  split; [exact H0|]. split; [exact H100|]. split; [|split; [|split]].
  - etransitivity; [by apply (percentage_full _ _ Hpos)|]. apply filter_length_all.
  - match goal with |- (0 <= ?x / ?y)%Q => change y with (Qnat (length l)) end.
    apply Qle_shift_div_l; [by apply Qnat_pos|].
    rewrite Qmult_0_l. apply Qnat_nonneg.
  - apply size_list_to_set_le.
  - rewrite size_empty_iff. split.
    + intros Hempty. apply Forall_forall. intros b Hb.
      destruct (i_accounts b) as [|x xs] eqn:Hx; [done|].
      assert (x ∈ (list_to_set (l ≫= i_accounts) : gset string)) as Hin.
      { apply elem_of_list_to_set, list_elem_of_bind. exists b.
        split; [rewrite Hx; left|done]. }
      rewrite Hempty in Hin. by apply not_elem_of_empty in Hin.
    + intros Hall. apply set_equiv. intros x. rewrite elem_of_list_to_set.
      split; [|by intros ?%not_elem_of_empty].
      intros (b & Hx & Hb)%list_elem_of_bind.
      rewrite (proj1 (Forall_forall _ _) Hall b Hb) in Hx. by apply elem_of_nil in Hx.
Qed.

(** ** Sample runs of the further parts *)

Example shortenAddress_long :
  shortenAddress "9WzDXwBbmkg8ZTbNMqUxvQRAyrZzDsGYdLVL9zYtAWWM" = "9WzD...AWWM"%string.
Proof. reflexivity. Qed.

Example getProgramLabel_unknown :
  getProgramLabel "9WzDXwBbmkg8ZTbNMqUxvQRAyrZzDsGYdLVL9zYtAWWM"
  = LabelText "9WzD...AWWM"
  ∧ categorizeProgram "9WzDXwBbmkg8ZTbNMqUxvQRAyrZzDsGYdLVL9zYtAWWM" = "Other"%string.
Proof. split; reflexivity. Qed.

(** The names of inherited members are no program identifiers, but the
    [analyze] command passes on whatever it is given. *)
Example getProgramLabel_inherited :
  getProgramLabel "constructor" = LabelInherited "constructor"
  ∧ getProgramLabel "toString" = LabelInherited "toString"
  ∧ getProgramLabel "constructors" = LabelText "cons...tors"
  ∧ getProgramLabel "11111111111111111111111111111111" = LabelText "System Program".
Proof. repeat split; reflexivity. Qed.

Example padStr_status :
  padStr "OK" 10 = "OK        "%string ∧ padStr "Signature" 4 = "Sign"%string.
Proof. split; reflexivity. Qed.

(** Slots 100 to 97, the block of slot 99 being unavailable. *)
Example recentBlockProduction_window :
  slot <$> recentBlockProduction 100
             [Some ([Some None], None); None; Some ([], None); Some ([None], Some 5%Z)]
  = [100; 98; 97]%Z.
Proof. reflexivity. Qed.

Example topProgramsFromRecentBlocks_sample :
  topProgramsFromRecentBlocks
    [Some [["a"; "b"]; ["a"]]; None; Some [["c"; "a"]]]%string
  = [("a", 3); ("b", 1); ("c", 1)]%string.
Proof. reflexivity. Qed.

Example stripAnsi_coloured :
  Dashboard.stripAnsi (Dashboard.c Dashboard.red (Dashboard.units "FAIL"))
  = Dashboard.units "FAIL".
Proof. reflexivity. Qed.

(** An unfinished sequence is kept, and what is left after a removal can
    itself be a sequence: stripping twice is not stripping once. *)
Example stripAnsi_twice :
  Dashboard.stripAnsi [27; 91; 51; 49]%N = [27; 91; 51; 49]%N
  ∧ Dashboard.stripAnsi [27; 27; 91; 48; 109; 91; 48; 109]%N = [27; 91; 48; 109]%N
  ∧ Dashboard.stripAnsi [27; 91; 48; 109]%N = [].
Proof. repeat split; reflexivity. Qed.

(** The title of the ranking table has 28 characters. *)
Example boxTop_too_narrow :
  Dashboard.boxTop (Dashboard.units "Top Programs (Recent Blocks)") 31 = None
  ∧ is_Some (Dashboard.boxTop (Dashboard.units "Top Programs (Recent Blocks)") 32).
Proof. split; [reflexivity|]. vm_compute. by eexists. Qed.

(** Twelve signatures, hence two batches; the node does not know the
    transaction of the signature "s3". *)
Example getProgramActivity_two_batches :
  let signatures :=
    imap (fun i name => {| sig_signature := name; sig_slot := Z.of_nat i;
                           sig_blockTime := None; sig_err := None |})
      ["s0"; "s1"; "s2"; "s3"; "s4"; "s5"; "s6"; "s7"; "s8"; "s9"; "s10"; "s11"]%string
  in
  let node := fun signature =>
    if String.eqb signature "s3" then Fulfilled None
    else Fulfilled (Some {| tx_accountKeys := []; tx_meta := None |}) in
  (fun outcome =>
     match outcome with
     | Some (Fulfilled invocations) => Some (i_slot <$> invocations)
     | _ => None
     end)
    (getProgramActivity (R:=Q) (fun _ => None) "P" (Fulfilled signatures) node
       (fun _ => []))
  = Some [0; 1; 2; 4; 5; 6; 7; 8; 9; 10; 11]%Z.
Proof. reflexivity. Qed.

(** A program identifier that the [PublicKey] constructor refuses. *)
Example getProgramActivity_no_public_key :
  getProgramActivity (R:=Q)
    (fun programId => if String.eqb programId "X" then Some "Invalid public key input"
                      else None)
    "X" (Fulfilled []) (fun _ => Fulfilled None) (fun _ => [])
  = Some (Rejected "Invalid public key input").
Proof. reflexivity. Qed.
